(** * Pupil tracker of [pipeline/utils/eye_tracking.py]

    A shallow embedding of [PupilTracker] (its goodness of fit, its
    candidate scoring and selection, and the frame loop of [track]) and
    the properties of the specification that concern it.

    Conventions of the embedding
    - Python and NumPy floats are real numbers ([R]); [np.inf], which the
      code only uses as the initial best error, is the missing value of
      an [option R]. Where a property depends on the rounding of the
      doubles, the function is also given in binary64 arithmetic
      ([goodness_of_fit64]).
    - Python exceptions are values of [exn]; a computation that may raise
      returns a [result].
    - [self._params] is a finite map from option names to numbers.
    - OpenCV and [np.percentile] are services of the class [Vision],
      which gives what they return; where they raise instead (smoothing
      an image without pixels, a percentile outside [0, 100], an ellipse
      that cannot be fitted) the embedding says so at the call. The
      video capture and the keyboard are the record [VideoCapture].
    - [display] is [False] (its default): drawing and printing are not
      modelled. *)

From Stdlib Require Import Reals Lra Lia ZArith List String Sorted.
From Stdlib Require PrimFloat.
From stdpp Require Import base decidable option list gmap strings.
Import ListNotations.

#[local] Open Scope Z_scope.

(** ** Numbers and exceptions *)

#[global] Instance Rlt_decision (x y : R) : Decision (x < y)%R := Rlt_dec x y.
#[global] Instance Rle_decision (x y : R) : Decision (x <= y)%R := Rle_dec x y.
#[global] Instance Req_decision : EqDecision R := Req_dec_T.

(** [1 * (cond)]: a Python truth value counted as an integer. *)
Definition b2z (b : bool) : Z := if b then 1 else 0.

Inductive exn : Type :=
| KeyError (key : string)
| IndexError
| ZeroDivisionError
| Cv2Error
| ValueError
| PipelineException (msg : string).

Inductive result (A : Type) : Type :=
| Ok (a : A)
| Raise (e : exn).
Arguments Ok {A} a.
Arguments Raise {A} e.

#[global] Instance result_bind : MBind result := fun A B k m =>
  match m with
  | Ok a => k a
  | Raise e => Raise e
  end.

(** [d[key]] on a Python dict. *)
Definition getitem {V : Type} (d : gmap string V) (key : string) : result V :=
  match d !! key with
  | Some v => Ok v
  | None => Raise (KeyError key)
  end.

(** ** Data *)

(** A contour of OpenCV: an array of shape (N, 1, 2) of integer points. *)
Definition Contour : Type := list (Z * Z).

(** The rotated rectangle of [cv2.fitEllipse]:
    [((x, y), (width, height), angle)], the angle in degrees. *)
Definition Ellipse : Type := ((R * R) * (R * R) * R)%type.

(** [ellipse[0]], [ellipse[1]] *)
Definition ell_center (ellipse : Ellipse) : R * R := fst (fst ellipse).
Definition ell_axes (ellipse : Ellipse) : R * R := snd (fst ellipse).

(** [max] and [min] of a pair of floats. *)
Definition max2 (p : R * R) : R := Rmax (fst p) (snd p).
Definition min2 (p : R * R) : R := Rmin (fst p) (snd p).

(** A grayscale image as its rows of samples; [shape] is (rows, columns). *)
Definition Image : Type := list (list Z).

Definition shape (img : Image) : Z * Z :=
  (Z.of_nat (length img), Z.of_nat (length (hd [] img))).

(** The region of interest [[[r0, r1], [c0, c1]]]. *)
Definition ROI : Type := ((Z * Z) * (Z * Z))%type.

Definition Params : Type := gmap string R.

(** ** [PupilTracker.goodness_of_fit] *)

Section GoodnessOfFit.
#[local] Open Scope R_scope.

(** One turn of the loop body: the squared residual of [coord]. *)
Definition fit_residual2 (center size : R * R) (angle : R) (coord : Z * Z) : R :=
  let posx := (IZR (fst coord) - fst center) * cos (- angle)
              - (IZR (snd coord) - snd center) * sin (- angle) in
  let posy := (IZR (fst coord) - fst center) * sin (- angle)
              + (IZR (snd coord) - snd center) * cos (- angle) in
  ((posx / fst size) ^ 2 + (posy / snd size) ^ 2 - 0.25) ^ 2.

(** [contour.squeeze()] drops every axis of length one: a contour of a
    single point becomes the flat pair of its coordinates, whose items
    are scalars, so that [coord[0]] raises; an empty contour leaves
    [err] the integer 0 and [err / len(contour)] is [0 / 0]. This is
    the function in exact arithmetic, as the scoring uses it;
    [goodness_of_fit64] below is the function on doubles. *)
Definition goodness_of_fit (contour : Contour) (ellipse : Ellipse) : result R :=
  let '(center, size, angle) := ellipse in
  let angle := angle * (PI / 180) in
  match contour with
  | [] => Raise ZeroDivisionError
  | [_] => Raise IndexError
  | _ =>
      let err := fold_left (fun err coord => err + fit_residual2 center size angle coord)
                           contour 0 in
      Ok (sqrt (err / INR (length contour)))
  end.

(** The same quantity in the words of the specification: the point in
    the frame of the ellipse, the implicit equation, the root of the
    mean of the squares. *)
Definition rotated_point (center : R * R) (theta : R) (p : Z * Z) : R * R :=
  let dx := IZR (fst p) - fst center in
  let dy := IZR (snd p) - snd center in
  (dx * cos (- theta) - dy * sin (- theta),
   dx * sin (- theta) + dy * cos (- theta)).

Definition implicit_equation (a b : R) (q : R * R) : R :=
  (fst q / a) ^ 2 + (snd q / b) ^ 2 - 0.25.

Definition Rsum (l : list R) : R := fold_right Rplus 0 l.

Definition spec_rmse (contour : Contour) (ellipse : Ellipse) : R :=
  let '(center, (a, b), angle) := ellipse in
  let theta := angle * (PI / 180) in
  sqrt (Rsum (map (fun p => implicit_equation a b (rotated_point center theta p) ^ 2)
                  contour)
        / INR (length contour)).

(** A point lies on the boundary of the ellipse of full axes [a], [b]. *)
Definition on_boundary (ellipse : Ellipse) (p : Z * Z) : Prop :=
  let '(center, (a, b), angle) := ellipse in
  let q := rotated_point center (angle * (PI / 180)) p in
  (fst q / (a / 2)) ^ 2 + (snd q / (b / 2)) ^ 2 = 1.
End GoodnessOfFit.

(** ** [PupilTracker.goodness_of_fit] in binary64

    The same lines 213-223 with the doubles the code computes with:
    the arithmetic of IEEE 754 (the primitive floats), and the three
    functions of the C library that NumPy calls. *)

(** [np.cos], [np.sin] and [x ** y] on doubles. *)
Class Libm : Type := {
  libm_cos : PrimFloat.float -> PrimFloat.float;
  libm_sin : PrimFloat.float -> PrimFloat.float;
  libm_pow : PrimFloat.float -> PrimFloat.float -> PrimFloat.float
}.

(** The rotated rectangle with its five numbers as doubles. *)
Definition Ellipse64 : Type :=
  ((PrimFloat.float * PrimFloat.float) * (PrimFloat.float * PrimFloat.float)
   * PrimFloat.float)%type.

Section Binary64.
Import PrimFloat.
#[local] Open Scope float_scope.

(** [.astype(np.float)] on an integer: exact for the coordinates of a
    contour, which OpenCV holds in 32 bits. *)
Fixpoint pos_to_f64 (p : positive) : float :=
  match p with
  | xH => 1
  | xO p => 2 * pos_to_f64 p
  | xI p => 2 * pos_to_f64 p + 1
  end.

Definition Z_to_f64 (z : Z) : float :=
  match z with
  | Z0 => 0
  | Zpos p => pos_to_f64 p
  | Zneg p => - pos_to_f64 p
  end.

(** [np.pi] *)
Definition np_pi : float := 0x1.921fb54442d18p+1.

Context `{Libm}.

(** One turn of the loop body. *)
Definition fit_residual2_64 (center size : float * float) (angle : float)
    (coord : Z * Z) : float :=
  let posx := (Z_to_f64 (fst coord) - fst center) * libm_cos (- angle)
              - (Z_to_f64 (snd coord) - snd center) * libm_sin (- angle) in
  let posy := (Z_to_f64 (fst coord) - fst center) * libm_sin (- angle)
              + (Z_to_f64 (snd coord) - snd center) * libm_cos (- angle) in
  libm_pow (libm_pow (posx / fst size) 2 + libm_pow (posy / snd size) 2 - 0.25) 2.

Definition goodness_of_fit64 (contour : Contour) (ellipse : Ellipse64)
    : result float :=
  let '(center, size, angle) := ellipse in
  let angle := angle * (np_pi / 180) in
  match contour with
  | [] => Raise ZeroDivisionError
  | [_] => Raise IndexError
  | _ =>
      let err := fold_left (fun err coord => err + fit_residual2_64 center size angle coord)
                           contour 0 in
      Ok (sqrt (err / Z_to_f64 (Z.of_nat (length contour))))
  end.

(** The same quantity in the words of the specification, in doubles:
    the squares are summed in the order of the contour. *)
Definition rotated_point64 (center : float * float) (theta : float) (p : Z * Z)
    : float * float :=
  let dx := Z_to_f64 (fst p) - fst center in
  let dy := Z_to_f64 (snd p) - snd center in
  (dx * libm_cos (- theta) - dy * libm_sin (- theta),
   dx * libm_sin (- theta) + dy * libm_cos (- theta)).

Definition implicit_equation64 (a b : float) (q : float * float) : float :=
  libm_pow (fst q / a) 2 + libm_pow (snd q / b) 2 - 0.25.

Definition sum64 (l : list float) : float := fold_left add l 0.

Definition spec_rmse64 (contour : Contour) (ellipse : Ellipse64) : float :=
  let '(center, (a, b), angle) := ellipse in
  let theta := angle * (np_pi / 180) in
  sqrt (sum64 (map (fun p => libm_pow (implicit_equation64 a b
                                         (rotated_point64 center theta p)) 2)
                   contour)
        / Z_to_f64 (Z.of_nat (length contour))).
End Binary64.

(** ** NumPy on images *)

(** The bound [i] of a slice over a sequence of length [n]: negative
    bounds count from the end, and every bound is clipped to [0, n]. *)
Definition slice_bound (n i : Z) : Z :=
  if i <? 0 then Z.max (i + n) 0 else Z.min i n.

(** [l[lo:hi]] *)
Definition py_slice {A : Type} (lo hi : Z) (l : list A) : list A :=
  let n := Z.of_nat (length l) in
  let a := slice_bound n lo in
  let b := slice_bound n hi in
  take (Z.to_nat (b - a)) (drop (Z.to_nat a) l).

(** [gray[r0:r1, c0:c1]], the two slices being the rows of [eye_roi] *)
Definition crop (eye_roi : ROI) (gray : Image) : Image :=
  let '((r0, r1), (c0, c1)) := eye_roi in
  map (py_slice c0 c1) (py_slice r0 r1 gray).

Definition samples (img : Image) : list R := map IZR (concat img).

Definition np_mean (xs : list R) : R := (Rsum xs / INR (length xs))%R.

(** [np.std]: the root of the mean squared deviation from the mean. *)
Definition np_std (img : Image) : R :=
  let xs := samples img in
  let m := np_mean xs in
  sqrt (np_mean (map (fun x => (x - m) ^ 2)%R xs)).

(** [.astype(np.int16)] on one integer. *)
Definition int16 (z : Z) : Z := (z + 32768) mod 65536 - 32768.

(** ** The services the tracker calls *)

Class Vision : Type := {
  (** a decoded colour frame *)
  Frame : Type;
  (** [cv2.cvtColor(frame, cv2.COLOR_BGR2GRAY)] *)
  cvtColor : Frame -> Image;
  (** [cv2.GaussianBlur(img, (9, 9), 0)], for an image that has pixels *)
  GaussianBlur : Image -> Image;
  (** [np.percentile(img, q)], for [q] in [0, 100] *)
  percentile : Image -> R -> R;
  (** [cv2.threshold(img, th, 255, cv2.THRESH_BINARY)], the image returned *)
  threshold : Image -> R -> Image;
  (** [cv2.findContours(img, cv2.RETR_TREE, cv2.CHAIN_APPROX_SIMPLE)],
      the contours returned *)
  findContours : Image -> list Contour;
  (** [cv2.fitEllipse(contour)]; [None] when OpenCV raises instead *)
  fitEllipse : Contour -> option Ellipse
}.

(** The opened video and the keyboard, as the loop observes them. The
    loop reads once per iteration, so every answer is indexed by the
    number of reads made before it. *)
Record VideoCapture `{Vision} : Type := {
  (** [int(cap.get(cv2.CAP_PROP_FRAME_COUNT))] *)
  frame_count : Z;
  (** [cap.isOpened()] after [k] reads *)
  isOpened : Z -> bool;
  (** [cap.read()] after [k] reads: the frame when [ret] is true *)
  read : Z -> option Frame;
  (** [cv2.waitKey(1)] at the end of the iteration whose read followed
      [k] earlier ones *)
  waitKey : Z -> Z
}.

(** ** [PupilTracker.get_pupil_from_contours] *)

(** The seven options the function reads on entry, in its order. *)
Record Thresholds : Type := {
  ratio_thres : R;
  area_threshold : R;
  error_threshold : R;
  min_contour : R;
  margin : R;
  speed_thres : R;
  dr_thres : R
}.

Definition read_thresholds (params : Params) : result Thresholds :=
  ratio_thres ← getitem params "ratio_threshold";
  area_threshold ← getitem params "relative_area_threshold";
  error_threshold ← getitem params "error_threshold";
  min_contour ← getitem params "min_contour_len";
  margin ← getitem params "margin";
  speed_thres ← getitem params "speed_threshold";
  dr_thres ← getitem params "dr_threshold";
  Ok {| ratio_thres := ratio_thres; area_threshold := area_threshold;
        error_threshold := error_threshold; min_contour := min_contour;
        margin := margin; speed_thres := speed_thres; dr_thres := dr_thres |}.

(** What the loop body computes for a contour it does not skip. *)
Record Scored : Type := {
  sc_contour : Contour;
  sc_ellipse : Ellipse;
  sc_ratio : R;
  sc_area : R;
  sc_rmse : R;
  sc_center : R * R;
  sc_r : R;
  sc_dx : R;
  sc_dr : R
}.

(** A value of the dict [results]: a column that is appended to, or the
    scalar stored under ['conditions']. *)
Inductive cell : Type :=
| Column (values : list R)
| Scalar (value : Z).

(** [results[key].append(v)] on the [defaultdict(list)]. Only the seven
    column names are appended to; ['conditions'] never is. *)
Definition append (key : string) (v : R) (results : gmap string cell) : gmap string cell :=
  match results !! key with
  | Some (Column values) => <[key := Column (values ++ [v])]> results
  | Some (Scalar _) => results
  | None => <[key := Column [v]]> results
  end.

Section Scoring.
#[local] Open Scope R_scope.

(** [max(axes) / min(axes)] *)
Definition ratio_of (axes : R * R) : R := max2 axes / min2 axes.

(** [np.prod(ellipse[1]) / np.prod(small_gray.shape)] *)
Definition area_of (axes : R * R) (small_shape : Z * Z) : R :=
  (fst axes * snd axes) / IZR (fst small_shape * snd small_shape).

(** [np.array([x / small_gray.shape[1], y / small_gray.shape[0]])] *)
Definition center_of (xy : R * R) (small_shape : Z * Z) : R * R :=
  (fst xy / IZR (snd small_shape), snd xy / IZR (fst small_shape)).

(** [0 if old_center is None else np.sqrt(np.sum((center - old_center) ** 2))] *)
Definition dx_of (center : R * R) (old_center : option (R * R)) : R :=
  match old_center with
  | None => 0
  | Some oc => sqrt ((fst center - fst oc) ^ 2 + (snd center - snd oc) ^ 2)
  end.

(** [0 if old_r is None else abs(r - old_r) / old_r], a division of
    Python floats. *)
Definition dr_of (r : R) (old_r : option R) : result R :=
  match old_r with
  | None => Ok 0
  | Some o => if decide (o = 0) then Raise ZeroDivisionError else Ok (Rabs (r - o) / o)
  end.

(** The seven criteria, in the order of the sum. *)
Definition criteria (th : Thresholds) (s : Scored) : list bool :=
  [ bool_decide (sc_ratio s <= ratio_thres th);
    bool_decide (sc_area s >= area_threshold th);
    bool_decide (sc_rmse s < error_threshold th);
    bool_decide (margin th < fst (sc_center s) /\ fst (sc_center s) < 1 - margin th);
    bool_decide (margin th < snd (sc_center s) /\ snd (sc_center s) < 1 - margin th);
    bool_decide (sc_dx s < speed_thres th);
    bool_decide (sc_dr s < dr_thres th) ].
End Scoring.

(** [matching_conditions]: the sum of the seven [1 * (criterion)]
    (lines 274-279). *)
Definition matching_conditions (th : Thresholds) (s : Scored) : Z :=
  foldr (fun c n => b2z c + n) 0 (criteria th s).

(** The state of the loop over the contours: the best error so far
    ([None] for [np.inf]), the best contour with its ellipse (the code
    assigns [best_contour] and [best_ellipse] together), and [results]. *)
Record Scan : Type := {
  err : option R;
  best : option (Contour * Ellipse);
  results : gmap string cell
}.

Definition scan_init : Scan := {| err := None; best := None; results := ∅ |}.

(** [curr_err < err] *)
Definition below (curr_err : R) (err : option R) : bool :=
  match err with
  | None => true
  | Some e => bool_decide (curr_err < e)%R
  end.

Section Tracker.
Context `{Vision}.

(** The body of the loop up to the metrics (lines 249-273): [Ok None] is
    [continue]. The divisions by [small_gray.shape[1]] and
    [small_gray.shape[0]] and by [old_r] are divisions of Python numbers,
    which raise on a zero divisor. *)
Definition score (th : Thresholds) (small_shape : Z * Z)
    (old_center : option (R * R)) (old_r : option R) (cnt : Contour)
    : result (option Scored) :=
  if bool_decide (INR (length cnt) < min_contour th)%R then Ok None else
  match fitEllipse cnt with
  | None => Raise Cv2Error
  | Some ellipse =>
      let '(xy, axes, angle) := ellipse in
      if decide (min2 axes = 0%R) then Ok None else
      let ratio := ratio_of axes in
      let area := area_of axes small_shape in
      curr_err ← goodness_of_fit cnt ellipse;
      if decide (snd small_shape = 0) then Raise ZeroDivisionError else
      if decide (fst small_shape = 0) then Raise ZeroDivisionError else
      let center := center_of xy small_shape in
      let r := max2 axes in
      dr ← dr_of r old_r;
      let dx := dx_of center old_center in
      Ok (Some {| sc_contour := cnt; sc_ellipse := ellipse; sc_ratio := ratio;
                  sc_area := area; sc_rmse := curr_err; sc_center := center;
                  sc_r := r; sc_dx := dx; sc_dr := dr |})
  end.

(** The rest of the body (lines 260-286): the bookkeeping in [results]
    and the choice [if curr_err < err and matching_conditions == 7]. *)
Definition record_scored (th : Thresholds) (s : Scored) (results : gmap string cell)
    : gmap string cell :=
  <["conditions" := Scalar (matching_conditions th s)]>
    (append "dr/r" (sc_dr s)
      (append "dx" (sc_dx s)
        (append "y coord" (snd (sc_center s))
          (append "x coord" (fst (sc_center s))
            (append "rmse" (sc_rmse s)
              (append "area" (sc_area s)
                (append "ratio" (sc_ratio s) results))))))).

Definition choose (th : Thresholds) (s : Scored) (acc : Scan) : Scan :=
  let results := record_scored th s (results acc) in
  if below (sc_rmse s) (err acc) && bool_decide (matching_conditions th s = 7)
  then {| err := Some (sc_rmse s); best := Some (sc_contour s, sc_ellipse s);
          results := results |}
  else {| err := err acc; best := best acc; results := results |}.

Fixpoint scan (th : Thresholds) (small_shape : Z * Z)
    (old_center : option (R * R)) (old_r : option R)
    (contours : list Contour) (acc : Scan) : result Scan :=
  match contours with
  | [] => Ok acc
  | cnt :: contours =>
      o ← score th small_shape old_center old_r cnt;
      scan th small_shape old_center old_r contours
        (match o with
         | None => acc
         | Some s => choose th s acc
         end)
  end.

(** The function (lines 235-297). After the loop, when nothing was
    chosen, it builds a [DataFrame] of [results] and reads its column
    ['conditions'], which is a [KeyError] when [results] has no such key. *)
Definition get_pupil_from_contours (params : Params) (contours : list Contour)
    (small_gray : Image) (old_center : option (R * R)) (old_r : option R)
    : result (option (Contour * Ellipse)) :=
  th ← read_thresholds params;
  acc ← scan th (shape small_gray) old_center old_r contours scan_init;
  match best acc with
  | None => _ ← getitem (results acc) "conditions"; Ok None
  | Some b => Ok (Some b)
  end.

(** ** [PupilTracker.track] *)

(** The three dicts the loop appends to [traces]: [dict(frame_id)],
    [dict(frame_id, frame_intensity)] and the dict of a detection. *)
Inductive FrameRecord : Type :=
| Unread (frame_id : Z)
| Failure (frame_id : Z) (frame_intensity : R)
| Detection (center : R * R) (major_r : R) (rotated_rect : list R)
    (contour : Contour) (frame_id : Z) (frame_intensity : R).

Definition frame_id (r : FrameRecord) : Z :=
  match r with
  | Unread i | Failure i _ | Detection _ _ _ _ i _ => i
  end.

(** The variables of the loop. *)
Record Loop : Type := {
  traces : list FrameRecord;
  fr_count : Z;
  old_center : option (R * R);
  old_r : option R
}.

Definition loop_init : Loop :=
  {| traces := []; fr_count := 0; old_center := None; old_r := None |}.

(** The four options [track] reads on entry, in its order. *)
Record Levels : Type := {
  cw_low : R;
  p_high : R;
  p_low : R;
  contrast_low : R
}.

Definition read_levels (params : Params) : result Levels :=
  cw_low ← getitem params "perc_weight";
  p_high ← getitem params "perc_high";
  p_low ← getitem params "perc_low";
  contrast_low ← getitem params "contrast_threshold";
  Ok {| cw_low := cw_low; p_high := p_high; p_low := p_low;
        contrast_low := contrast_low |}.

(** How one evaluation of the loop condition and body ends. *)
Inductive flow : Type :=
| Next (st : Loop)
| Stop (st : Loop)
| Throw (e : exn) (st : Loop).

(** [cv2.GaussianBlur(small_gray, (9, 9), 0)] (line 341): OpenCV raises
    [cv2.error] on an image without pixels, which the cropped image is
    when the region is empty or lies outside the frame. *)
Definition blurred (small_gray : Image) : result Image :=
  match concat small_gray with
  | [] => Raise Cv2Error
  | _ :: _ => Ok (GaussianBlur small_gray)
  end.

(** [np.percentile(blur, q)]: NumPy raises [ValueError] for a [q]
    outside [0, 100]. *)
Definition np_percentile (blur : Image) (q : R) : result R :=
  if decide (0 <= q /\ q <= 100)%R then Ok (percentile blur q) else Raise ValueError.

(** [(1 - cw_low) * np.percentile(blur, p_high) + cw_low * np.percentile(blur, p_low)]
    (line 342), the percentile [p_high] being taken first. *)
Definition blend (lv : Levels) (blur : Image) : result R :=
  high ← np_percentile blur (p_high lv);
  low ← np_percentile blur (p_low lv);
  Ok ((1 - cw_low lv) * high + cw_low lv * low)%R.

(** The contours of the cropped image (lines 341-349): smoothing, the
    threshold level, the binary image and its contours. *)
Definition find_contours (lv : Levels) (small_gray : Image) : result (list Contour) :=
  blur ← blurred small_gray;
  th ← blend lv blur;
  let thres := threshold blur th in
  Ok (findContours thres).

(** [cv2.waitKey(1) & 0xFF == ord('q')] *)
Definition quit_key (key : Z) : bool := Z.land key 255 =? 113.

(** The record of a detection: the center moved by the corner
    [eye_roi[::-1, 0]] of the region, that is (c0, r0). *)
Definition detection (eye_roi : ROI) (contour : Contour) (ellipse : Ellipse)
    (fr_count : Z) (img_std : R) : FrameRecord :=
  let '(xy, axes, angle) := ellipse in
  let '((r0, _), (c0, _)) := eye_roi in
  Detection (IZR c0 + fst xy, IZR r0 + snd xy)%R
            (max2 axes)
            [fst xy; snd xy; fst axes; snd axes; angle]
            (map (fun p => (int16 (fst p), int16 (snd p))) contour)
            fr_count img_std.

(** [np.asarray(ellipse[0]) / np.asarray(small_gray.shape[::-1])] *)
Definition normalized_center (ellipse : Ellipse) (small_shape : Z * Z) : R * R :=
  let xy := ell_center ellipse in
  let reversed := (snd small_shape, fst small_shape) in
  (fst xy / IZR (fst reversed), snd xy / IZR (snd reversed))%R.

(** One evaluation of [while cap.isOpened():] and of its body (lines
    316-380): the test of the frame count, the read, the record of a
    frame that was not read, the contrast check on the whole gray frame,
    the contours of the cropped image and the detector on them, either
    of which may raise, the record and the new state, and last the poll
    of the keyboard. *)
Definition track_iter (params : Params) (lv : Levels) (cap : VideoCapture)
    (eye_roi : ROI) (st : Loop) : flow :=
  if negb (isOpened cap (fr_count st)) then Stop st else
  if bool_decide (fr_count st >= frame_count cap) then Stop st else
  let ret_frame := read cap (fr_count st) in
  let fr_count' := fr_count st + 1 in
  match ret_frame with
  | None =>
      Next {| traces := traces st ++ [Unread fr_count']; fr_count := fr_count';
              old_center := old_center st; old_r := old_r st |}
  | Some frame =>
      let gray := cvtColor frame in
      let img_std := np_std gray in
      if bool_decide (img_std < contrast_low lv)%R then
        Next {| traces := traces st ++ [Failure fr_count' img_std];
                fr_count := fr_count';
                old_center := old_center st; old_r := old_r st |}
      else
        let small_gray := crop eye_roi gray in
        match contours ← find_contours lv small_gray;
              get_pupil_from_contours params contours small_gray
                (old_center st) (old_r st) with
        | Raise e =>
            Throw e {| traces := traces st; fr_count := fr_count';
                       old_center := old_center st; old_r := old_r st |}
        | Ok found =>
            let st' :=
              match found with
              | None =>
                  {| traces := traces st ++ [Failure fr_count' img_std];
                     fr_count := fr_count'; old_center := None; old_r := None |}
              | Some (contour, ellipse) =>
                  {| traces := traces st
                               ++ [detection eye_roi contour ellipse fr_count' img_std];
                     fr_count := fr_count';
                     old_center := Some (normalized_center ellipse (shape small_gray));
                     old_r := Some (max2 (ell_axes ellipse)) |}
              end in
            if quit_key (waitKey cap (fr_count st))
            then Throw (PipelineException "Tracking aborted") st'
            else Next st'
        end
  end.

(** How a run ends; [Exhausted] is the model running out of fuel. *)
Inductive ending : Type :=
| Returned
| Raised (e : exn)
| Exhausted.

Fixpoint track_loop (fuel : nat) (params : Params) (lv : Levels)
    (cap : VideoCapture) (eye_roi : ROI) (st : Loop) : ending * Loop :=
  match fuel with
  | O => (Exhausted, st)
  | S fuel =>
      match track_iter params lv cap eye_roi st with
      | Next st' => track_loop fuel params lv cap eye_roi st'
      | Stop st' => (Returned, st')
      | Throw e st' => (Raised e, st')
      end
  end.

(** The run with its variables at the end, which the caller of [track]
    does not see when the run raises. The fuel is one more than the
    iterations the declared frame count allows. *)
Definition track_run (params : Params) (cap : VideoCapture) (eye_roi : ROI)
    : ending * Loop :=
  match read_levels params with
  | Raise e => (Raised e, loop_init)
  | Ok lv => track_loop (S (Z.to_nat (frame_count cap))) params lv cap eye_roi loop_init
  end.

(** What the caller of [track] observes. *)
Inductive observed : Type :=
| Returns (traces : list FrameRecord)
| Raises (e : exn)
| Hangs.

Definition track (params : Params) (cap : VideoCapture) (eye_roi : ROI) : observed :=
  match track_run params cap eye_roi with
  | (Returned, st) => Returns (traces st)
  | (Raised e, _) => Raises e
  | (Exhausted, _) => Hangs
  end.
End Tracker.

(** ** Views of the code used to state its properties *)

Section Views.
Context `{Vision}.

(** The candidates a frame yields: the contours the loop does not
    skip, with their metrics, in scan order. *)
Fixpoint scored_candidates (th : Thresholds) (small_shape : Z * Z)
    (old_center : option (R * R)) (old_r : option R)
    (contours : list Contour) : result (list Scored) :=
  match contours with
  | [] => Ok []
  | cnt :: contours =>
      o ← score th small_shape old_center old_r cnt;
      l ← scored_candidates th small_shape old_center old_r contours;
      Ok (match o with
          | None => l
          | Some s => s :: l
          end)
  end.

(** The choice alone, over candidates already scored. *)
Definition select (th : Thresholds) (candidates : list Scored) (acc : Scan) : Scan :=
  foldl (fun acc s => choose th s acc) acc candidates.

(** A candidate passes all seven criteria. *)
Definition passes (th : Thresholds) (s : Scored) : Prop :=
  matching_conditions th s = 7.

(** [s], at position [i] of [l], passes all seven criteria, no passing
    candidate has a lower rmse, and every passing candidate before it
    has a higher one. *)
Definition first_best (th : Thresholds) (l : list Scored) (i : nat) (s : Scored) : Prop :=
  l !! i = Some s /\ passes th s /\
  forall (j : nat) (s' : Scored), l !! j = Some s' -> passes th s' ->
    (sc_rmse s <= sc_rmse s')%R /\ ((j < i)%nat -> (sc_rmse s < sc_rmse s')%R).

(** The frame numbers of a trace. *)
Definition frame_ids (tr : list FrameRecord) : list Z := map frame_id tr.

(** An exception other than the abort of [track]. *)
Definition crash (e : exn) : Prop :=
  match e with
  | PipelineException _ => False
  | _ => True
  end.

Definition aborted : exn := PipelineException "Tracking aborted".

(** The trace holds one record per frame read, numbered from 1. *)
Definition consistent (st : Loop) : Prop :=
  frame_ids (traces st) = seqZ 1 (fr_count st) /\ 0 <= fr_count st.

(** What holds of the variables of the loop when a run started in
    [st0] ends in [st] with the ending [e]. *)
Definition ending_post (cap : VideoCapture) (st0 : Loop) (e : ending) (st : Loop) : Prop :=
  match e with
  | Returned =>
      consistent st
      /\ (isOpened cap (fr_count st) = false \/ frame_count cap <= fr_count st)
  | Raised e =>
      fr_count st0 < fr_count st
      /\ ((crash e /\ frame_ids (traces st) = seqZ 1 (fr_count st - 1))
          \/ (e = aborted /\ consistent st
              /\ quit_key (waitKey cap (fr_count st - 1)) = true))
  | Exhausted => consistent st
  end.

(** The metrics of the contour [cnt] fitted by [ellipse], given its
    goodness of fit and its relative change of radius. *)
Definition candidate (small_shape : Z * Z) (old_center : option (R * R))
    (cnt : Contour) (ellipse : Ellipse) (curr_err dr : R) : Scored :=
  {| sc_contour := cnt; sc_ellipse := ellipse;
     sc_ratio := ratio_of (ell_axes ellipse);
     sc_area := area_of (ell_axes ellipse) small_shape;
     sc_rmse := curr_err;
     sc_center := center_of (ell_center ellipse) small_shape;
     sc_r := max2 (ell_axes ellipse);
     sc_dx := dx_of (center_of (ell_center ellipse) small_shape) old_center;
     sc_dr := dr |}.

(** What the function returns on candidates [l]: the first of the
    best passing candidates, or nothing when none passes. *)
Definition selection (th : Thresholds) (l : list Scored)
    (found : option (Contour * Ellipse)) : Prop :=
  match found with
  | Some (c, e) =>
      exists (i : nat) (s : Scored),
        first_best th l i s /\ c = sc_contour s /\ e = sc_ellipse s
  | None => forall s : Scored, s ∈ l -> ~ passes th s
  end.

(** The small image a frame is analysed on, and the contours found. *)
Definition small_gray_of (eye_roi : ROI) (frame : Frame) : Image :=
  crop eye_roi (cvtColor frame).

Definition contours_of (lv : Levels) (eye_roi : ROI) (frame : Frame)
    : result (list Contour) :=
  find_contours lv (small_gray_of eye_roi frame).

(** What [select] leaves in the state after a list of candidates. *)
Definition select_post (th : Thresholds) (l : list Scored) (acc : Scan) : Prop :=
  match best acc with
  | Some (c, e) =>
      exists (i : nat) (s : Scored),
        first_best th l i s /\ c = sc_contour s /\ e = sc_ellipse s
        /\ err acc = Some (sc_rmse s)
  | None => err acc = None /\ forall s : Scored, s ∈ l -> ~ passes th s
  end.

(** The variables after an iteration that appended [r]. *)
Definition advance (st : Loop) (r : FrameRecord)
    (oc : option (R * R)) (or : option R) : Loop :=
  {| traces := traces st ++ [r]; fr_count := fr_count st + 1;
     old_center := oc; old_r := or |}.

(** The variables after the detector ran and returned [found]. *)
Definition after_detector (eye_roi : ROI) (st : Loop) (frame : Frame)
    (found : option (Contour * Ellipse)) : Loop :=
  match found with
  | None =>
      advance st (Failure (fr_count st + 1) (np_std (cvtColor frame))) None None
  | Some (contour, ellipse) =>
      advance st
        (detection eye_roi contour ellipse (fr_count st + 1) (np_std (cvtColor frame)))
        (Some (normalized_center ellipse (shape (small_gray_of eye_roi frame))))
        (Some (max2 (ell_axes ellipse)))
  end.
End Views.

(** ** Inputs of the concrete runs *)

(** A stand-in for the services: frames are gray already, smoothing
    and thresholding leave the image alone, every image holds the
    contours [found] and every contour is fitted by [fitted]. *)
Definition stub_vision (found : list Contour) (fitted : Ellipse) : Vision :=
  {| Frame := Image;
     cvtColor := fun frame => frame;
     GaussianBlur := fun img => img;
     percentile := fun _ _ => 0%R;
     threshold := fun img _ => img;
     findContours := fun _ => found;
     fitEllipse := fun _ => Some fitted |}.

(** A capture that stays open, declares [declared] frames, delivers
    [frames] and then nothing, while 'q' is pressed during the iteration
    of the read that follows [quit_after] others, if any. *)
Definition video (V : Vision) (declared : Z) (frames : list (@Frame V))
    (quit_after : option Z) : @VideoCapture V :=
  {| frame_count := declared;
     isOpened := fun _ => true;
     read := fun k => frames !! Z.to_nat k;
     waitKey := fun k => if decide (quit_after = Some k) then 113 else -1 |}.

(** A configuration with all eleven options. *)
Definition config : Params :=
  list_to_map
    [("ratio_threshold", 1.5); ("relative_area_threshold", 0.1);
     ("error_threshold", 0.1); ("min_contour_len", 2); ("margin", 0.1);
     ("speed_threshold", 0.1); ("dr_threshold", 0.1); ("perc_weight", 0.5);
     ("perc_high", 90); ("perc_low", 10); ("contrast_threshold", 0.75)]%R.

Definition config_levels : Levels :=
  {| cw_low := 0.5; p_high := 90; p_low := 10; contrast_low := 0.75 |}%R.

Definition config_thresholds : Thresholds :=
  {| ratio_thres := 1.5; area_threshold := 0.1; error_threshold := 0.1;
     min_contour := 2; margin := 0.1; speed_thres := 0.1; dr_thres := 0.1 |}%R.

(** A frame without contrast, a frame with contrast, and the region
    that covers both. *)
Definition flat : Image := [[1; 1]; [1; 1]].
Definition textured : Image := [[0; 2]; [0; 2]].
Definition whole : ROI := ((0, 2), (0, 2)).

(** A frame whose first two samples differ and whose other samples are
    even, and the region of those two samples. *)
Definition mostly_flat : Image := [[0; 2; 1; 1; 1; 1; 1; 1]].
Definition corner : ROI := ((0, 1), (0, 2)).

(** Two points of the circle of diameter 2 around (1, 1), and that circle. *)
Definition pupil_contour : Contour := [(2, 1); (1, 2)].
Definition pupil_ellipse : Ellipse := ((1, 1), (2, 2), 0)%R.

(** The services that find the pupil in every image, and those that
    find no contour at all. *)
Definition pupil_vision : Vision := stub_vision [pupil_contour] pupil_ellipse.
Definition blank_vision : Vision := stub_vision [] pupil_ellipse.

(** The state of the tracker before any detection, or after the pupil
    was detected in a 2 by 2 image. *)
Definition tracking (oc : option (R * R)) (or : option R) : Prop :=
  (oc = None /\ or = None)
  \/ (oc = Some (normalized_center pupil_ellipse (2, 2))
      /\ or = Some (max2 (ell_axes pupil_ellipse))).

(** Twenty frames with contrast, and 'q' pressed during the seventh. *)
Definition interrupted : @VideoCapture pupil_vision :=
  video pupil_vision 20 (replicate 20 textured) (Some 6).

(** Five frames declared, two delivered, both without contrast. *)
Definition short_video : @VideoCapture blank_vision :=
  video blank_vision 5 [flat; flat] None.

(** One frame whose contrast lies in its corner. *)
Definition corner_video : @VideoCapture blank_vision :=
  video blank_vision 1 [mostly_flat] None.

(** The configuration with the speed threshold 0. *)
Definition config_still : Params := <["speed_threshold" := 0%R]> config.

Definition still_thresholds : Thresholds :=
  {| ratio_thres := 1.5; area_threshold := 0.1; error_threshold := 0.1;
     min_contour := 2; margin := 0.1; speed_thres := 0; dr_thres := 0.1 |}%R.

(** The configuration without the option ratio_threshold. *)
Definition config_unrated : Params := delete "ratio_threshold" config.

(** The services that find a single contour, of one point. *)
Definition speck_vision : Vision := stub_vision [[(1, 1)]] pupil_ellipse.

(** One frame with contrast in which only the speck is found. *)
Definition speck_video : @VideoCapture speck_vision :=
  video speck_vision 1 [textured] None.

(** A frame without contrast, then a frame with contrast. *)
Definition two_frames : @VideoCapture pupil_vision :=
  video pupil_vision 2 [flat; textured] None.

(** Two frames with contrast. *)
Definition pair_video : @VideoCapture pupil_vision :=
  video pupil_vision 2 [textured; textured] None.

(** Three frames of 4 by 4 pixels with the same contrast, and the
    region that covers them. *)
Definition scene_left : Image :=
  [[0; 2; 0; 2]; [0; 2; 0; 2]; [0; 2; 0; 2]; [0; 2; 0; 2]].
Definition scene_right : Image :=
  [[2; 0; 2; 0]; [2; 0; 2; 0]; [2; 0; 2; 0]; [2; 0; 2; 0]].
Definition scene_edge : Image :=
  [[0; 0; 2; 2]; [0; 0; 2; 2]; [0; 0; 2; 2]; [0; 0; 2; 2]].
Definition whole4 : ROI := ((0, 4), (0, 4)).

(** Two points of the circle of diameter 2 around (3, 3), and two of the
    circle of diameter 2 around the corner (0, 0) of the image. *)
Definition far_contour : Contour := [(4, 3); (3, 4)].
Definition far_ellipse : Ellipse := ((3, 3), (2, 2), 0)%R.
Definition edge_contour : Contour := [(1, 0); (0, 1)].
Definition edge_ellipse : Ellipse := ((0, 0), (2, 2), 0)%R.

(** The services of a scene: the pupil is found around (1, 1) in
    [scene_left] and around (3, 3) in [scene_right]; in any other image
    only the contour at the corner is found. *)
Definition scene_vision : Vision :=
  {| Frame := Image;
     cvtColor := fun frame => frame;
     GaussianBlur := fun img => img;
     percentile := fun _ _ => 0%R;
     threshold := fun img _ => img;
     findContours := fun img =>
       match img with
       | (0 :: 2 :: _) :: _ => [pupil_contour]
       | (2 :: _) :: _ => [far_contour]
       | _ => [edge_contour]
       end;
     fitEllipse := fun cnt =>
       match cnt with
       | (2, 1) :: _ => Some pupil_ellipse
       | (4, 3) :: _ => Some far_ellipse
       | _ => Some edge_ellipse
       end |}.

(** The pupil at the left, lost for one frame, then found at the right;
    and the same without the frame in between. *)
Definition regained_video : @VideoCapture scene_vision :=
  video scene_vision 3 [scene_left; scene_edge; scene_right] None.
Definition jump_video : @VideoCapture scene_vision :=
  video scene_vision 2 [scene_left; scene_right] None.

(** The variables of the loop after the pupil was detected in
    [scene_left], the first frame. *)
Definition after_left : Loop :=
  {| traces := [detection whole4 pupil_contour pupil_ellipse 1 (np_std scene_left)];
     fr_count := 1;
     old_center := Some (normalized_center pupil_ellipse (4, 4));
     old_r := Some (max2 (ell_axes pupil_ellipse)) |}.

(** The C library at the arguments the example needs: the angle is 0,
    where cos(-0) = 1 and sin(-0) = -0, and [x ** 2] is the correctly
    rounded square of [x]; [goodness_of_fit64_ring] holds for every
    library with these three properties. *)
Definition libm_plain : Libm :=
  {| libm_cos := fun _ => Z_to_f64 1;
     libm_sin := fun x => x;
     libm_pow := fun x _ => PrimFloat.mul x x |}.

(** Five points of the circle of radius 13 around (0, 0), which is the
    only conic through them, and that circle as a rotated rectangle, in
    real numbers and in doubles. *)
Definition ring_contour : Contour := [(13, 0); (0, 13); (-13, 0); (0, -13); (5, 12)].
Definition ring_ellipse : Ellipse := ((0, 0), (26, 26), 0)%R.
Definition ring_ellipse64 : Ellipse64 :=
  ((Z_to_f64 0, Z_to_f64 0), (Z_to_f64 26, Z_to_f64 26), Z_to_f64 0).

(** ** [ts2sec]

    Timestamps are counts of the 10 MHz clock, integers, and seconds
    are real numbers. [ts.astype(float)] holds a count in a double,
    which is exact up to 2^53 ([exact_stamps]); the properties of the
    loop and of the seconds are stated for stamps in that range, where
    the additions of the loop, the signs of the steps and the order of
    the quotients are those of the integers. *)

(** [2 ** 32], the period of the counter, and [2 ** 31 - 1], the stamp
    of a bad camera frame. *)
Definition WRAP : Z := 2 ^ 32.
Definition BAD_TS : Z := 2 ^ 31 - 1.

(** [np.diff] *)
Definition np_diff (l : list Z) : list Z := zip_with Z.sub (tail l) l.
Definition np_diffR (l : list R) : list R := zip_with Rminus (tail l) l.

(** [np.where(cond)[0]]: the positions where [cond] holds, in order. *)
Fixpoint where_from {A : Type} (i : nat) (cond : A -> bool) (l : list A) : list nat :=
  match l with
  | [] => []
  | x :: l => if cond x then i :: where_from (S i) cond l else where_from (S i) cond l
  end.

Definition np_where {A : Type} (cond : A -> bool) (l : list A) : list nat :=
  where_from 0 cond l.

(** [ts[k:] += c] *)
Definition add_from (k : nat) (c : Z) (ts : list Z) : list Z :=
  take k ts ++ map (fun t => t + c) (drop k ts).

(** [bad_idx.sum()] *)
Definition count_true (l : list bool) : Z :=
  foldr (fun b n => b2z b + n) 0 l.

(** The loop that removes the wraparound (lines 69-72):
    [while not len(wrap_idx) == 0: ts[wrap_idx[0] + 1:] += 2 ** 32]. *)
Fixpoint remove_wraparound (fuel : nat) (ts : list Z) : option (list Z) :=
  match np_where (fun d => d <? 0) (np_diff ts) with
  | [] => Some ts
  | i :: _ =>
      match fuel with
      | O => None
      | S fuel => remove_wraparound fuel (add_from (i + 1) WRAP ts)
      end
  end.

(** The periods that a step [d] between two neighbours lacks to be
    nonnegative, and their sum over an array: the fuel of the loop. *)
Definition turns (d : Z) : nat :=
  if d <? 0 then Z.to_nat ((- d + WRAP - 1) / WRAP) else 0%nat.

Definition wraps (ts : list Z) : nat :=
  foldr (fun d n => (turns d + n)%nat) 0%nat (np_diff ts).

(** Stamps that doubles hold exactly while the loop runs: counts that
    are not negative and do not pass 2^53 when all the periods the
    array lacks are added. *)
Definition exact_stamps (ts : list Z) : Prop :=
  Forall (fun t => 0 <= t /\ t + WRAP * Z.of_nat (wraps ts) <= 2 ^ 53) ts.

Inductive ts_exn : Type :=
| BadCameraTs (msg : string)
| DiffsIndexError
| PacketAssertionError.

Inductive ts_outcome : Type :=
| Seconds (s : list R) (bad_idx : list bool)
| TsRaises (e : ts_exn)
| TsHangs.

Section Ts2sec.
(** [iu_spline(x, y, k=1)], evaluated at a point. *)
Variable iu_spline : list R -> list R -> R -> R.

(** [ts2sec] (lines 46-87). The statements after the [raise] of line 62
    are never run, so a bad stamp is flagged and never replaced. The
    division by [samplingrate] is that of NumPy, which does not raise;
    it is written as the division of real numbers, which stands for
    that of doubles as long as the rate is not 0 and the quotients of
    different stamps stay apart. *)
Definition ts2sec (ts : list Z) (packet_length : Z) (samplingrate : R) : ts_outcome :=
  let bad_idx := map (fun t => t =? BAD_TS) ts in
  if 10 <? count_true bad_idx then TsRaises (BadCameraTs "Bad camera ts...") else
  match remove_wraparound (wraps ts) ts with
  | None => TsHangs
  | Some ts =>
      let s := map (fun t => (IZR t / samplingrate)%R) ts in
      if existsb (fun d => bool_decide (d <= 0)%R) (np_diffR s) then
        let diffs := np_where (fun d => bool_decide (d > 0)%R) (np_diffR s) in
        match diffs with
        | [] => TsRaises DiffsIndexError
        | first :: _ =>
            if packet_length =? Z.of_nat first + 1 then
              let not_zero := 0%nat :: map S diffs in
              let f := iu_spline (map INR not_zero)
                                 (map (fun i => nth i s 0%R) not_zero) in
              Seconds (map (fun i => f (INR i)) (seq 0 (length s))) bad_idx
            else TsRaises PacketAssertionError
        end
      else Seconds s bad_idx
  end.
End Ts2sec.

(** The first step of the loop, by recursion on the array: the array
    after [2 ** 32] was added behind its first descent, if it has one. *)
Fixpoint bump (ts : list Z) : option (list Z) :=
  match ts with
  | [] => None
  | x :: tl =>
      match tl with
      | [] => None
      | y :: _ =>
          if y - x <? 0 then Some (x :: map (fun t => t + WRAP) tl)
          else cons x <$> bump tl
      end
  end.

(** The array without wraparound, in closed form: the first stamp is
    kept and every later stamp is raised by the periods its step lacks. *)
Fixpoint unwrapped (ts : list Z) : list Z :=
  match ts with
  | [] => []
  | x :: tl =>
      match tl with
      | [] => [x]
      | y :: _ =>
          x :: map (fun t => t + WRAP * Z.of_nat (turns (y - x))) (unwrapped tl)
      end
  end.

(** ** [CVROIGrabber]

    Mouse positions are the integer pixel positions (x, y) that OpenCV
    hands to the callback. *)

(** The region of lines 120-122: [x.min(axis=0)] and [x.max(axis=0)] of
    the two positions, stacked to [tmp] = (xmin, ymin, xmax, ymax), then
    [[[tmp[1], tmp[3]], [tmp[0], tmp[2]]] + 1]. *)
Definition roi_of (start end_ : Z * Z) : ROI :=
  let lo := (Z.min (fst start) (fst end_), Z.min (snd start) (snd end_)) in
  let hi := (Z.max (fst start) (fst end_), Z.max (snd start) (snd end_)) in
  let tmp := (fst lo, snd lo, fst hi, snd hi) in
  let '(tmp0, tmp1, tmp2, tmp3) := tmp in
  ((tmp1 + 1, tmp3 + 1), (tmp0 + 1, tmp2 + 1)).

(** The attributes of the grabber. *)
Record Grabber : Type := {
  g_start : option (Z * Z);
  g_end : option (Z * Z);
  g_roi : option ROI;
  g_exit : bool
}.

(** [CVROIGrabber(img)]: the class attributes are [None]. *)
Definition grabber_init : Grabber :=
  {| g_start := None; g_end := None; g_roi := None; g_exit := false |}.

Inductive mouse_event : Type :=
| EVENT_LBUTTONDOWN
| EVENT_LBUTTONUP
| EVENT_OTHER.

(** [__call__] (lines 112-130) on the image [img], with the key that
    [cv2.waitKey(0)] returns after the crop is shown: the grabber after
    the call, and whether the call raised [ValueError] (from
    [np.vstack] when no start was recorded, from [crop.max()] when the
    crop is empty). *)
Definition grabber_call (img : Image) (g : Grabber) (event : mouse_event)
    (x y : Z) (key : Z) : Grabber * bool :=
  match event with
  | EVENT_LBUTTONDOWN =>
      ({| g_start := Some (x, y); g_end := g_end g; g_roi := g_roi g;
          g_exit := g_exit g |}, false)
  | EVENT_LBUTTONUP =>
      let g1 := {| g_start := g_start g; g_end := Some (x, y); g_roi := g_roi g;
                   g_exit := g_exit g |} in
      match g_start g with
      | None => (g1, true)
      | Some start =>
          let roi := roi_of start (x, y) in
          let crop_img := crop roi img in
          match concat crop_img with
          | [] => (g1, true)
          | _ :: _ =>
              ({| g_start := g_start g; g_end := Some (x, y); g_roi := Some roi;
                  g_exit := if Z.land key 255 =? 113 then true else g_exit g |},
               false)
          end
      end
  | EVENT_OTHER => (g, false)
  end.

(** [img[i, j]], when the image has such a sample. *)
Definition sample (img : list (list Z)) (i j : nat) : option Z :=
  match img !! i with
  | Some row => row !! j
  | None => None
  end.

(** An image of [rows] rows of [cols] samples. *)
Definition rectangular (img : Image) (rows cols : Z) : Prop :=
  Z.of_nat (length img) = rows
  /\ Forall (fun row => Z.of_nat (length row) = cols) img.

(** The record [r] is the one of the read that followed [k] others: it
    bears the number k + 1, it holds nothing else when the read
    delivered no frame, and the deviation of the whole gray frame
    otherwise. *)
Definition record_of `{Vision} (cap : VideoCapture) (k : Z) (r : FrameRecord) : Prop :=
  frame_id r = k + 1
  /\ match read cap k with
     | None => r = Unread (k + 1)
     | Some frame =>
         match r with
         | Unread _ => False
         | Failure _ intensity | Detection _ _ _ _ _ intensity =>
             intensity = np_std (cvtColor frame)
         end
     end.

(** * Properties *)

(** ** The goodness of fit *)

Section GoodnessOfFitFacts.
#[local] Open Scope R_scope.

Lemma fold_left_Rsum {A : Type} (f : A -> R) (l : list A) (a : R) :
  fold_left (fun acc x => acc + f x) l a = a + Rsum (map f l).
Proof.
  revert a. induction l as [|x l IH]; intros a; simpl.
  - lra.
  - rewrite IH. lra.
Qed.

Lemma goodness_of_fit_long (p q : Z * Z) (rest : Contour) (ellipse : Ellipse) :
  goodness_of_fit (p :: q :: rest) ellipse = Ok (spec_rmse (p :: q :: rest) ellipse).
Proof.
  destruct ellipse as [[center [a b]] angle].
  unfold goodness_of_fit, spec_rmse.
  rewrite fold_left_Rsum, Rplus_0_l.
  reflexivity.
Qed.

Lemma on_boundary_residual (center : R * R) (a b angle : R) (p : Z * Z) :
  a <> 0 -> b <> 0 ->
  on_boundary (center, (a, b), angle) p ->
  implicit_equation a b (rotated_point center (angle * (PI / 180)) p) = 0.
Proof.
  intros Ha Hb. unfold on_boundary, implicit_equation.
  set (q := rotated_point center (angle * (PI / 180)) p).
  intros Hq.
  replace ((fst q / a) ^ 2 + (snd q / b) ^ 2)
    with (((fst q / (a / 2)) ^ 2 + (snd q / (b / 2)) ^ 2) / 4) by (field; split; assumption).
  rewrite Hq. lra.
Qed.

Lemma Rsum_zero {A : Type} (f : A -> R) (l : list A) :
  Forall (fun x => f x = 0) l -> Rsum (map f l) = 0.
Proof.
  induction 1 as [|x l Hx _ IH]; simpl.
  - reflexivity.
  - rewrite Hx, IH. lra.
Qed.

Lemma goodness_of_fit_on_boundary (p q : Z * Z) (rest : Contour)
    (center : R * R) (a b angle : R) :
  a <> 0 -> b <> 0 ->
  Forall (on_boundary (center, (a, b), angle)) (p :: q :: rest) ->
  goodness_of_fit (p :: q :: rest) (center, (a, b), angle) = Ok 0.
Proof.
  intros Ha Hb Hon. rewrite goodness_of_fit_long. f_equal.
  unfold spec_rmse.
  rewrite (Rsum_zero
    (fun p => implicit_equation a b (rotated_point center (angle * (PI / 180)) p) ^ 2)).
  - unfold Rdiv. rewrite Rmult_0_l. apply sqrt_0.
  - eapply Forall_impl; [exact Hon|].
    intros x Hx. cbn beta. rewrite (on_boundary_residual center a b angle x Ha Hb Hx). lra.
Qed.
End GoodnessOfFitFacts.

Section Binary64Facts.
Context `{Libm}.

Lemma fold_left_sum64 {A : Type} (f : A -> PrimFloat.float) (l : list A)
    (a : PrimFloat.float) :
  fold_left (fun acc x => PrimFloat.add acc (f x)) l a
  = fold_left PrimFloat.add (map f l) a.
Proof.
  revert a. induction l as [|x l IH]; intros a; cbn; [reflexivity|apply IH].
Qed.

Lemma goodness_of_fit64_long (p q : Z * Z) (rest : Contour) (ellipse : Ellipse64) :
  goodness_of_fit64 (p :: q :: rest) ellipse
  = Ok (spec_rmse64 (p :: q :: rest) ellipse).
Proof.
  destruct ellipse as [[center [a b]] angle].
  unfold goodness_of_fit64, spec_rmse64, sum64.
  rewrite fold_left_sum64. reflexivity.
Qed.
End Binary64Facts.

(** The value on the five points of the circle of radius 13, for every
    C library that has cos(-0) = 1 and sin(-0) = -0, as IEEE 754 asks,
    and whose [x ** 2] is the correctly rounded square. *)
Section RingValue.
Import PrimFloat.
#[local] Open Scope float_scope.
Context `{Libm}.
Hypothesis Hcos : libm_cos (-0) = 1.
Hypothesis Hsin : libm_sin (-0) = -0.
Hypothesis Hpow : forall x : float, libm_pow x 2 = x * x.

Lemma goodness_of_fit64_ring :
  goodness_of_fit64 ring_contour ring_ellipse64 = Ok 0x1.c9f25c5bfedd9p-56.
Proof.
  assert (- (Z_to_f64 0 * (np_pi / 180)) = -0) as Hangle by (vm_compute; reflexivity).
  unfold goodness_of_fit64, ring_ellipse64, ring_contour, fit_residual2_64.
  cbn [fold_left fst snd]. rewrite Hangle, Hcos, Hsin, !Hpow.
  vm_compute. reflexivity.
Qed.
End RingValue.

Lemma ring_on_boundary : Forall (on_boundary ring_ellipse) ring_contour.
Proof.
  repeat constructor; unfold on_boundary, rotated_point; cbn;
    rewrite Rmult_0_l, Ropp_0, cos_0, sin_0; lra.
Qed.




(** ** The choice among scored candidates *)

Section Selection.
Context `{Vision}.

Lemma passes_iff (th : Thresholds) (s : Scored) :
  passes th s <->
  ((sc_ratio s <= ratio_thres th)%R
   /\ (sc_area s >= area_threshold th)%R
   /\ (sc_rmse s < error_threshold th)%R
   /\ (margin th < fst (sc_center s) /\ fst (sc_center s) < 1 - margin th)%R
   /\ (margin th < snd (sc_center s) /\ snd (sc_center s) < 1 - margin th)%R
   /\ (sc_dx s < speed_thres th)%R
   /\ (sc_dr s < dr_thres th)%R).
Proof.
  unfold passes, matching_conditions, criteria. cbn [foldr].
  repeat case_bool_decide; cbn [b2z]; split; intros Hp; try lia; tauto.
Qed.

Lemma select_snoc (th : Thresholds) (l : list Scored) (s : Scored) (acc : Scan) :
  select th (l ++ [s]) acc = choose th s (select th l acc).
Proof. unfold select. rewrite foldl_app. reflexivity. Qed.

Lemma record_scored_conditions (th : Thresholds) (s : Scored) (r : gmap string cell) :
  record_scored th s r !! "conditions" = Some (Scalar (matching_conditions th s)).
Proof. unfold record_scored. apply lookup_insert_eq. Qed.

Lemma choose_results (th : Thresholds) (s : Scored) (acc : Scan) :
  results (choose th s acc) = record_scored th s (results acc).
Proof. unfold choose. destruct (_ && _); reflexivity. Qed.

Lemma select_correct (th : Thresholds) (l : list Scored) :
  select_post th l (select th l scan_init).
Proof.
  induction l as [|s l IH] using rev_ind.
  - cbn. split; [reflexivity|]. intros s Hs. inversion Hs.
  - rewrite select_snoc. revert IH.
    generalize (select th l scan_init) as acc. intros acc IH.
    unfold select_post, choose in *.
    destruct (below (sc_rmse s) (err acc) && bool_decide (matching_conditions th s = 7))
      eqn:Hsel; cbn [best err].
    + apply andb_prop in Hsel as [Hlow Hpass].
      apply bool_decide_eq_true_1 in Hpass.
      exists (length l), s. split; [|auto].
      split; [apply list_lookup_middle; reflexivity|].
      split; [exact Hpass|].
      intros j s' Hj Hs'.
      destruct (decide (j < length l)%nat) as [Hlt|Hge].
      * rewrite lookup_app_l in Hj by exact Hlt.
        destruct (best acc) as [[c e]|].
        -- destruct IH as (i & b & (Hi & Hb & Hmin) & _ & _ & Herr).
           rewrite Herr in Hlow. cbn in Hlow. apply bool_decide_eq_true_1 in Hlow.
           destruct (Hmin j s' Hj Hs') as [Hle _].
           split; [|intros _]; lra.
        -- destruct IH as [_ Hnone]. exfalso. apply (Hnone s'); [|exact Hs'].
           apply list_elem_of_lookup. eauto.
      * assert (j = length l) as ->.
        { apply lookup_lt_Some in Hj. rewrite length_app in Hj. cbn in Hj. lia. }
        rewrite list_lookup_middle in Hj by reflexivity. injection Hj as <-.
        split; [lra|lia].
    + destruct (best acc) as [[c e]|].
      * destruct IH as (i & b & (Hi & Hb & Hmin) & Hc & He & Herr).
        exists i, b. split; [|auto].
        split; [apply lookup_app_l_Some; exact Hi|].
        split; [exact Hb|].
        intros j s' Hj Hs'.
        destruct (decide (j < length l)%nat) as [Hlt|Hge].
        -- rewrite lookup_app_l in Hj by exact Hlt. apply Hmin; assumption.
        -- assert (j = length l) as ->.
           { apply lookup_lt_Some in Hj. rewrite length_app in Hj. cbn in Hj. lia. }
           rewrite list_lookup_middle in Hj by reflexivity. injection Hj as <-.
           apply lookup_lt_Some in Hi.
           rewrite Herr in Hsel. cbn in Hsel.
           rewrite (bool_decide_eq_true_2 _ Hs'), andb_true_r in Hsel.
           apply bool_decide_eq_false_1 in Hsel.
           split; [lra|lia].
      * destruct IH as [Herr Hnone]. split; [exact Herr|].
        intros s' Hs' Hpass. apply elem_of_app in Hs' as [Hs'|Hs'].
        -- exact (Hnone s' Hs' Hpass).
        -- apply list_elem_of_singleton in Hs' as ->.
           rewrite Herr in Hsel. cbn in Hsel.
           apply bool_decide_eq_false_1 in Hsel. exact (Hsel Hpass).
Qed.

Lemma select_conditions (th : Thresholds) (l : list Scored) :
  results (select th l scan_init) !! "conditions" = None <-> l = [].
Proof.
  destruct l as [|s l] using rev_ind.
  - cbn. split; [reflexivity|]. intros _. apply lookup_empty.
  - rewrite select_snoc, choose_results, record_scored_conditions.
    split; [discriminate|]. intros Hnil. destruct l; discriminate.
Qed.
End Selection.

(** ** [get_pupil_from_contours] as scoring followed by the choice *)

Section ScanFacts.
Context `{Vision}.

Lemma score_scored (th : Thresholds) (small_shape : Z * Z)
    (oc : option (R * R)) (or : option R) (cnt : Contour)
    (ellipse : Ellipse) (curr_err dr : R) :
  ~ (INR (length cnt) < min_contour th)%R ->
  fitEllipse cnt = Some ellipse ->
  min2 (ell_axes ellipse) <> 0%R ->
  goodness_of_fit cnt ellipse = Ok curr_err ->
  fst small_shape <> 0 -> snd small_shape <> 0 ->
  dr_of (max2 (ell_axes ellipse)) or = Ok dr ->
  score th small_shape oc or cnt
  = Ok (Some (candidate small_shape oc cnt ellipse curr_err dr)).
Proof.
  intros Hlen Hfit Hmin Hgof Hrows Hcols Hdr. unfold score.
  rewrite bool_decide_eq_false_2 by exact Hlen. rewrite Hfit.
  destruct ellipse as [[xy axes] angle]. cbn in Hmin, Hdr.
  rewrite decide_False by exact Hmin. rewrite Hgof. cbn.
  rewrite !decide_False by assumption. rewrite Hdr. reflexivity.
Qed.

Lemma score_inv (th : Thresholds) (small_shape : Z * Z)
    (oc : option (R * R)) (or : option R) (cnt : Contour) (s : Scored) :
  score th small_shape oc or cnt = Ok (Some s) ->
  exists (ellipse : Ellipse) (curr_err dr : R),
    fitEllipse cnt = Some ellipse
    /\ goodness_of_fit cnt ellipse = Ok curr_err
    /\ dr_of (max2 (ell_axes ellipse)) or = Ok dr
    /\ s = candidate small_shape oc cnt ellipse curr_err dr.
Proof.
  unfold score. case_bool_decide; [discriminate|].
  destruct (fitEllipse cnt) as [[[xy axes] angle]|]; [|discriminate].
  destruct (decide _); [discriminate|].
  destruct (goodness_of_fit cnt (xy, axes, angle)) as [curr|] eqn:Hg; cbn;
    [|discriminate].
  repeat (destruct (decide _); [discriminate|]).
  destruct (dr_of (max2 axes) or) as [dr|] eqn:Hdr; cbn; [|discriminate].
  intros [= <-]. exists (xy, axes, angle), curr, dr. auto.
Qed.

Lemma scored_candidates_inv (th : Thresholds) (small_shape : Z * Z)
    (oc : option (R * R)) (or : option R) (contours : list Contour)
    (l : list Scored) (s : Scored) :
  scored_candidates th small_shape oc or contours = Ok l ->
  s ∈ l ->
  exists cnt : Contour,
    cnt ∈ contours /\ score th small_shape oc or cnt = Ok (Some s).
Proof.
  revert l. induction contours as [|cnt contours IH]; intros l; cbn [scored_candidates].
  - intros [= <-] Hs. inversion Hs.
  - destruct (score th small_shape oc or cnt) as [o|] eqn:Hsc; cbn; [|discriminate].
    destruct (scored_candidates th small_shape oc or contours) as [l'|]; cbn;
      [|discriminate].
    intros [= <-] Hs.
    assert (s ∈ l' -> exists cnt0, cnt0 ∈ cnt :: contours
              /\ score th small_shape oc or cnt0 = Ok (Some s)) as Hrest.
    { intros Hin. destruct (IH l' eq_refl Hin) as (c & Hc & Hsc').
      exists c. split; [right; exact Hc|exact Hsc']. }
    destruct o as [s0|]; [|exact (Hrest Hs)].
    apply elem_of_cons in Hs as [->|Hs]; [|exact (Hrest Hs)].
    exists cnt. split; [left|exact Hsc].
Qed.

Lemma scan_select (th : Thresholds) (small_shape : Z * Z)
    (oc : option (R * R)) (or : option R) (contours : list Contour) (acc : Scan) :
  scan th small_shape oc or contours acc
  = (l ← scored_candidates th small_shape oc or contours; Ok (select th l acc)).
Proof.
  revert acc. induction contours as [|cnt contours IH]; intros acc.
  - reflexivity.
  - cbn [scan scored_candidates].
    destruct (score th small_shape oc or cnt) as [o|e]; cbn; [|reflexivity].
    rewrite IH.
    destruct (scored_candidates th small_shape oc or contours) as [l|e]; cbn;
      [|reflexivity].
    destruct o; reflexivity.
Qed.

Lemma get_pupil_from_contours_select (params : Params) (th : Thresholds)
    (contours : list Contour) (small_gray : Image)
    (oc : option (R * R)) (or : option R) (l : list Scored) :
  read_thresholds params = Ok th ->
  scored_candidates th (shape small_gray) oc or contours = Ok l ->
  get_pupil_from_contours params contours small_gray oc or
  = match best (select th l scan_init) with
    | Some b => Ok (Some b)
    | None => match l with
              | [] => Raise (KeyError "conditions")
              | _ :: _ => Ok None
              end
    end.
Proof.
  intros Hth Hl. unfold get_pupil_from_contours.
  rewrite Hth. cbn. rewrite scan_select, Hl. cbn.
  destruct (best (select th l scan_init)) as [b|] eqn:Hb; [reflexivity|].
  unfold getitem.
  destruct (results (select th l scan_init) !! "conditions") as [c|] eqn:Hc.
  - destruct l; [|reflexivity].
    rewrite (proj2 (select_conditions th []) eq_refl) in Hc. discriminate.
  - apply select_conditions in Hc. subst l. reflexivity.
Qed.

Lemma get_pupil_from_contours_params (params : Params) (e : exn)
    (contours : list Contour) (small_gray : Image)
    (oc : option (R * R)) (or : option R) :
  read_thresholds params = Raise e ->
  get_pupil_from_contours params contours small_gray oc or = Raise e.
Proof. intros Hth. unfold get_pupil_from_contours. rewrite Hth. reflexivity. Qed.
Lemma best_selection (th : Thresholds) (l : list Scored) :
  selection th l (best (select th l scan_init)).
Proof.
  pose proof (select_correct th l) as Hpost. unfold select_post in Hpost.
  unfold selection. destruct (best (select th l scan_init)) as [[c e]|].
  - destruct Hpost as (i & s & Hfirst & Hc & He & _). eauto.
  - apply Hpost.
Qed.

(** With at least one candidate scored, the function returns, and
    returns the selection. *)
Lemma get_pupil_from_contours_selects (params : Params) (th : Thresholds)
    (contours : list Contour) (small_gray : Image)
    (oc : option (R * R)) (or : option R) (l : list Scored) :
  read_thresholds params = Ok th ->
  scored_candidates th (shape small_gray) oc or contours = Ok l ->
  l <> [] ->
  exists found : option (Contour * Ellipse),
    get_pupil_from_contours params contours small_gray oc or = Ok found
    /\ selection th l found.
Proof.
  intros Hth Hl Hne.
  rewrite (get_pupil_from_contours_select params th contours small_gray oc or l Hth Hl).
  pose proof (best_selection th l) as Hsel.
  destruct (best (select th l scan_init)) as [b|].
  - exists (Some b). auto.
  - destruct l; [contradiction|]. exists None. auto.
Qed.

(** With no candidate scored, it raises. *)
Lemma get_pupil_from_contours_none (params : Params) (th : Thresholds)
    (contours : list Contour) (small_gray : Image)
    (oc : option (R * R)) (or : option R) :
  read_thresholds params = Ok th ->
  scored_candidates th (shape small_gray) oc or contours = Ok [] ->
  get_pupil_from_contours params contours small_gray oc or
  = Raise (KeyError "conditions").
Proof.
  intros Hth Hl.
  rewrite (get_pupil_from_contours_select params th contours small_gray oc or [] Hth Hl).
  reflexivity.
Qed.

(** Whatever it returns is the selection among the candidates scored. *)
Lemma get_pupil_from_contours_inv (params : Params)
    (contours : list Contour) (small_gray : Image)
    (oc : option (R * R)) (or : option R) (found : option (Contour * Ellipse)) :
  get_pupil_from_contours params contours small_gray oc or = Ok found ->
  exists (th : Thresholds) (l : list Scored),
    read_thresholds params = Ok th
    /\ scored_candidates th (shape small_gray) oc or contours = Ok l
    /\ l <> [] /\ selection th l found.
Proof.
  intros Hget.
  destruct (read_thresholds params) as [th|e] eqn:Hth;
    [|rewrite (get_pupil_from_contours_params params e) in Hget by exact Hth;
      discriminate].
  destruct (scored_candidates th (shape small_gray) oc or contours) as [l|e] eqn:Hl.
  - exists th, l. split; [reflexivity|]. split; [exact Hl|].
    rewrite (get_pupil_from_contours_select params th contours small_gray oc or l Hth Hl)
      in Hget.
    pose proof (best_selection th l) as Hsel.
    destruct (best (select th l scan_init)) as [b|].
    + injection Hget as <-. split; [|exact Hsel].
      intros ->. destruct b as [c e]. destruct Hsel as (i & s & (Hi & _) & _).
      inversion Hi.
    + destruct l; [discriminate|]. injection Hget as <-. split; [discriminate|exact Hsel].
  - unfold get_pupil_from_contours in Hget. rewrite Hth in Hget. cbn in Hget.
    rewrite scan_select, Hl in Hget. discriminate.
Qed.

End ScanFacts.

(** ** One iteration of the loop of [track] *)

Section IterationFacts.
Context `{Vision}.
Variables (params : Params) (lv : Levels) (cap : VideoCapture) (eye_roi : ROI).

Lemma getitem_crash {V : Type} (d : gmap string V) (key : string) (e : exn) :
  getitem d key = Raise e -> crash e.
Proof. unfold getitem. destruct (d !! key); [discriminate|]. intros [= <-]. exact I. Qed.

Lemma read_thresholds_crash (e : exn) :
  read_thresholds params = Raise e -> crash e.
Proof.
  unfold read_thresholds.
  repeat match goal with
  | |- context [getitem params ?k] =>
      let E := fresh "E" in
      destruct (getitem params k) eqn:E; cbn;
      [|intros [= <-]; exact (getitem_crash _ _ _ E)]
  end.
  discriminate.
Qed.

Lemma score_crash (th : Thresholds) (small_shape : Z * Z)
    (oc : option (R * R)) (or : option R) (cnt : Contour) (e : exn) :
  score th small_shape oc or cnt = Raise e -> crash e.
Proof.
  unfold score. case_bool_decide; [discriminate|].
  destruct (fitEllipse cnt) as [[[xy axes] angle]|]; [|intros [= <-]; exact I].
  destruct (decide _); [discriminate|].
  destruct (goodness_of_fit cnt (xy, axes, angle)) as [curr|e'] eqn:Hg; cbn.
  - repeat (destruct (decide _); [intros [= <-]; exact I|]).
    unfold dr_of. destruct or as [o|]; cbn; [|discriminate].
    destruct (decide _); cbn; [intros [= <-]; exact I|discriminate].
  - intros [= <-]. unfold goodness_of_fit in Hg.
    destruct cnt as [|p [|q rest]]; inversion Hg; exact I.
Qed.

Lemma scan_crash (th : Thresholds) (small_shape : Z * Z)
    (oc : option (R * R)) (or : option R) (contours : list Contour)
    (acc : Scan) (e : exn) :
  scan th small_shape oc or contours acc = Raise e -> crash e.
Proof.
  revert acc. induction contours as [|cnt contours IH]; intros acc; cbn [scan].
  - discriminate.
  - destruct (score th small_shape oc or cnt) as [o|e'] eqn:Hs; cbn.
    + apply IH.
    + intros [= <-]. exact (score_crash _ _ _ _ _ _ Hs).
Qed.

Lemma get_pupil_from_contours_crash (contours : list Contour) (small_gray : Image)
    (oc : option (R * R)) (or : option R) (e : exn) :
  get_pupil_from_contours params contours small_gray oc or = Raise e -> crash e.
Proof.
  unfold get_pupil_from_contours.
  destruct (read_thresholds params) as [th|e'] eqn:Hth; cbn;
    [|intros [= <-]; exact (read_thresholds_crash _ Hth)].
  destruct (scan th (shape small_gray) oc or contours scan_init) as [acc|e'] eqn:Hsc; cbn;
    [|intros [= <-]; exact (scan_crash _ _ _ _ _ _ _ Hsc)].
  destruct (best acc); [discriminate|].
  destruct (getitem (results acc) "conditions") eqn:Hc; cbn; [discriminate|].
  intros [= <-]. exact (getitem_crash _ _ _ Hc).
Qed.

Lemma find_contours_crash (small_gray : Image) (e : exn) :
  find_contours lv small_gray = Raise e -> crash e.
Proof.
  unfold find_contours, blurred, blend, np_percentile.
  destruct (concat small_gray); cbn; [intros [= <-]; exact I|].
  destruct (decide (0 <= p_high lv /\ p_high lv <= 100)%R); cbn;
    [|intros [= <-]; exact I].
  destruct (decide (0 <= p_low lv /\ p_low lv <= 100)%R); cbn;
    [discriminate|intros [= <-]; exact I].
Qed.

(** What an iteration finds in a frame with contrast: the contours of
    the cropped image, handed to the detector. *)
Lemma found_crash (small_gray : Image) (oc : option (R * R)) (or : option R) (e : exn) :
  (contours ← find_contours lv small_gray;
   get_pupil_from_contours params contours small_gray oc or) = Raise e ->
  crash e.
Proof.
  destruct (find_contours lv small_gray) as [contours|e'] eqn:Hfind; cbn.
  - apply get_pupil_from_contours_crash.
  - intros [= <-]. exact (find_contours_crash _ _ Hfind).
Qed.

Lemma frame_id_detection (contour : Contour) (ellipse : Ellipse) (n : Z) (std : R) :
  frame_id (detection eye_roi contour ellipse n std) = n.
Proof.
  destruct ellipse as [[xy axes] angle], eye_roi as [[r0 r1] [c0 c1]]. reflexivity.
Qed.

Lemma track_iter_Stop (st st' : Loop) :
  track_iter params lv cap eye_roi st = Stop st' ->
  st' = st /\ (isOpened cap (fr_count st) = false \/ frame_count cap <= fr_count st).
Proof.
  unfold track_iter.
  destruct (isOpened cap (fr_count st)); cbn [negb]; [|intros [= <-]; auto].
  case_bool_decide; [intros [= <-]; split; [reflexivity|right; lia]|].
  destruct (read cap (fr_count st)); [|discriminate].
  case_bool_decide; [discriminate|].
  destruct (mbind _ _); [|discriminate].
  destruct (quit_key _); discriminate.
Qed.

Lemma track_iter_Next (st st' : Loop) :
  track_iter params lv cap eye_roi st = Next st' ->
  fr_count st < frame_count cap /\ isOpened cap (fr_count st) = true
  /\ fr_count st' = fr_count st + 1
  /\ exists r : FrameRecord,
       traces st' = traces st ++ [r] /\ frame_id r = fr_count st + 1.
Proof.
  unfold track_iter.
  destruct (isOpened cap (fr_count st)); cbn [negb]; [|discriminate].
  case_bool_decide; [discriminate|].
  assert (fr_count st < frame_count cap) by lia.
  destruct (read cap (fr_count st)); [|intros [= <-]; cbn; eauto 10].
  case_bool_decide; [intros [= <-]; cbn; eauto 10|].
  destruct (mbind _ _) as [[[c e]|]|]; [| |discriminate];
    destruct (quit_key _); try discriminate; intros [= <-]; cbn;
    eauto 10 using frame_id_detection.
Qed.

Lemma track_iter_Throw (st st' : Loop) (e : exn) :
  track_iter params lv cap eye_roi st = Throw e st' ->
  fr_count st < frame_count cap /\ fr_count st' = fr_count st + 1
  /\ ((crash e /\ traces st' = traces st)
      \/ (e = aborted /\ quit_key (waitKey cap (fr_count st)) = true
          /\ exists r : FrameRecord,
               traces st' = traces st ++ [r] /\ frame_id r = fr_count st + 1)).
Proof.
  unfold track_iter.
  destruct (isOpened cap (fr_count st)); cbn [negb]; [|discriminate].
  case_bool_decide; [discriminate|].
  assert (fr_count st < frame_count cap) by lia.
  destruct (read cap (fr_count st)); [|discriminate].
  case_bool_decide; [discriminate|].
  destruct (mbind _ _) as [[[c e']|]|e'] eqn:Hg.
  - destruct (quit_key _) eqn:Hq; [|discriminate]. intros [= <- <-]. cbn.
    split; [assumption|]. split; [reflexivity|]. right.
    eauto 10 using frame_id_detection.
  - destruct (quit_key _) eqn:Hq; [|discriminate]. intros [= <- <-]. cbn.
    split; [assumption|]. split; [reflexivity|]. right. eauto 10.
  - intros [= <- <-]. cbn.
    split; [assumption|]. split; [reflexivity|]. left.
    split; [exact (found_crash _ _ _ _ Hg)|reflexivity].
Qed.
End IterationFacts.

(** ** The loop of [track] *)

Section LoopFacts.
Context `{Vision}.
Variables (params : Params) (lv : Levels) (cap : VideoCapture) (eye_roi : ROI).

Lemma seqZ_snoc (k : Z) : 0 <= k -> seqZ 1 (k + 1) = seqZ 1 k ++ [k + 1].
Proof.
  intros Hk. rewrite (seqZ_app 1 k 1); [|exact Hk|lia]. f_equal.
  replace (1 + k) with (k + 1) by lia. reflexivity.
Qed.

Lemma consistent_init : consistent loop_init.
Proof. split; [reflexivity|]. cbn. lia. Qed.

Lemma consistent_append (st st' : Loop) (r : FrameRecord) :
  consistent st ->
  fr_count st' = fr_count st + 1 ->
  traces st' = traces st ++ [r] ->
  frame_id r = fr_count st + 1 ->
  consistent st'.
Proof.
  intros [Hids Hpos] Hcount Htr Hid. split; [|lia].
  unfold frame_ids in *. rewrite Htr, map_app, Hids, Hcount. cbn [map].
  rewrite Hid, seqZ_snoc by exact Hpos. reflexivity.
Qed.

Lemma track_loop_post (fuel : nat) (st : Loop) (e : ending) (st' : Loop) :
  consistent st ->
  track_loop fuel params lv cap eye_roi st = (e, st') ->
  fr_count st <= fr_count st' <= Z.max (fr_count st) (frame_count cap)
  /\ ending_post cap st e st'
  /\ (e = Exhausted -> fr_count st' = fr_count st + Z.of_nat fuel).
Proof.
  revert st. induction fuel as [|fuel IH]; intros st Hst; cbn [track_loop].
  - intros [= <- <-]. cbn. split; [lia|]. split; [exact Hst|]. intros _. lia.
  - destruct (track_iter params lv cap eye_roi st) as [st1|st1|e1 st1] eqn:Hit.
    + apply track_iter_Next in Hit as (Hlt & _ & Hcount & r & Htr & Hid).
      intros Hloop.
      apply IH in Hloop as (Hrange & Hpost & Hfuel);
        [|exact (consistent_append st st1 r Hst Hcount Htr Hid)].
      split; [lia|]. split.
      * destruct e as [|e|]; cbn in *; [exact Hpost| |exact Hpost].
        destruct Hpost as [Hlt' Hcases]. split; [lia|exact Hcases].
      * intros He. rewrite (Hfuel He). lia.
    + apply track_iter_Stop in Hit as [-> Hwhy].
      intros [= <- <-]. split; [lia|]. split; [|discriminate].
      cbn. split; [exact Hst|exact Hwhy].
    + apply track_iter_Throw in Hit as (Hlt & Hcount & Hcases).
      intros [= <- <-]. split; [lia|]. split; [|discriminate].
      cbn. split; [lia|].
      destruct Hcases as [[Hcr Htr]|(-> & Hq & r & Htr & Hid)].
      * left. split; [exact Hcr|]. rewrite Htr, Hcount.
        replace (fr_count st + 1 - 1) with (fr_count st) by lia. apply Hst.
      * right. split; [reflexivity|].
        split; [exact (consistent_append st st1 r Hst Hcount Htr Hid)|].
        rewrite Hcount. replace (fr_count st + 1 - 1) with (fr_count st) by lia.
        exact Hq.
Qed.

(** The fuel [track_run] gives the loop is never used up. *)
Lemma track_loop_total (st' : Loop) :
  track_loop (S (Z.to_nat (frame_count cap))) params lv cap eye_roi loop_init
  <> (Exhausted, st').
Proof.
  intros Hloop.
  apply track_loop_post in Hloop as (Hrange & _ & Hfuel); [|exact consistent_init].
  specialize (Hfuel eq_refl). cbn [fr_count loop_init] in *. lia.
Qed.
End LoopFacts.

(** ** The run of [track] *)

Section RunFacts.
Context `{Vision}.
Variables (params : Params) (cap : VideoCapture) (eye_roi : ROI).

Lemma read_levels_crash (e : exn) :
  read_levels params = Raise e -> crash e.
Proof.
  unfold read_levels.
  repeat match goal with
  | |- context [getitem params ?k] =>
      let E := fresh "E" in
      destruct (getitem params k) eqn:E; cbn;
      [|intros [= <-]; exact (getitem_crash _ _ _ E)]
  end.
  discriminate.
Qed.

(** A run that got past the options of [track]. *)
Lemma track_run_post (lv : Levels) (e : ending) (st : Loop) :
  read_levels params = Ok lv ->
  track_run params cap eye_roi = (e, st) ->
  e <> Exhausted
  /\ 0 <= fr_count st <= Z.max 0 (frame_count cap)
  /\ ending_post cap loop_init e st.
Proof.
  intros Hlv. unfold track_run. rewrite Hlv. intros Hloop.
  split.
  - intros ->. exact (track_loop_total params lv cap eye_roi st Hloop).
  - apply track_loop_post in Hloop as (Hrange & Hpost & _); [|exact consistent_init].
    cbn [fr_count loop_init] in Hrange. split; [lia|exact Hpost].
Qed.

(** A run that raises the abort has read its options and polled 'q'. *)
Lemma track_run_aborted (st : Loop) :
  track_run params cap eye_roi = (Raised aborted, st) ->
  consistent st /\ 0 < fr_count st
  /\ quit_key (waitKey cap (fr_count st - 1)) = true.
Proof.
  unfold track_run.
  destruct (read_levels params) as [lv0|e] eqn:Hlv.
  - intros Hloop.
    apply track_loop_post in Hloop as (_ & Hpost & _); [|exact consistent_init].
    cbn in Hpost. destruct Hpost as [Hpos [[[] _]|(_ & Hcons & Hq)]]. auto.
  - intros [= -> <-]. destruct (read_levels_crash _ Hlv).
Qed.
End RunFacts.

(** ** The paths through one iteration *)

Section Paths.
Context `{Vision}.
Variables (params : Params) (lv : Levels) (cap : VideoCapture) (eye_roi : ROI).

Lemma track_iter_closed (st : Loop) :
  isOpened cap (fr_count st) = false ->
  track_iter params lv cap eye_roi st = Stop st.
Proof. intros Hop. unfold track_iter. rewrite Hop. reflexivity. Qed.

Lemma track_iter_end (st : Loop) :
  frame_count cap <= fr_count st ->
  track_iter params lv cap eye_roi st = Stop st.
Proof.
  intros Hend. unfold track_iter.
  destruct (isOpened cap (fr_count st)); cbn [negb]; [|reflexivity].
  rewrite bool_decide_eq_true_2 by lia. reflexivity.
Qed.

Section Reading.
Variable st : Loop.
Hypothesis Hopen : isOpened cap (fr_count st) = true.
Hypothesis Hmore : fr_count st < frame_count cap.

Lemma track_iter_unread :
  read cap (fr_count st) = None ->
  track_iter params lv cap eye_roi st
  = Next (advance st (Unread (fr_count st + 1)) (old_center st) (old_r st)).
Proof.
  intros Hread. unfold track_iter.
  rewrite Hopen, Hread. cbn [negb].
  rewrite bool_decide_eq_false_2 by lia. reflexivity.
Qed.

Lemma track_iter_low_contrast (frame : Frame) :
  read cap (fr_count st) = Some frame ->
  (np_std (cvtColor frame) < contrast_low lv)%R ->
  track_iter params lv cap eye_roi st
  = Next (advance st (Failure (fr_count st + 1) (np_std (cvtColor frame)))
            (old_center st) (old_r st)).
Proof.
  intros Hread Hlow. unfold track_iter.
  rewrite Hopen, Hread. cbn [negb].
  rewrite bool_decide_eq_false_2 by lia.
  rewrite bool_decide_eq_true_2 by exact Hlow. reflexivity.
Qed.

(** The iteration of a frame with contrast, whatever is found in it. *)
Lemma track_iter_contrast (frame : Frame) :
  read cap (fr_count st) = Some frame ->
  ~ (np_std (cvtColor frame) < contrast_low lv)%R ->
  track_iter params lv cap eye_roi st
  = match contours ← contours_of lv eye_roi frame;
          get_pupil_from_contours params contours (small_gray_of eye_roi frame)
            (old_center st) (old_r st) with
    | Raise e =>
        Throw e {| traces := traces st; fr_count := fr_count st + 1;
                   old_center := old_center st; old_r := old_r st |}
    | Ok found =>
        if quit_key (waitKey cap (fr_count st))
        then Throw aborted (after_detector eye_roi st frame found)
        else Next (after_detector eye_roi st frame found)
    end.
Proof.
  intros Hread Hhigh. unfold track_iter.
  rewrite Hopen, Hread. cbn [negb].
  rewrite bool_decide_eq_false_2 by lia.
  rewrite bool_decide_eq_false_2 by exact Hhigh.
  unfold contours_of, small_gray_of.
  destruct (mbind _ _) as [[[contour [[xy axes] angle]]|]|e]; reflexivity.
Qed.

(** The contours cannot be had: smoothing or the threshold level raised. *)
Lemma track_iter_blind (frame : Frame) (e : exn) :
  read cap (fr_count st) = Some frame ->
  ~ (np_std (cvtColor frame) < contrast_low lv)%R ->
  contours_of lv eye_roi frame = Raise e ->
  track_iter params lv cap eye_roi st
  = Throw e {| traces := traces st; fr_count := fr_count st + 1;
               old_center := old_center st; old_r := old_r st |}.
Proof.
  intros Hread Hhigh Hfind.
  rewrite (track_iter_contrast frame Hread Hhigh), Hfind. reflexivity.
Qed.

Lemma track_iter_crash (frame : Frame) (contours : list Contour) (e : exn) :
  read cap (fr_count st) = Some frame ->
  ~ (np_std (cvtColor frame) < contrast_low lv)%R ->
  contours_of lv eye_roi frame = Ok contours ->
  get_pupil_from_contours params contours
    (small_gray_of eye_roi frame) (old_center st) (old_r st) = Raise e ->
  track_iter params lv cap eye_roi st
  = Throw e {| traces := traces st; fr_count := fr_count st + 1;
               old_center := old_center st; old_r := old_r st |}.
Proof.
  intros Hread Hhigh Hfind Hget.
  rewrite (track_iter_contrast frame Hread Hhigh), Hfind. cbn.
  rewrite Hget. reflexivity.
Qed.

Lemma track_iter_poll (frame : Frame) (contours : list Contour)
    (found : option (Contour * Ellipse)) :
  read cap (fr_count st) = Some frame ->
  ~ (np_std (cvtColor frame) < contrast_low lv)%R ->
  contours_of lv eye_roi frame = Ok contours ->
  get_pupil_from_contours params contours
    (small_gray_of eye_roi frame) (old_center st) (old_r st) = Ok found ->
  track_iter params lv cap eye_roi st
  = if quit_key (waitKey cap (fr_count st))
    then Throw aborted (after_detector eye_roi st frame found)
    else Next (after_detector eye_roi st frame found).
Proof.
  intros Hread Hhigh Hfind Hget.
  rewrite (track_iter_contrast frame Hread Hhigh), Hfind. cbn.
  rewrite Hget. reflexivity.
Qed.
End Reading.

Lemma track_loop_Next (fuel : nat) (st st' : Loop) :
  track_iter params lv cap eye_roi st = Next st' ->
  track_loop (S fuel) params lv cap eye_roi st
  = track_loop fuel params lv cap eye_roi st'.
Proof. intros Hit. cbn [track_loop]. rewrite Hit. reflexivity. Qed.

Lemma track_loop_Stop (fuel : nat) (st st' : Loop) :
  track_iter params lv cap eye_roi st = Stop st' ->
  track_loop (S fuel) params lv cap eye_roi st = (Returned, st').
Proof. intros Hit. cbn [track_loop]. rewrite Hit. reflexivity. Qed.

Lemma track_loop_Throw (fuel : nat) (st st' : Loop) (e : exn) :
  track_iter params lv cap eye_roi st = Throw e st' ->
  track_loop (S fuel) params lv cap eye_roi st = (Raised e, st').
Proof. intros Hit. cbn [track_loop]. rewrite Hit. reflexivity. Qed.

(** A stretch of iterations that all go on: when every state that
    satisfies [I] steps to a state that satisfies [I] as long as fewer
    than [m] frames were read, the loop reaches the read count [m]. *)
Lemma track_loop_steady (I : Loop -> Prop) (m : Z) :
  (forall st : Loop, I st -> 0 <= fr_count st < m ->
     exists st' : Loop, track_iter params lv cap eye_roi st = Next st' /\ I st') ->
  forall (n fuel : nat) (st : Loop),
    I st -> 0 <= fr_count st -> fr_count st + Z.of_nat n = m ->
    exists st' : Loop,
      I st' /\ fr_count st' = m
      /\ track_loop (n + fuel) params lv cap eye_roi st
         = track_loop fuel params lv cap eye_roi st'.
Proof.
  intros Hstep n fuel. induction n as [|n IH]; intros st HI Hpos Hm.
  - exists st. split; [exact HI|]. split; [lia|reflexivity].
  - destruct (Hstep st HI ltac:(lia)) as (st1 & Hit & HI1).
    pose proof (track_iter_Next params lv cap eye_roi st st1 Hit) as (_ & _ & Hcount & _).
    destruct (IH st1 HI1 ltac:(lia) ltac:(lia)) as (st' & HI' & Hm' & Hloop).
    exists st'. split; [exact HI'|]. split; [exact Hm'|].
    cbn [Nat.add]. rewrite (track_loop_Next (n + fuel) st st1) by exact Hit. exact Hloop.
Qed.

(** Every exception of a run is thrown by one of its iterations. *)
Lemma track_loop_Raised (fuel : nat) (st st' : Loop) (e : exn) :
  track_loop fuel params lv cap eye_roi st = (Raised e, st') ->
  exists st0 : Loop, track_iter params lv cap eye_roi st0 = Throw e st'.
Proof.
  revert st. induction fuel as [|fuel IH]; intros st; cbn [track_loop]; [discriminate|].
  destruct (track_iter params lv cap eye_roi st) as [st1|st1|e1 st1] eqn:Hit.
  - apply IH.
  - discriminate.
  - intros [= <- <-]. exists st. exact Hit.
Qed.
End Paths.

(** ** Evaluating the concrete inputs *)

Section Evaluation.
#[local] Open Scope R_scope.

Lemma read_levels_config : read_levels config = Ok config_levels.
Proof. reflexivity. Qed.

Lemma read_thresholds_config : read_thresholds config = Ok config_thresholds.
Proof. reflexivity. Qed.

Lemma np_std_flat : np_std flat = 0.
Proof.
  unfold np_std, np_mean, samples, flat. cbn.
  match goal with |- sqrt ?x = _ => replace x with 0 by lra end.
  apply sqrt_0.
Qed.

Lemma np_std_textured : np_std textured = 1.
Proof.
  unfold np_std, np_mean, samples, textured. cbn.
  match goal with |- sqrt ?x = _ => replace x with 1 by lra end.
  apply sqrt_1.
Qed.

Lemma np_std_mostly_flat : np_std mostly_flat = 0.5.
Proof.
  unfold np_std, np_mean, samples, mostly_flat. cbn.
  match goal with |- sqrt ?x = _ => replace x with (0.5 * 0.5) by lra end.
  apply sqrt_square. lra.
Qed.

Lemma crop_corner : crop corner mostly_flat = [[0; 2]]%Z.
Proof. reflexivity. Qed.

Lemma np_std_corner : np_std (crop corner mostly_flat) = 1.
Proof.
  rewrite crop_corner. unfold np_std, np_mean, samples. cbn.
  match goal with |- sqrt ?x = _ => replace x with 1 by lra end.
  apply sqrt_1.
Qed.

Lemma pupil_on_boundary (ellipse : Ellipse) :
  ellipse = pupil_ellipse ->
  Forall (on_boundary ellipse) pupil_contour.
Proof.
  intros ->. repeat constructor; unfold on_boundary, rotated_point; cbn;
    rewrite Rmult_0_l, Ropp_0, cos_0, sin_0; lra.
Qed.

Lemma goodness_of_fit_pupil : goodness_of_fit pupil_contour pupil_ellipse = Ok 0.
Proof.
  apply goodness_of_fit_on_boundary; [lra|lra|].
  apply pupil_on_boundary. reflexivity.
Qed.

Lemma max2_pupil : max2 (ell_axes pupil_ellipse) = 2.
Proof. unfold max2. cbn. apply Rmax_left. lra. Qed.

Lemma min2_pupil : min2 (ell_axes pupil_ellipse) = 2.
Proof. unfold min2. cbn. apply Rmin_left. lra. Qed.

Lemma dr_of_tracking (oc : option (R * R)) (or : option R) :
  tracking oc or ->
  exists dr : R, dr_of (max2 (ell_axes pupil_ellipse)) or = Ok dr /\ dr = 0.
Proof.
  intros [[_ ->]|[_ ->]]; cbn [dr_of].
  - exists 0. auto.
  - rewrite max2_pupil. rewrite decide_False by lra.
    eexists. split; [reflexivity|].
    replace (2 - 2) with 0 by lra. rewrite Rabs_R0. lra.
Qed.

Lemma dx_of_tracking (oc : option (R * R)) (or : option R) :
  tracking oc or ->
  dx_of (center_of (ell_center pupil_ellipse) (2, 2)%Z) oc = 0.
Proof.
  intros [[-> _]|[-> _]]; cbn [dx_of]; [reflexivity|].
  unfold normalized_center, center_of. cbn.
  match goal with |- sqrt ?x = _ => replace x with 0 by lra end.
  apply sqrt_0.
Qed.

Lemma passes_pupil (oc : option (R * R)) (or : option R) :
  tracking oc or ->
  passes config_thresholds (candidate (2, 2)%Z oc pupil_contour pupil_ellipse 0 0).
Proof.
  intros Htr. apply passes_iff. unfold candidate. cbn [sc_ratio sc_area sc_rmse
    sc_center sc_dx sc_dr].
  rewrite (dx_of_tracking oc or Htr).
  unfold ratio_of. rewrite max2_pupil, min2_pupil.
  unfold area_of, center_of. cbn. rewrite mult_IZR. lra.
Qed.

Lemma scored_candidates_pupil (th : Thresholds) (oc : option (R * R)) (or : option R) :
  min_contour th <= 2 ->
  tracking oc or ->
  @scored_candidates pupil_vision th (2, 2)%Z oc or [pupil_contour]
  = Ok [candidate (2, 2)%Z oc pupil_contour pupil_ellipse 0 0].
Proof.
  intros Hmin Htr. cbn [scored_candidates].
  destruct (dr_of_tracking oc or Htr) as (dr & Hdr & ->).
  rewrite (@score_scored pupil_vision th (2, 2)%Z oc or
             pupil_contour pupil_ellipse 0 0).
  - reflexivity.
  - cbn. lra.
  - reflexivity.
  - rewrite min2_pupil. lra.
  - exact goodness_of_fit_pupil.
  - discriminate.
  - discriminate.
  - exact Hdr.
Qed.

Lemma min_contour_config : min_contour config_thresholds <= 2.
Proof. cbn. lra. Qed.

Lemma get_pupil_pupil (oc : option (R * R)) (or : option R) :
  tracking oc or ->
  @get_pupil_from_contours pupil_vision config [pupil_contour] textured oc or
  = Ok (Some (pupil_contour, pupil_ellipse)).
Proof.
  intros Htr.
  rewrite (@get_pupil_from_contours_select pupil_vision config config_thresholds
             [pupil_contour] textured oc or _ read_thresholds_config
             (scored_candidates_pupil config_thresholds oc or min_contour_config Htr)).
  unfold select. cbn [foldl]. unfold choose. cbn [err scan_init below andb].
  rewrite bool_decide_eq_true_2 by exact (passes_pupil oc or Htr).
  reflexivity.
Qed.

(** With the speed threshold 0 the pupil that is found never passes. *)
Lemma read_thresholds_still : read_thresholds config_still = Ok still_thresholds.
Proof. reflexivity. Qed.

Lemma read_levels_still : read_levels config_still = Ok config_levels.
Proof. reflexivity. Qed.

Lemma not_passes_still (dr : R) :
  ~ passes still_thresholds (candidate (2, 2)%Z None pupil_contour pupil_ellipse 0 dr).
Proof.
  intros Hp. apply passes_iff in Hp. destruct Hp as (_ & _ & _ & _ & _ & Hdx & _).
  cbn in Hdx. lra.
Qed.

Lemma get_pupil_still :
  @get_pupil_from_contours pupil_vision config_still [pupil_contour] textured None None
  = Ok None.
Proof.
  assert (min_contour still_thresholds <= 2) as Hmin by (cbn; lra).
  rewrite (@get_pupil_from_contours_select pupil_vision config_still still_thresholds
             [pupil_contour] textured None None _ read_thresholds_still
             (scored_candidates_pupil still_thresholds None None Hmin
                (or_introl (conj eq_refl eq_refl)))).
  unfold select. cbn [foldl]. unfold choose. cbn [err scan_init below andb].
  rewrite bool_decide_eq_false_2 by exact (not_passes_still 0).
  reflexivity.
Qed.

(** Without the option ratio_threshold the detector raises on entry. *)
Lemma read_levels_unrated : read_levels config_unrated = Ok config_levels.
Proof. reflexivity. Qed.

Lemma read_thresholds_unrated :
  read_thresholds config_unrated = Raise (KeyError "ratio_threshold").
Proof. reflexivity. Qed.

(** The stand-in services hand out their contours for every cropped
    image that has pixels, the percentiles being in range. *)
Lemma contours_of_stub (found : list Contour) (fitted : Ellipse) (lv : Levels)
    (eye_roi : ROI) (frame : Image) :
  concat (crop eye_roi frame) <> [] ->
  0 <= p_high lv <= 100 -> 0 <= p_low lv <= 100 ->
  @contours_of (stub_vision found fitted) lv eye_roi frame = Ok found.
Proof.
  intros Hpixels Hhigh Hlow.
  unfold contours_of, small_gray_of, find_contours, blurred, blend, np_percentile.
  cbn [cvtColor stub_vision].
  destruct (concat (crop eye_roi frame)); [contradiction|]. cbn.
  rewrite !decide_True by assumption. reflexivity.
Qed.

Lemma contours_of_config (found : list Contour) (fitted : Ellipse) (frame : Image) :
  frame = textured \/ frame = flat ->
  @contours_of (stub_vision found fitted) config_levels whole frame = Ok found.
Proof.
  intros Hframe. apply contours_of_stub.
  - destruct Hframe as [-> | ->]; discriminate.
  - cbn. lra.
  - cbn. lra.
Qed.

Lemma flat_is_low : np_std flat < contrast_low config_levels.
Proof. rewrite np_std_flat. cbn. lra. Qed.

Lemma textured_is_not_low : ~ np_std textured < contrast_low config_levels.
Proof. rewrite np_std_textured. cbn. lra. Qed.

(** A contour of one point is shorter than the least length 2. *)
Lemma scored_candidates_speck (oc : option (R * R)) (or : option R) :
  @scored_candidates speck_vision config_thresholds (2, 2)%Z oc or [[(1, 1)%Z]]
  = Ok [].
Proof.
  cbn [scored_candidates]. unfold score.
  rewrite bool_decide_eq_true_2 by (cbn; lra). reflexivity.
Qed.
End Evaluation.

(** ** Concrete runs *)

Section Runs.
#[local] Open Scope R_scope.

Lemma quit_key_video (V : Vision) (declared : Z) (frames : list (@Frame V))
    (quit_after : option Z) (k : Z) :
  quit_key (waitKey (video V declared frames quit_after) k)
  = bool_decide (quit_after = Some k).
Proof.
  cbn. destruct (decide (quit_after = Some k)) as [Hq|Hq].
  - rewrite bool_decide_eq_true_2 by exact Hq. reflexivity.
  - rewrite bool_decide_eq_false_2 by exact Hq. reflexivity.
Qed.

Lemma read_textured (n : nat) (k : Z) :
  (0 <= k < Z.of_nat n)%Z ->
  replicate n textured !! Z.to_nat k = Some textured.
Proof. intros Hk. apply lookup_replicate_2. lia. Qed.

(** With the pupil found in every frame, an iteration on a frame with
    contrast records a detection and polls the keyboard. *)
Lemma pupil_step (declared : Z) (n : nat) (quit_after : option Z) (st : Loop) :
  tracking (old_center st) (old_r st) ->
  (0 <= fr_count st < declared)%Z -> (fr_count st < Z.of_nat n)%Z ->
  let cap := video pupil_vision declared (replicate n textured) quit_after in
  let st' := @after_detector pupil_vision whole st textured
               (Some (pupil_contour, pupil_ellipse)) in
  @track_iter pupil_vision config config_levels cap whole st
  = (if bool_decide (quit_after = Some (fr_count st))
     then Throw aborted st' else Next st')
  /\ tracking (old_center st') (old_r st').
Proof.
  intros Htr Hdecl Hn cap st'. split.
  - rewrite <- (quit_key_video pupil_vision declared (replicate n textured)).
    apply (@track_iter_poll pupil_vision config config_levels cap whole st)
      with (contours := [pupil_contour]).
    + reflexivity.
    + cbn. lia.
    + cbn. apply read_textured. lia.
    + cbn. rewrite np_std_textured. lra.
    + apply contours_of_config. left. reflexivity.
    + exact (get_pupil_pupil _ _ Htr).
  - right. split; reflexivity.
Qed.

(** The interrupted run: six detections, then the abort during the
    seventh iteration. *)
Lemma interrupted_run :
  exists st : Loop,
    @track_run pupil_vision config interrupted whole = (Raised aborted, st)
    /\ fr_count st = 7%Z.
Proof.
  unfold track_run. rewrite read_levels_config.
  change (S (Z.to_nat (frame_count interrupted))) with (6 + 15)%nat.
  destruct (@track_loop_steady pupil_vision config config_levels interrupted whole
              (fun st => tracking (old_center st) (old_r st)) 6%Z) with
    (n := 6%nat) (fuel := 15%nat) (st := loop_init) as (st6 & Htr & Hcount & Hloop).
  - intros st Htr Hk.
    destruct (pupil_step 20 20 (Some 6%Z) st Htr ltac:(lia) ltac:(lia)) as [Hit Htr'].
    rewrite bool_decide_eq_false_2 in Hit by (intros [= Heq]; lia).
    eexists. split; [exact Hit|exact Htr'].
  - left. split; reflexivity.
  - cbn. lia.
  - reflexivity.
  - rewrite Hloop.
    destruct (pupil_step 20 20 (Some 6%Z) st6 Htr ltac:(lia) ltac:(lia)) as [Hit _].
    rewrite bool_decide_eq_true_2 in Hit by (rewrite Hcount; reflexivity).
    eexists. split.
    + apply (@track_loop_Throw pupil_vision). exact Hit.
    + cbn. lia.
Qed.

(** The run of the short video: two low-contrast records, then one
    record for each frame that was declared and not delivered. *)
Lemma short_run :
  @track blank_vision config short_video whole
  = Returns [Failure 1 (np_std flat); Failure 2 (np_std flat);
             Unread 3; Unread 4; Unread 5].
Proof.
  unfold track, track_run. rewrite read_levels_config.
  change (S (Z.to_nat (frame_count short_video))) with 6%nat.
  do 2 (erewrite (@track_loop_Next blank_vision);
    [|eapply (@track_iter_low_contrast blank_vision);
      [reflexivity|cbn; lia|reflexivity|
       change (np_std flat < contrast_low config_levels);
       rewrite np_std_flat; cbn; lra]]).
  do 3 (erewrite (@track_loop_Next blank_vision);
    [|eapply (@track_iter_unread blank_vision);
      [reflexivity|cbn; lia|reflexivity]]).
  erewrite (@track_loop_Stop blank_vision);
    [|apply (@track_iter_end blank_vision); cbn; lia].
  reflexivity.
Qed.

(** The run without ratio_threshold: the first frame is recorded, the
    second one reaches the detector, which raises. *)
Lemma unrated_run :
  @track_run pupil_vision config_unrated two_frames whole
  = (Raised (KeyError "ratio_threshold"),
     {| traces := [Failure 1 (np_std flat)]; fr_count := 2;
        old_center := None; old_r := None |}).
Proof.
  unfold track_run. rewrite read_levels_unrated.
  change (S (Z.to_nat (frame_count two_frames))) with 3%nat.
  erewrite (@track_loop_Next pupil_vision);
    [|eapply (@track_iter_low_contrast pupil_vision);
      [reflexivity|cbn; lia|reflexivity|
       change (np_std flat < contrast_low config_levels);
       rewrite np_std_flat; cbn; lra]].
  erewrite (@track_loop_Throw pupil_vision);
    [|eapply (@track_iter_crash pupil_vision);
      [reflexivity|cbn; lia|reflexivity|
       change (~ np_std textured < contrast_low config_levels);
       rewrite np_std_textured; cbn; lra|
       apply contours_of_config; left; reflexivity|
       apply (@get_pupil_from_contours_params pupil_vision);
       exact read_thresholds_unrated]].
  reflexivity.
Qed.

(** The run in which no contour is long enough to be scored. *)
Lemma speck_run_state :
  @track_run speck_vision config speck_video whole
  = (Raised (KeyError "conditions"),
     {| traces := []; fr_count := 1; old_center := None; old_r := None |}).
Proof.
  unfold track_run. rewrite read_levels_config.
  change (S (Z.to_nat (frame_count speck_video))) with 2%nat.
  erewrite (@track_loop_Throw speck_vision);
    [|eapply (@track_iter_crash speck_vision);
      [reflexivity|cbn; lia|reflexivity|
       change (~ np_std textured < contrast_low config_levels);
       rewrite np_std_textured; cbn; lra|
       apply contours_of_config; left; reflexivity|
       apply (@get_pupil_from_contours_none speck_vision config config_thresholds);
       [exact read_thresholds_config|exact (scored_candidates_speck None None)]]].
  reflexivity.
Qed.

Lemma speck_run :
  @track speck_vision config speck_video whole = Raises (KeyError "conditions").
Proof. unfold track. rewrite speck_run_state. reflexivity. Qed.

(** The first iteration with the speed threshold 0: no detection. *)
Lemma still_step (st : Loop) :
  old_center st = None -> old_r st = None ->
  (0 <= fr_count st < 2)%Z ->
  @track_iter pupil_vision config_still config_levels pair_video whole st
  = Next (advance st (Failure (fr_count st + 1) (np_std textured)) None None).
Proof.
  intros Hoc Hor Hk.
  rewrite (@track_iter_poll pupil_vision config_still config_levels pair_video whole st
             eq_refl ltac:(cbn; lia) textured [pupil_contour] None).
  - unfold pair_video. rewrite quit_key_video. reflexivity.
  - cbn. destruct (Z.to_nat (fr_count st)) as [|[|n]] eqn:Hn; [reflexivity|reflexivity|lia].
  - change (~ np_std textured < contrast_low config_levels).
    rewrite np_std_textured. cbn. lra.
  - apply contours_of_config. left. reflexivity.
  - rewrite Hoc, Hor. exact get_pupil_still.
Qed.

Lemma still_run :
  @track pupil_vision config_still pair_video whole
  = Returns [Failure 1 (np_std textured); Failure 2 (np_std textured)].
Proof.
  unfold track, track_run. rewrite read_levels_still.
  change (S (Z.to_nat (frame_count pair_video))) with 3%nat.
  do 2 (erewrite (@track_loop_Next pupil_vision);
    [|apply still_step; [reflexivity|reflexivity|cbn; lia]]).
  erewrite (@track_loop_Stop pupil_vision);
    [|apply (@track_iter_end pupil_vision); cbn; lia].
  reflexivity.
Qed.
End Runs.

(** ** Cancellation *)

(** C2 (as amended). The keyboard is polled at the end of every iteration
    that ran the detector, and only there: an iteration whose read
    delivers no frame, or whose frame lacks contrast, goes on whatever
    the key. When the poll reads 'q' the loop ends at once by raising
    the exception "Tracking aborted", which no normal completion
    produces; the caller of [track] receives that exception and no
    trace, although the trace held one record per frame read when the
    exception was raised. *)
Theorem abort_raises_without_trace `{Vision} (params : Params) (cap : VideoCapture)
    (eye_roi : ROI) :
  (forall (lv : Levels) (st : Loop) (frame : Frame) (contours : list Contour)
          (found : option (Contour * Ellipse)),
     isOpened cap (fr_count st) = true -> fr_count st < frame_count cap ->
     read cap (fr_count st) = Some frame ->
     ~ (np_std (cvtColor frame) < contrast_low lv)%R ->
     contours_of lv eye_roi frame = Ok contours ->
     get_pupil_from_contours params contours
       (small_gray_of eye_roi frame) (old_center st) (old_r st) = Ok found ->
     quit_key (waitKey cap (fr_count st)) = true ->
     forall fuel : nat,
       track_loop (S fuel) params lv cap eye_roi st
       = (Raised aborted, after_detector eye_roi st frame found))
  /\ (forall (lv : Levels) (st : Loop),
        isOpened cap (fr_count st) = true -> fr_count st < frame_count cap ->
        (read cap (fr_count st) = None
         \/ exists frame : Frame,
              read cap (fr_count st) = Some frame
              /\ (np_std (cvtColor frame) < contrast_low lv)%R) ->
        exists st' : Loop, track_iter params lv cap eye_roi st = Next st')
  /\ (forall st : Loop,
        track_run params cap eye_roi = (Raised aborted, st) ->
        track params cap eye_roi = Raises aborted
        /\ (forall tr : list FrameRecord, track params cap eye_roi <> Returns tr)
        /\ consistent st /\ 0 < fr_count st
        /\ quit_key (waitKey cap (fr_count st - 1)) = true).
Proof.
  split; [|split].
  - intros lv st frame contours found Hopen Hmore Hread Hhigh Hfind Hget Hq fuel.
    apply track_loop_Throw.
    rewrite (track_iter_poll params lv cap eye_roi st Hopen Hmore frame contours found
               Hread Hhigh Hfind Hget).
    rewrite Hq. reflexivity.
  - intros lv st Hopen Hmore [Hread|(frame & Hread & Hlow)].
    + eexists. apply track_iter_unread; assumption.
    + eexists. apply (track_iter_low_contrast params lv cap eye_roi st Hopen Hmore frame);
        assumption.
  - intros st Hrun.
    assert (track params cap eye_roi = Raises aborted) as Htrack
      by (unfold track; rewrite Hrun; reflexivity).
    split; [exact Htrack|]. split; [rewrite Htrack; discriminate|].
    exact (track_run_aborted params cap eye_roi st Hrun).
Qed.

(** 'q' during the seventh of twenty frames. *)
Lemma abort_raises_without_trace_witness :
  @track pupil_vision config interrupted whole = Raises aborted
  /\ consistent (snd (@track_run pupil_vision config interrupted whole)).
Proof.
  destruct interrupted_run as (st & Hrun & Hcount).
  destruct (@abort_raises_without_trace pupil_vision config interrupted whole)
    as (_ & _ & Hdrop).
  destruct (Hdrop st Hrun) as (Htrack & _ & Hcons & _).
  split; [exact Htrack|]. rewrite Hrun. exact Hcons.
Defined.

(** C2 as stated fails: of the run cancelled during the seventh of
    twenty frames the caller gets the exception and not the seven
    records accumulated. *)
Lemma abort_returns_no_trace :
  @track pupil_vision config interrupted whole = Raises aborted
  /\ (forall tr : list FrameRecord,
        @track pupil_vision config interrupted whole <> Returns tr)
  /\ frame_ids (traces (snd (@track_run pupil_vision config interrupted whole)))
     = [1; 2; 3; 4; 5; 6; 7].
Proof.
  destruct interrupted_run as (st & Hrun & Hcount).
  destruct (track_run_aborted config interrupted whole st Hrun) as ([Hids _] & _).
  assert (@track pupil_vision config interrupted whole = Raises aborted) as Htrack
    by (unfold track; rewrite Hrun; reflexivity).
  split; [exact Htrack|]. split; [rewrite Htrack; discriminate|].
  rewrite Hrun. cbn [snd]. rewrite Hids, Hcount. reflexivity.
Qed.

(** ** Order and completeness of the trace *)

(** The run of [track] always ends. Whatever its ending, the trace it
    has built holds the records of frames 1 to k, in this order, for
    some k that is at most the declared frame count N. A trace that is
    returned has k = N, or the loop ended early because the capture was
    no longer opened. Every iteration that goes on to the next, and the
    iteration that is cancelled, appended exactly one record, numbered
    with the frame just read. *)
Lemma track_numbers_its_trace `{Vision} (params : Params) (cap : VideoCapture)
    (eye_roi : ROI) :
  track params cap eye_roi <> Hangs
  /\ (exists k : Z,
        0 <= k <= Z.max 0 (frame_count cap)
        /\ frame_ids (traces (snd (track_run params cap eye_roi))) = seqZ 1 k)
  /\ (forall tr : list FrameRecord,
        track params cap eye_roi = Returns tr ->
        exists k : Z,
          frame_ids tr = seqZ 1 k
          /\ 0 <= k <= Z.max 0 (frame_count cap)
          /\ (k = Z.max 0 (frame_count cap) \/ isOpened cap k = false))
  /\ (forall (lv : Levels) (st st' : Loop),
        (track_iter params lv cap eye_roi st = Next st'
         \/ track_iter params lv cap eye_roi st = Throw aborted st') ->
        fr_count st' = fr_count st + 1
        /\ exists r : FrameRecord,
             traces st' = traces st ++ [r] /\ frame_id r = fr_count st + 1).
Proof.
  destruct (track_run params cap eye_roi) as [e st] eqn:Hrun.
  assert (track params cap eye_roi
          = match e with
            | Returned => Returns (traces st)
            | Raised e => Raises e
            | Exhausted => Hangs
            end) as Htrack by (unfold track; rewrite Hrun; reflexivity).
  destruct (read_levels params) as [lv|e0] eqn:Hlv.
  - destruct (track_run_post params cap eye_roi lv e st Hlv Hrun) as (Hend & Hrange & Hpost).
    split; [|split; [|split]].
    + rewrite Htrack. destruct e; [discriminate|discriminate|contradiction].
    + cbn [snd]. destruct e as [|e|]; cbn in Hpost.
      * exists (fr_count st). split; [exact Hrange|apply Hpost].
      * destruct Hpost as [Hpos [[_ Hids]|(_ & Hcons & _)]].
        -- exists (fr_count st - 1). cbn in Hpos. split; [lia|exact Hids].
        -- exists (fr_count st). split; [exact Hrange|apply Hcons].
      * contradiction.
    + intros tr. rewrite Htrack. destruct e as [|e|]; try discriminate.
      intros [= <-]. cbn in Hpost. destruct Hpost as [[Hids _] Hwhy].
      exists (fr_count st). split; [exact Hids|]. split; [exact Hrange|].
      destruct Hwhy as [Hclosed|Hdone]; [right; exact Hclosed|left; lia].
    + intros lv0 st0 st0' [Hit|Hit].
      * apply track_iter_Next in Hit as (_ & _ & Hcount & Hrec). auto.
      * apply track_iter_Throw in Hit as (_ & Hcount & [[[] _]|(_ & _ & Hrec)]). auto.
  - unfold track_run in Hrun. rewrite Hlv in Hrun. injection Hrun as <- <-.
    split; [|split; [|split]].
    + rewrite Htrack. discriminate.
    + exists 0. cbn. split; [lia|reflexivity].
    + intros tr. rewrite Htrack. discriminate.
    + intros lv0 st0 st0' [Hit|Hit].
      * apply track_iter_Next in Hit as (_ & _ & Hcount & Hrec). auto.
      * apply track_iter_Throw in Hit as (_ & Hcount & [[[] _]|(_ & _ & Hrec)]). auto.
Qed.

(** C9 (the code departs from it). The iteration of a frame in which
    no contour is long enough to be scored is an iteration without a
    detection, and it appends no record: the frame is read and counted,
    its contours are found, none of them is scored, and the detector
    raises on the empty table, which ends the run with an empty trace.
    On the other paths (a frame that is not read, a frame without
    contrast, a frame whose scored candidates all fail, a detection) the
    iteration appends its one record ([track_iter_unread],
    [track_iter_low_contrast], [track_iter_poll]), and the numbering
    holds on every run ([track_numbers_its_trace]). *)
Theorem frame_without_candidate_leaves_no_record :
  read speck_video 0 = Some textured
  /\ ~ (np_std textured < contrast_low config_levels)%R
  /\ @contours_of speck_vision config_levels whole textured = Ok [[(1, 1)]]
  /\ @scored_candidates speck_vision config_thresholds (2, 2) None None [[(1, 1)]]
     = Ok []
  /\ @track_run speck_vision config speck_video whole
     = (Raised (KeyError "conditions"),
        {| traces := []; fr_count := 1; old_center := None; old_r := None |})
  /\ @track speck_vision config speck_video whole = Raises (KeyError "conditions").
Proof.
  split; [reflexivity|]. split; [exact textured_is_not_low|].
  split; [apply contours_of_config; left; reflexivity|].
  split; [exact (scored_candidates_speck None None)|].
  split; [exact speck_run_state|exact speck_run].
Qed.

(** ** A source that runs dry *)

(** C4 (as amended). A read that delivers no frame before the declared
    frame count is reached, as every read does once the source is
    exhausted, makes the iteration append a record that holds only the
    frame number, and the loop goes on with the tracker state untouched.
    The loop stops short of the declared count only when the capture
    reports that it is not opened: when it stays opened, a trace that is
    returned holds one record for each declared frame. *)
Theorem unread_frames_are_recorded `{Vision} (params : Params) (cap : VideoCapture)
    (eye_roi : ROI) :
  (forall (lv : Levels) (st : Loop),
     isOpened cap (fr_count st) = true -> fr_count st < frame_count cap ->
     read cap (fr_count st) = None ->
     track_iter params lv cap eye_roi st
     = Next (advance st (Unread (fr_count st + 1)) (old_center st) (old_r st)))
  /\ (forall tr : list FrameRecord,
        track params cap eye_roi = Returns tr ->
        (forall k : Z, 0 <= k < frame_count cap -> isOpened cap k = true) ->
        frame_ids tr = seqZ 1 (Z.max 0 (frame_count cap))).
Proof.
  split.
  - intros lv st Hopen Hmore Hread. apply track_iter_unread; assumption.
  - intros tr Htrack Hopen.
    unfold track in Htrack.
    destruct (track_run params cap eye_roi) as [e st] eqn:Hrun.
    destruct e as [|e|]; try discriminate. injection Htrack as <-.
    destruct (read_levels params) as [lv|e0] eqn:Hlv.
    + destruct (track_run_post params cap eye_roi lv Returned st Hlv Hrun)
        as (_ & Hrange & [Hids _] & Hwhy).
      rewrite Hids. f_equal.
      destruct Hwhy as [Hclosed|Hdone]; [|lia].
      destruct (decide (fr_count st < frame_count cap)) as [Hlt|Hge]; [|lia].
      rewrite Hopen in Hclosed by lia. discriminate.
    + unfold track_run in Hrun. rewrite Hlv in Hrun. discriminate.
Qed.

(** The short video stays opened: five records for two frames. *)
Lemma unread_frames_are_recorded_witness :
  frame_ids [Failure 1 (np_std flat); Failure 2 (np_std flat);
             Unread 3; Unread 4; Unread 5] = seqZ 1 5.
Proof.
  destruct (@unread_frames_are_recorded blank_vision config short_video whole)
    as [_ Hret].
  apply (Hret _ short_run). intros k Hk. reflexivity.
Defined.

(** C4 as stated fails: five frames are declared, the source delivers
    two, and the trace is padded with the records of frames 3, 4, 5. *)
Lemma exhausted_source_is_padded :
  read short_video 2 = None
  /\ @track blank_vision config short_video whole
     = Returns [Failure 1 (np_std flat); Failure 2 (np_std flat);
                Unread 3; Unread 4; Unread 5].
Proof. split; [reflexivity|exact short_run]. Qed.

(** ** The contrast check *)

(** C5 (as amended). For every frame that is read, the check that
    decides whether the detector is skipped compares the standard
    deviation of the whole gray frame, not of the sub-image cropped to
    the region of interest, with the contrast floor: below the floor the
    iteration appends the record of the frame number and of that
    whole-frame deviation and leaves the tracker state alone, whatever
    the region; otherwise the contours of the cropped image are taken
    and the detector runs on them. *)
Theorem contrast_check_on_whole_frame `{Vision} (params : Params) (lv : Levels)
    (cap : VideoCapture) (st : Loop) (frame : Frame) :
  isOpened cap (fr_count st) = true -> fr_count st < frame_count cap ->
  read cap (fr_count st) = Some frame ->
  ((np_std (cvtColor frame) < contrast_low lv)%R ->
   forall eye_roi : ROI,
     track_iter params lv cap eye_roi st
     = Next (advance st (Failure (fr_count st + 1) (np_std (cvtColor frame)))
               (old_center st) (old_r st)))
  /\ (~ (np_std (cvtColor frame) < contrast_low lv)%R ->
      forall eye_roi : ROI,
        track_iter params lv cap eye_roi st
        = match contours ← contours_of lv eye_roi frame;
                get_pupil_from_contours params contours
                  (small_gray_of eye_roi frame) (old_center st) (old_r st) with
          | Raise e =>
              Throw e {| traces := traces st; fr_count := fr_count st + 1;
                         old_center := old_center st; old_r := old_r st |}
          | Ok found =>
              if quit_key (waitKey cap (fr_count st))
              then Throw aborted (after_detector eye_roi st frame found)
              else Next (after_detector eye_roi st frame found)
          end).
Proof.
  intros Hopen Hmore Hread. split.
  - intros Hlow eye_roi.
    exact (track_iter_low_contrast params lv cap eye_roi st Hopen Hmore frame Hread Hlow).
  - intros Hhigh eye_roi.
    exact (track_iter_contrast params lv cap eye_roi st Hopen Hmore frame Hread Hhigh).
Qed.

Lemma mostly_flat_is_low : (np_std mostly_flat < contrast_low config_levels)%R.
Proof. rewrite np_std_mostly_flat. cbn. lra. Qed.

Lemma corner_is_not_low :
  ~ (np_std (crop corner mostly_flat) < contrast_low config_levels)%R.
Proof. rewrite np_std_corner. cbn. lra. Qed.

(** The frame whose contrast lies in its corner, tracked on that corner. *)
Lemma contrast_check_on_whole_frame_witness :
  @track_iter blank_vision config config_levels corner_video corner loop_init
  = Next (advance loop_init (Failure 1 (np_std mostly_flat)) None None).
Proof.
  destruct (@contrast_check_on_whole_frame blank_vision config config_levels
              corner_video loop_init mostly_flat) as [Hlow _].
  - reflexivity.
  - cbn. lia.
  - reflexivity.
  - exact (Hlow mostly_flat_is_low corner).
Defined.

(** C5 as stated fails: the sub-image has the deviation 1, above the
    floor 0.75, and still the detector is skipped (it would raise, as no
    contour is found) and the failure record is emitted, with the
    deviation 0.5 of the whole frame. *)
Lemma contrast_check_ignores_roi :
  ~ (np_std (crop corner mostly_flat) < contrast_low config_levels)%R
  /\ np_std (crop corner mostly_flat) = 1%R
  /\ np_std mostly_flat = 0.5%R
  /\ @track blank_vision config corner_video corner
     = Returns [Failure 1 (np_std mostly_flat)].
Proof.
  split; [exact corner_is_not_low|]. split; [exact np_std_corner|].
  split; [exact np_std_mostly_flat|].
  unfold track, track_run. rewrite read_levels_config.
  change (S (Z.to_nat (frame_count corner_video))) with 2%nat.
  erewrite (@track_loop_Next blank_vision);
    [|eapply (@track_iter_low_contrast blank_vision);
      [reflexivity|cbn; lia|reflexivity|exact mostly_flat_is_low]].
  erewrite (@track_loop_Stop blank_vision);
    [|apply (@track_iter_end blank_vision); cbn; lia].
  reflexivity.
Qed.

(** ** Missing options *)

Section MissingOption.
Context `{Vision}.
Variables (params : Params) (lv : Levels) (cap : VideoCapture) (eye_roi : ROI).
Variable e : exn.
Hypothesis Hth : read_thresholds params = Raise e.

(** Without an option of the detector, the iteration of a frame with
    contrast never gets past the detector. *)
Lemma track_iter_unconfigured (st : Loop) (frame : Frame) :
  isOpened cap (fr_count st) = true -> fr_count st < frame_count cap ->
  read cap (fr_count st) = Some frame ->
  ~ (np_std (cvtColor frame) < contrast_low lv)%R ->
  track_iter params lv cap eye_roi st
  = Throw (match contours_of lv eye_roi frame with
           | Ok _ => e
           | Raise e' => e'
           end)
          {| traces := traces st; fr_count := fr_count st + 1;
             old_center := old_center st; old_r := old_r st |}.
Proof.
  intros Hopen Hmore Hread Hhigh.
  rewrite (track_iter_contrast params lv cap eye_roi st Hopen Hmore frame Hread Hhigh).
  destruct (contours_of lv eye_roi frame) as [contours|e']; cbn; [|reflexivity].
  rewrite (get_pupil_from_contours_params params e) by exact Hth. reflexivity.
Qed.

Lemma track_iter_Throw_detector (e' : exn) (st st' : Loop) :
  track_iter params lv cap eye_roi st = Throw e' st' ->
  fr_count st' = fr_count st + 1 /\ traces st' = traces st
  /\ exists frame : Frame,
       read cap (fr_count st) = Some frame
       /\ ~ (np_std (cvtColor frame) < contrast_low lv)%R
       /\ e' = match contours_of lv eye_roi frame with
               | Ok _ => e
               | Raise e'' => e''
               end.
Proof.
  intros Hit.
  destruct (isOpened cap (fr_count st)) eqn:Hopen;
    [|rewrite track_iter_closed in Hit by exact Hopen; discriminate].
  destruct (decide (fr_count st < frame_count cap)) as [Hmore|Hend];
    [|rewrite track_iter_end in Hit by lia; discriminate].
  destruct (read cap (fr_count st)) as [frame|] eqn:Hread;
    [|rewrite (track_iter_unread params lv cap eye_roi st Hopen Hmore Hread) in Hit;
      discriminate].
  destruct (decide (np_std (cvtColor frame) < contrast_low lv)%R) as [Hlow|Hhigh];
    [rewrite (track_iter_low_contrast params lv cap eye_roi st Hopen Hmore frame
                Hread Hlow) in Hit; discriminate|].
  rewrite (track_iter_unconfigured st frame Hopen Hmore Hread Hhigh) in Hit.
  injection Hit as <- <-. cbn. eauto 10.
Qed.

(** When the frames before the read [k] do not reach the detector,
    being not delivered or lacking contrast, the loop gets to that
    read with one record for each of them. *)
Lemma track_loop_skipped (k : Z) (fuel : nat) :
  0 <= k <= frame_count cap ->
  (forall j : Z, 0 <= j < k -> isOpened cap j = true) ->
  (forall j : Z, 0 <= j < k ->
     match read cap j with
     | None => True
     | Some frame => (np_std (cvtColor frame) < contrast_low lv)%R
     end) ->
  exists st : Loop,
    consistent st /\ fr_count st = k
    /\ track_loop (Z.to_nat k + fuel) params lv cap eye_roi loop_init
       = track_loop fuel params lv cap eye_roi st.
Proof.
  intros Hk Hopen Hskip.
  destruct (track_loop_steady params lv cap eye_roi consistent k) with
    (n := Z.to_nat k) (fuel := fuel) (st := loop_init) as (st & Hcons & Hcount & Hloop).
  - intros st Hcons Hrange. specialize (Hskip (fr_count st) Hrange).
    assert (exists st' : Loop, track_iter params lv cap eye_roi st = Next st')
      as [st' Hit].
    { destruct (read cap (fr_count st)) as [frame|] eqn:Hread.
      - eexists.
        apply (track_iter_low_contrast params lv cap eye_roi st) with (frame := frame);
          [apply Hopen; lia|lia|exact Hread|exact Hskip].
      - eexists. apply track_iter_unread; [apply Hopen; lia|lia|exact Hread]. }
    exists st'. split; [exact Hit|].
    apply track_iter_Next in Hit as (_ & _ & Hcount & r & Htr & Hid).
    exact (consistent_append st st' r Hcons Hcount Htr Hid).
  - exact consistent_init.
  - cbn. lia.
  - cbn. lia.
  - exists st. auto.
Qed.
End MissingOption.

(** C6 (as amended). A configuration that lacks one of the four options
    [track] reads on entry (perc_weight, perc_high, perc_low,
    contrast_threshold) raises the error of that option before any frame
    is read. A configuration that has these four and lacks one of the
    seven options of the detector (ratio_threshold, ..., dr_threshold)
    does not. Its run returns when no frame that is read has enough
    contrast. Otherwise it ends in the iteration of the first frame
    that has, after that frame was read and after one record was emitted
    for each frame before it: with the error of the option when the
    contours of the cropped image can be taken, and with the error of
    the smoothing or of the percentile when they cannot. *)
Theorem missing_option_raises_where_read `{Vision} (params : Params)
    (cap : VideoCapture) (eye_roi : ROI) :
  (forall e : exn,
     read_levels params = Raise e ->
     track_run params cap eye_roi = (Raised e, loop_init)
     /\ track params cap eye_roi = Raises e)
  /\ (forall (lv : Levels) (e : exn) (ending : ending) (st : Loop),
        read_levels params = Ok lv ->
        read_thresholds params = Raise e ->
        track_run params cap eye_roi = (ending, st) ->
        ending = Returned
        \/ (0 < fr_count st
            /\ frame_ids (traces st) = seqZ 1 (fr_count st - 1)
            /\ exists frame : Frame,
                 read cap (fr_count st - 1) = Some frame
                 /\ ~ (np_std (cvtColor frame) < contrast_low lv)%R
                 /\ ending = Raised (match contours_of lv eye_roi frame with
                                     | Ok _ => e
                                     | Raise e' => e'
                                     end)))
  /\ (forall (lv : Levels) (e : exn) (k : Z) (frame : Frame),
        read_levels params = Ok lv ->
        read_thresholds params = Raise e ->
        0 <= k < frame_count cap ->
        (forall j : Z, 0 <= j <= k -> isOpened cap j = true) ->
        (forall j : Z, 0 <= j < k ->
           match read cap j with
           | None => True
           | Some earlier => (np_std (cvtColor earlier) < contrast_low lv)%R
           end) ->
        read cap k = Some frame ->
        ~ (np_std (cvtColor frame) < contrast_low lv)%R ->
        exists st : Loop,
          track_run params cap eye_roi
          = (Raised (match contours_of lv eye_roi frame with
                     | Ok _ => e
                     | Raise e' => e'
                     end), st)
          /\ fr_count st = k + 1
          /\ frame_ids (traces st) = seqZ 1 k).
Proof.
  split; [|split].
  - intros e Hlv. unfold track, track_run. rewrite Hlv. auto.
  - intros lv e ending st Hlv Hth Hrun.
    destruct (track_run_post params cap eye_roi lv ending st Hlv Hrun)
      as (Hend & Hrange & Hpost).
    destruct ending as [|e'|]; [left; reflexivity| |contradiction].
    right. unfold track_run in Hrun. rewrite Hlv in Hrun.
    apply track_loop_Raised in Hrun as (st0 & Hit).
    destruct (track_iter_Throw_detector params lv cap eye_roi e Hth e' st0 st Hit)
      as (Hcount & _ & frame & Hread & Hhigh & He').
    cbn in Hpost. destruct Hpost as [Hpos Hcases]. cbn in Hpos.
    split; [exact Hpos|].
    assert (crash e') as Hcrash.
    { rewrite He'. destruct (contours_of lv eye_roi frame) as [contours|e''] eqn:Hfind.
      - exact (read_thresholds_crash params e Hth).
      - exact (find_contours_crash lv _ e'' Hfind). }
    destruct Hcases as [[_ Hids]|(-> & _)]; [|destruct Hcrash].
    split; [exact Hids|].
    exists frame. replace (fr_count st - 1) with (fr_count st0) by lia.
    rewrite He'. auto.
  - intros lv e k frame Hlv Hth Hk Hopen Hskip Hread Hhigh.
    destruct (track_loop_skipped params lv cap eye_roi k
                (S (Z.to_nat (frame_count cap) - Z.to_nat k)))
      as (stk & Hcons & Hcount & Hloop);
      [lia|intros j Hj; apply Hopen; lia|exact Hskip|].
    assert (track_iter params lv cap eye_roi stk
            = Throw (match contours_of lv eye_roi frame with
                     | Ok _ => e
                     | Raise e' => e'
                     end)
                    {| traces := traces stk; fr_count := fr_count stk + 1;
                       old_center := old_center stk; old_r := old_r stk |}) as Hit.
    { apply (track_iter_unconfigured params lv cap eye_roi e Hth stk frame);
        rewrite ?Hcount; [apply Hopen; lia|lia|exact Hread|exact Hhigh]. }
    eexists. split; [|split].
    + unfold track_run. rewrite Hlv.
      replace (S (Z.to_nat (frame_count cap)))
        with (Z.to_nat k + S (Z.to_nat (frame_count cap) - Z.to_nat k))%nat by lia.
      rewrite Hloop. apply track_loop_Throw. exact Hit.
    + cbn. lia.
    + cbn [traces]. rewrite <- Hcount. apply Hcons.
Qed.

(** Without ratio_threshold, a flat frame and then a frame with contrast. *)
Lemma missing_option_raises_where_read_witness :
  exists st : Loop,
    @track_run pupil_vision config_unrated two_frames whole
    = (Raised (KeyError "ratio_threshold"), st)
    /\ fr_count st = 2
    /\ frame_ids (traces st) = [1].
Proof.
  destruct (@missing_option_raises_where_read pupil_vision config_unrated
              two_frames whole) as (_ & _ & Hfirst).
  destruct (Hfirst config_levels (KeyError "ratio_threshold") 1 textured
              read_levels_unrated read_thresholds_unrated)
    as (st & Hrun & Hcount & Hids).
  - cbn. lia.
  - intros j Hj. reflexivity.
  - intros j Hj. assert (j = 0) as -> by lia. exact flat_is_low.
  - reflexivity.
  - exact textured_is_not_low.
  - assert (@contours_of pupil_vision config_levels whole textured
            = Ok [pupil_contour]) as Hfind
      by (apply contours_of_config; left; reflexivity).
    rewrite Hfind in Hrun. exists st. auto.
Defined.

(** C6 as stated fails: without ratio_threshold the error is raised
    during the second iteration, after two frames were read and the
    record of the first was emitted. *)
Lemma missing_option_raises_midway :
  config_unrated !! "ratio_threshold" = None
  /\ @track_run pupil_vision config_unrated two_frames whole
     = (Raised (KeyError "ratio_threshold"),
        {| traces := [Failure 1 (np_std flat)]; fr_count := 2;
           old_center := None; old_r := None |})
  /\ @track pupil_vision config_unrated two_frames whole
     = Raises (KeyError "ratio_threshold").
Proof.
  split; [reflexivity|]. split; [exact unrated_run|].
  unfold track. rewrite unrated_run. reflexivity.
Qed.

(** ** Frames without a candidate *)

(** C3 (the code departs from it). A frame with contrast in which the
    only contour found is shorter than min_contour_len has no candidate;
    [get_pupil_from_contours] then reads the column 'conditions' of an
    empty table and raises, and the exception ends the run of [track]. *)
Theorem frame_without_candidate_raises :
  @track speck_vision config speck_video whole = Raises (KeyError "conditions").
Proof. exact speck_run. Qed.

(** C1 (the code departs from it). On the empty sequence of candidates,
    where no candidate passes all seven criteria, the function does not
    return none: it raises. On every sequence with a candidate it returns
    the selection ([get_pupil_from_contours_selects]). *)
Theorem empty_candidates_raise :
  @get_pupil_from_contours blank_vision config [] textured None None
  = Raise (KeyError "conditions").
Proof.
  apply (@get_pupil_from_contours_none blank_vision config config_thresholds).
  - exact read_thresholds_config.
  - reflexivity.
Qed.

(** ** Continuity *)

Lemma score_unset `{Vision} (th : Thresholds) (small_shape : Z * Z)
    (cnt : Contour) (s : Scored) :
  score th small_shape None None cnt = Ok (Some s) ->
  sc_dx s = 0%R /\ sc_dr s = 0%R.
Proof.
  intros Hsc. apply score_inv in Hsc as (ellipse & curr & dr & _ & _ & Hdr & ->).
  cbn in Hdr. injection Hdr as <-. split; reflexivity.
Qed.

Lemma criteria_continuity (th : Thresholds) (s : Scored) :
  sc_dx s = 0%R -> sc_dr s = 0%R ->
  criteria th s !! 5%nat = Some (bool_decide (0 < speed_thres th)%R)
  /\ criteria th s !! 6%nat = Some (bool_decide (0 < dr_thres th)%R).
Proof. intros Hdx Hdr. unfold criteria. rewrite Hdx, Hdr. split; reflexivity. Qed.

(** The scene: the pupil at the left, lost, and found at the right. *)

Section SceneFacts.
#[local] Open Scope R_scope.

Lemma np_std_scene (frame : Image) :
  frame = scene_left \/ frame = scene_right \/ frame = scene_edge ->
  np_std frame = 1.
Proof.
  intros [-> | [-> | ->]]; unfold np_std, np_mean, samples; cbn;
    (match goal with |- sqrt ?x = _ => replace x with 1 by lra end);
    apply sqrt_1.
Qed.

Lemma scene_is_not_low (frame : Image) :
  frame = scene_left \/ frame = scene_right \/ frame = scene_edge ->
  ~ np_std frame < contrast_low config_levels.
Proof. intros Hframe. rewrite (np_std_scene frame Hframe). cbn. lra. Qed.

Lemma contours_of_scene (frame : Image) :
  frame = scene_left \/ frame = scene_right \/ frame = scene_edge ->
  @contours_of scene_vision config_levels whole4 frame
  = Ok (@findContours scene_vision frame).
Proof.
  intros Hframe.
  unfold contours_of, small_gray_of, find_contours, blurred, blend, np_percentile.
  change (@cvtColor scene_vision frame) with frame.
  assert (crop whole4 frame = frame) as ->
    by (destruct Hframe as [-> | [-> | ->]]; reflexivity).
  assert (exists x l, concat frame = x :: l) as (x & l & ->)
    by (destruct Hframe as [-> | [-> | ->]]; cbn; eauto).
  cbn [mbind result_bind p_high p_low config_levels].
  rewrite !decide_True by lra. reflexivity.
Qed.

Lemma far_on_boundary : Forall (on_boundary far_ellipse) far_contour.
Proof.
  repeat constructor; unfold on_boundary, rotated_point; cbn;
    rewrite Rmult_0_l, Ropp_0, cos_0, sin_0; lra.
Qed.

Lemma edge_on_boundary : Forall (on_boundary edge_ellipse) edge_contour.
Proof.
  repeat constructor; unfold on_boundary, rotated_point; cbn;
    rewrite Rmult_0_l, Ropp_0, cos_0, sin_0; lra.
Qed.

Lemma max2_same (a : R) : max2 (a, a) = a.
Proof. unfold max2. cbn. apply Rmax_left. lra. Qed.

Lemma min2_same (a : R) : min2 (a, a) = a.
Proof. unfold min2. cbn. apply Rmin_left. lra. Qed.

(** A contour of two points on the circle of diameter 2 that fits it
    is scored whatever the previous radius 2 or none. *)
Lemma scored_candidates_scene (oc : option (R * R)) (or : option R)
    (cnt : Contour) (center : R * R) :
  (2 <= length cnt)%nat ->
  @fitEllipse scene_vision cnt = Some (center, (2, 2), 0) ->
  Forall (on_boundary (center, (2, 2), 0)) cnt ->
  or = None \/ or = Some 2 ->
  @scored_candidates scene_vision config_thresholds (4, 4)%Z oc or [cnt]
  = Ok [candidate (4, 4)%Z oc cnt (center, (2, 2), 0) 0 0].
Proof.
  intros Hlen Hfit Hon Hor. cbn [scored_candidates].
  rewrite (@score_scored scene_vision config_thresholds (4, 4)%Z oc or
             cnt (center, (2, 2), 0) 0 0).
  - reflexivity.
  - cbn. apply Rle_not_lt. change 2 with (INR 2). apply le_INR. exact Hlen.
  - exact Hfit.
  - cbn [ell_axes fst snd]. rewrite min2_same. lra.
  - destruct cnt as [|p [|q rest]]; cbn in Hlen; try lia.
    apply goodness_of_fit_on_boundary; [lra|lra|exact Hon].
  - discriminate.
  - discriminate.
  - cbn [ell_axes fst snd]. rewrite max2_same.
    destruct Hor as [-> | ->]; cbn [dr_of]; [reflexivity|].
    rewrite decide_False by lra. f_equal.
    replace (2 - 2) with 0 by lra. rewrite Rabs_R0. lra.
Qed.

(** The detector on a single candidate. *)
Lemma get_pupil_single `{Vision} (params : Params) (th : Thresholds)
    (cnt : Contour) (small_gray : Image) (oc : option (R * R)) (or : option R)
    (s : Scored) :
  read_thresholds params = Ok th ->
  scored_candidates th (shape small_gray) oc or [cnt] = Ok [s] ->
  get_pupil_from_contours params [cnt] small_gray oc or
  = Ok (if bool_decide (matching_conditions th s = 7%Z) then Some (sc_contour s, sc_ellipse s) else None).
Proof.
  intros Hth Hl.
  rewrite (get_pupil_from_contours_select params th [cnt] small_gray oc or [s] Hth Hl).
  unfold select. cbn [foldl]. unfold choose, passes.
  cbn [err scan_init below andb].
  destruct (bool_decide (matching_conditions th s = 7%Z)); reflexivity.
Qed.

(** The pupil at either place passes when no previous state is kept;
    the contour at the corner never passes; the pupil at the right does
    not pass when the pupil at the left is remembered. *)
Lemma passes_scene (cnt : Contour) (center : R * R) :
  center = (1, 1) \/ center = (3, 3) ->
  passes config_thresholds (candidate (4, 4)%Z None cnt (center, (2, 2), 0) 0 0).
Proof.
  intros Hcenter. apply passes_iff. unfold candidate.
  cbn [sc_ratio sc_area sc_rmse sc_center sc_dx sc_dr dx_of ell_axes ell_center
       fst snd].
  unfold ratio_of. rewrite max2_same, min2_same.
  unfold area_of, center_of. cbn. rewrite mult_IZR.
  destruct Hcenter as [-> | ->]; cbn; lra.
Qed.

Lemma not_passes_edge (oc : option (R * R)) :
  ~ passes config_thresholds (candidate (4, 4)%Z oc edge_contour edge_ellipse 0 0).
Proof.
  intros Hp. apply passes_iff in Hp. destruct Hp as (_ & _ & _ & [Hx _] & _).
  unfold candidate, center_of in Hx. cbn in Hx. lra.
Qed.

Lemma not_passes_jump :
  ~ passes config_thresholds
      (candidate (4, 4)%Z (Some (normalized_center pupil_ellipse (4, 4)%Z))
         far_contour far_ellipse 0 0).
Proof.
  intros Hp. apply passes_iff in Hp. destruct Hp as (_ & _ & _ & _ & _ & Hdx & _).
  unfold candidate, center_of, normalized_center in Hdx.
  cbn [sc_dx dx_of ell_center far_ellipse pupil_ellipse fst snd speed_thres
       config_thresholds] in Hdx.
  assert (0.1 = sqrt (0.1 * 0.1)) as Hroot by (rewrite sqrt_square; lra).
  rewrite Hroot in Hdx. apply sqrt_lt_0_alt in Hdx. lra.
Qed.

Lemma get_pupil_scene (oc : option (R * R)) (or : option R)
    (cnt : Contour) (center : R * R) :
  (2 <= length cnt)%nat ->
  @fitEllipse scene_vision cnt = Some (center, (2, 2), 0) ->
  Forall (on_boundary (center, (2, 2), 0)) cnt ->
  or = None \/ or = Some 2 ->
  forall frame : Image,
    shape frame = (4, 4)%Z ->
    @get_pupil_from_contours scene_vision config [cnt] frame oc or
    = Ok (if bool_decide (matching_conditions config_thresholds
                            (candidate (4, 4)%Z oc cnt (center, (2, 2), 0) 0 0) = 7%Z)
          then Some (cnt, (center, (2, 2), 0)) else None).
Proof.
  intros Hlen Hfit Hon Hor frame Hshape.
  apply (@get_pupil_single scene_vision config config_thresholds cnt frame oc or
           (candidate (4, 4)%Z oc cnt (center, (2, 2), 0) 0 0)
           read_thresholds_config).
  rewrite Hshape. exact (scored_candidates_scene oc or cnt center Hlen Hfit Hon Hor).
Qed.

(** One iteration on a frame of the scene. *)
Lemma scene_step (declared : Z) (frames : list Image) (st : Loop) (frame : Image)
    (cnt : Contour) (center : R * R) :
  (0 <= fr_count st < declared)%Z ->
  frames !! Z.to_nat (fr_count st) = Some frame ->
  frame = scene_left \/ frame = scene_right \/ frame = scene_edge ->
  @findContours scene_vision frame = [cnt] ->
  (2 <= length cnt)%nat ->
  @fitEllipse scene_vision cnt = Some (center, (2, 2), 0) ->
  Forall (on_boundary (center, (2, 2), 0)) cnt ->
  old_r st = None \/ old_r st = Some 2 ->
  @track_iter scene_vision config config_levels
     (video scene_vision declared frames None) whole4 st
  = Next (@after_detector scene_vision whole4 st frame
            (if bool_decide (matching_conditions config_thresholds
                               (candidate (4, 4)%Z (old_center st) cnt
                                  (center, (2, 2), 0) 0 0) = 7%Z)
             then Some (cnt, (center, (2, 2), 0)) else None)).
Proof.
  intros Hk Hread Hframe Hcnt Hlen Hfit Hon Hor.
  assert (@contours_of scene_vision config_levels whole4 frame = Ok [cnt]) as Hfind
    by (rewrite (contours_of_scene frame Hframe), Hcnt; reflexivity).
  assert (shape (@small_gray_of scene_vision whole4 frame) = (4, 4)%Z) as Hshape
    by (destruct Hframe as [-> | [-> | ->]]; reflexivity).
  pose proof (get_pupil_scene (old_center st) (old_r st) cnt center Hlen Hfit Hon Hor
                (@small_gray_of scene_vision whole4 frame) Hshape) as Hget.
  rewrite (@track_iter_poll scene_vision config config_levels
             (video scene_vision declared frames None) whole4 st
             eq_refl ltac:(cbn; lia) frame [cnt] _ Hread
             (scene_is_not_low frame Hframe) Hfind Hget).
  rewrite quit_key_video. reflexivity.
Qed.

(** The first frame of both videos: the pupil is detected at the left. *)
Lemma left_step (declared : Z) (rest : list Image) :
  (0 < declared)%Z ->
  @track_iter scene_vision config config_levels
     (video scene_vision declared (scene_left :: rest) None) whole4 loop_init
  = Next after_left.
Proof.
  intros Hdecl.
  rewrite (scene_step declared (scene_left :: rest) loop_init scene_left
             pupil_contour (1, 1));
    [|cbn; lia|reflexivity|auto|reflexivity|cbn; lia|reflexivity
     |apply pupil_on_boundary; reflexivity|left; reflexivity].
  rewrite bool_decide_eq_true_2 by (apply passes_scene; auto).
  reflexivity.
Qed.

(** The frame in between: nothing is detected and the state is reset. *)
Lemma edge_step :
  @track_iter scene_vision config config_levels regained_video whole4 after_left
  = Next (@after_detector scene_vision whole4 after_left scene_edge None).
Proof.
  unfold regained_video.
  rewrite (scene_step 3 [scene_left; scene_edge; scene_right] after_left scene_edge
             edge_contour (0, 0));
    [|cbn; lia|reflexivity|auto|reflexivity|cbn; lia|reflexivity
     |exact edge_on_boundary|right; cbn; rewrite max2_same; reflexivity].
  rewrite bool_decide_eq_false_2 by apply not_passes_edge.
  reflexivity.
Qed.

(** The pupil at the right after the reset: detected. *)
Lemma regained_step :
  @track_iter scene_vision config config_levels regained_video whole4
     (@after_detector scene_vision whole4 after_left scene_edge None)
  = Next (@after_detector scene_vision whole4
            (@after_detector scene_vision whole4 after_left scene_edge None)
            scene_right (Some (far_contour, far_ellipse))).
Proof.
  unfold regained_video.
  rewrite (scene_step 3 [scene_left; scene_edge; scene_right]
             (@after_detector scene_vision whole4 after_left scene_edge None)
             scene_right far_contour (3, 3));
    [|cbn; lia|reflexivity|auto|reflexivity|cbn; lia|reflexivity
     |exact far_on_boundary|left; reflexivity].
  cbn [after_detector advance old_center].
  rewrite bool_decide_eq_true_2 by (apply passes_scene; auto).
  reflexivity.
Qed.

(** The pupil at the right straight after the pupil at the left: a
    jump, and nothing is detected. *)
Lemma jump_step :
  @track_iter scene_vision config config_levels jump_video whole4 after_left
  = Next (@after_detector scene_vision whole4 after_left scene_right None).
Proof.
  unfold jump_video.
  rewrite (scene_step 2 [scene_left; scene_right] after_left scene_right
             far_contour (3, 3));
    [|cbn; lia|reflexivity|auto|reflexivity|cbn; lia|reflexivity
     |exact far_on_boundary|right; cbn; rewrite max2_same; reflexivity].
  rewrite bool_decide_eq_false_2 by exact not_passes_jump.
  reflexivity.
Qed.

(** The two runs: with the frame in between the pupil at the right is
    detected, and without it it is not. *)
Lemma regained_run :
  @track scene_vision config regained_video whole4
  = Returns [detection whole4 pupil_contour pupil_ellipse 1 (np_std scene_left);
             Failure 2 (np_std scene_edge);
             detection whole4 far_contour far_ellipse 3 (np_std scene_right)].
Proof.
  unfold track, track_run. rewrite read_levels_config.
  change (S (Z.to_nat (frame_count regained_video))) with 4%nat.
  erewrite (@track_loop_Next scene_vision); [|apply left_step; lia].
  erewrite (@track_loop_Next scene_vision); [|exact edge_step].
  erewrite (@track_loop_Next scene_vision); [|exact regained_step].
  erewrite (@track_loop_Stop scene_vision);
    [|apply (@track_iter_end scene_vision); cbn; lia].
  reflexivity.
Qed.

Lemma jump_run :
  @track scene_vision config jump_video whole4
  = Returns [detection whole4 pupil_contour pupil_ellipse 1 (np_std scene_left);
             Failure 2 (np_std scene_right)].
Proof.
  unfold track, track_run. rewrite read_levels_config.
  change (S (Z.to_nat (frame_count jump_video))) with 3%nat.
  erewrite (@track_loop_Next scene_vision); [|apply left_step; lia].
  erewrite (@track_loop_Next scene_vision); [|exact jump_step].
  erewrite (@track_loop_Stop scene_vision);
    [|apply (@track_iter_end scene_vision); cbn; lia].
  reflexivity.
Qed.
End SceneFacts.

(** C8 (as amended). For every frame on which the detector runs and
    selects nothing, the iteration appends the failure record and sets
    the previous center and the previous radius to none; so every
    candidate of the next frame is scored with dx = 0 and dr/r = 0, and
    the criteria 6 and 7 come down to 0 < speed_threshold and
    0 < dr_threshold: they hold exactly when these thresholds are
    positive. *)
Theorem no_detection_resets_continuity `{Vision} (params : Params) (lv : Levels)
    (cap : VideoCapture) (eye_roi : ROI) (st : Loop) (frame : Frame)
    (found : list Contour) :
  isOpened cap (fr_count st) = true -> fr_count st < frame_count cap ->
  read cap (fr_count st) = Some frame ->
  ~ (np_std (cvtColor frame) < contrast_low lv)%R ->
  contours_of lv eye_roi frame = Ok found ->
  get_pupil_from_contours params found
    (small_gray_of eye_roi frame) (old_center st) (old_r st) = Ok None ->
  exists st' : Loop,
    (track_iter params lv cap eye_roi st = Next st'
     \/ track_iter params lv cap eye_roi st = Throw aborted st')
    /\ traces st' = traces st ++ [Failure (fr_count st + 1) (np_std (cvtColor frame))]
    /\ old_center st' = None /\ old_r st' = None
    /\ forall (th : Thresholds) (small_shape : Z * Z) (contours : list Contour)
         (l : list Scored),
         scored_candidates th small_shape (old_center st') (old_r st') contours = Ok l ->
         Forall (fun s : Scored =>
                   sc_dx s = 0%R /\ sc_dr s = 0%R
                   /\ criteria th s !! 5%nat = Some (bool_decide (0 < speed_thres th)%R)
                   /\ criteria th s !! 6%nat = Some (bool_decide (0 < dr_thres th)%R)) l.
Proof.
  intros Hopen Hmore Hread Hhigh Hfind Hget.
  exists (after_detector eye_roi st frame None).
  split; [|split; [reflexivity|split; [reflexivity|split; [reflexivity|]]]].
  - rewrite (track_iter_poll params lv cap eye_roi st Hopen Hmore frame found None
               Hread Hhigh Hfind Hget).
    destruct (quit_key _); auto.
  - cbn [after_detector advance old_center old_r].
    intros th small_shape contours l Hl. apply Forall_forall. intros s Hs.
    destruct (scored_candidates_inv th small_shape None None contours l s Hl Hs)
      as (cnt & _ & Hsc).
    destruct (score_unset th small_shape cnt s Hsc) as [Hdx Hdr].
    split; [exact Hdx|]. split; [exact Hdr|].
    exact (criteria_continuity th s Hdx Hdr).
Qed.

(** The frame after the pupil was detected at the left: the contour at
    the corner is scored and rejected, the kept center and radius are
    dropped, and the pupil at the right, scored next, meets the
    criteria 6 and 7 of the configuration. *)
Lemma no_detection_resets_continuity_witness :
  old_center after_left = Some (normalized_center pupil_ellipse (4, 4))
  /\ old_r after_left = Some (max2 (ell_axes pupil_ellipse))
  /\ exists st' : Loop,
       @track_iter scene_vision config config_levels regained_video whole4 after_left
       = Next st'
       /\ old_center st' = None /\ old_r st' = None
       /\ Forall (fun s : Scored =>
                    criteria config_thresholds s !! 5%nat = Some true
                    /\ criteria config_thresholds s !! 6%nat = Some true)
                 [candidate (4, 4) None far_contour far_ellipse 0 0].
Proof.
  split; [reflexivity|]. split; [reflexivity|].
  destruct (@no_detection_resets_continuity scene_vision config config_levels
              regained_video whole4 after_left scene_edge [edge_contour])
    as (st' & Hit & _ & Hoc & Hor & Hnext).
  - reflexivity.
  - cbn. lia.
  - reflexivity.
  - apply scene_is_not_low. auto.
  - rewrite contours_of_scene by auto. reflexivity.
  - rewrite (get_pupil_scene _ _ edge_contour (0, 0)%R);
      [|cbn; lia|reflexivity|exact edge_on_boundary
       |right; cbn; rewrite max2_same; reflexivity|reflexivity].
    rewrite bool_decide_eq_false_2 by apply not_passes_edge. reflexivity.
  - exists st'. split; [|split; [exact Hoc|split; [exact Hor|]]].
    + destruct Hit as [Hit|Hit]; [exact Hit|].
      rewrite edge_step in Hit. discriminate Hit.
    + specialize (Hnext config_thresholds (4, 4) [far_contour]
                    [candidate (4, 4) None far_contour far_ellipse 0 0]).
      rewrite Hoc, Hor in Hnext.
      eapply Forall_impl;
        [apply Hnext;
         exact (scored_candidates_scene None None far_contour (3, 3)%R
                  ltac:(cbn; lia) eq_refl far_on_boundary (or_introl eq_refl))|].
      intros s (_ & _ & H6 & H7).
      rewrite bool_decide_eq_true_2 in H6 by (cbn; lra).
      rewrite bool_decide_eq_true_2 in H7 by (cbn; lra).
      split; assumption.
Defined.

(** C8 as stated fails: with the speed threshold 0 the first frame has
    no detection, and on the second frame the candidate is scored with
    dx = 0 and fails criterion 6, so that frame has no detection either. *)
Lemma continuity_not_always_satisfied :
  @track pupil_vision config_still pair_video whole
  = Returns [Failure 1 (np_std textured); Failure 2 (np_std textured)]
  /\ @scored_candidates pupil_vision still_thresholds (2, 2) None None [pupil_contour]
     = Ok [candidate (2, 2) None pupil_contour pupil_ellipse 0 0]
  /\ sc_dx (candidate (2, 2) None pupil_contour pupil_ellipse 0 0) = 0%R
  /\ criteria still_thresholds (candidate (2, 2) None pupil_contour pupil_ellipse 0 0)
       !! 5%nat = Some false.
Proof.
  split; [exact still_run|]. split; [|split; [reflexivity|]].
  - apply scored_candidates_pupil; [cbn; lra|left; auto].
  - unfold criteria. cbn [sc_dx candidate dx_of speed_thres still_thresholds].
    rewrite (bool_decide_eq_false_2 (0 < 0)%R) by lra. reflexivity.
Qed.

(** ** The state kept after a detection *)

Lemma normalized_center_is_center_of (ellipse : Ellipse) (small_shape : Z * Z) :
  normalized_center ellipse small_shape = center_of (ell_center ellipse) small_shape.
Proof. reflexivity. Qed.

(** C10. After every detection, the previous center kept for the next
    frame is the center the scorer computed for the winning candidate,
    (x / columns, y / rows) of the sub-image whose shape is given as
    (rows, columns), and the previous radius kept is the r of that
    candidate, the larger of the two axes of its ellipse. *)
Theorem kept_state_is_scorer_normalized `{Vision} (params : Params) (lv : Levels)
    (cap : VideoCapture) (eye_roi : ROI) (st : Loop) (frame : Frame)
    (contours : list Contour) (contour : Contour) (ellipse : Ellipse) :
  isOpened cap (fr_count st) = true -> fr_count st < frame_count cap ->
  read cap (fr_count st) = Some frame ->
  ~ (np_std (cvtColor frame) < contrast_low lv)%R ->
  contours_of lv eye_roi frame = Ok contours ->
  get_pupil_from_contours params contours
    (small_gray_of eye_roi frame) (old_center st) (old_r st)
  = Ok (Some (contour, ellipse)) ->
  exists (st' : Loop) (th : Thresholds) (s : Scored),
    (track_iter params lv cap eye_roi st = Next st'
     \/ track_iter params lv cap eye_roi st = Throw aborted st')
    /\ read_thresholds params = Ok th
    /\ contour ∈ contours
    /\ score th (shape (small_gray_of eye_roi frame)) (old_center st) (old_r st) contour
       = Ok (Some s)
    /\ sc_ellipse s = ellipse
    /\ old_center st' = Some (sc_center s)
    /\ old_r st' = Some (sc_r s)
    /\ sc_center s
       = (fst (ell_center ellipse) / IZR (snd (shape (small_gray_of eye_roi frame))),
          snd (ell_center ellipse) / IZR (fst (shape (small_gray_of eye_roi frame))))%R
    /\ sc_r s = Rmax (fst (ell_axes ellipse)) (snd (ell_axes ellipse)).
Proof.
  intros Hopen Hmore Hread Hhigh Hfind Hget.
  destruct (get_pupil_from_contours_inv params _ _ _ _ _ Hget)
    as (th & l & Hth & Hl & _ & i & s & (Hi & _) & Hc & He).
  assert (s ∈ l) as Hin by (apply list_elem_of_lookup; eauto).
  destruct (scored_candidates_inv th _ _ _ _ l s Hl Hin) as (cnt & Hcnt & Hsc).
  pose proof Hsc as Hsc'.
  apply score_inv in Hsc' as (e & curr & dr & _ & _ & _ & Hs).
  assert (cnt = contour) as -> by (rewrite Hc, Hs; reflexivity).
  assert (e = ellipse) as -> by (rewrite He, Hs; reflexivity).
  exists (after_detector eye_roi st frame (Some (contour, ellipse))), th, s.
  split.
  { rewrite (track_iter_poll params lv cap eye_roi st Hopen Hmore frame contours _
               Hread Hhigh Hfind Hget).
    destruct (quit_key _); auto. }
  split; [exact Hth|]. split; [exact Hcnt|]. split; [exact Hsc|].
  rewrite Hs. cbn [sc_ellipse sc_center sc_r candidate after_detector advance
                   old_center old_r].
  rewrite normalized_center_is_center_of.
  repeat split; reflexivity.
Qed.

(** The first frame of the video in which the pupil is found. *)
Lemma kept_state_is_scorer_normalized_witness :
  exists (st' : Loop) (s : Scored),
    @track_iter pupil_vision config config_levels interrupted whole loop_init = Next st'
    /\ old_center st' = Some (sc_center s)
    /\ old_r st' = Some (sc_r s)
    /\ sc_center s = (1 / IZR 2, 1 / IZR 2)%R
    /\ sc_r s = Rmax 2 2.
Proof.
  destruct (@kept_state_is_scorer_normalized pupil_vision config config_levels
              interrupted whole loop_init textured [pupil_contour]
              pupil_contour pupil_ellipse)
    as (st' & th & s & Hit & _ & _ & _ & _ & Hoc & Hor & Hcenter & Hr).
  - reflexivity.
  - cbn. lia.
  - reflexivity.
  - change (~ (np_std textured < contrast_low config_levels)%R).
    rewrite np_std_textured. cbn. lra.
  - apply contours_of_config. left. reflexivity.
  - apply get_pupil_pupil. left. split; reflexivity.
  - exists st', s. split; [|split; [exact Hoc|split; [exact Hor|split]]].
    + destruct Hit as [Hit|Hit]; [exact Hit|].
      destruct (pupil_step 20 20 (Some 6) loop_init) as [Hstep _];
        [left; split; reflexivity|cbn; lia|cbn; lia|].
      fold interrupted in Hstep. rewrite Hstep in Hit. discriminate Hit.
    + exact Hcenter.
    + exact Hr.
Defined.

(** ** The wraparound loop of [ts2sec] *)

Lemma WRAP_value : WRAP = 4294967296.
Proof. reflexivity. Qed.

Lemma turns_nonneg (d : Z) : 0 <= d -> turns d = 0%nat.
Proof. intros Hd. unfold turns. destruct (Z.ltb_spec d 0); [lia|reflexivity]. Qed.

Lemma turns_neg (d : Z) : d < 0 -> turns d = S (turns (d + WRAP)).
Proof.
  intros Hd. unfold turns. rewrite WRAP_value.
  destruct (Z.ltb_spec d 0); [|lia].
  destruct (Z.ltb_spec (d + 4294967296) 0).
  - rewrite <- Z2Nat.inj_succ by (apply Z.div_pos; lia). f_equal.
    replace (- d + 4294967296 - 1) with (- (d + 4294967296) + 4294967296 - 1
                                         + 1 * 4294967296) by lia.
    rewrite Z.div_add by lia. lia.
  - replace ((- d + 4294967296 - 1) / 4294967296) with 1; [reflexivity|].
    apply Z.div_unique with (r := - d - 1); lia.
Qed.

Lemma turns_range (d : Z) :
  0 <= d + WRAP * Z.of_nat (turns d)
  /\ (d < 0 -> d + WRAP * Z.of_nat (turns d) < WRAP).
Proof.
  unfold turns. rewrite WRAP_value. destruct (Z.ltb_spec d 0); [|lia].
  rewrite Z2Nat.id by (apply Z.div_pos; lia).
  pose proof (Z.div_mod (- d + 4294967296 - 1) 4294967296 ltac:(lia)) as Hdm.
  pose proof (Z.mod_pos_bound (- d + 4294967296 - 1) 4294967296 ltac:(lia)) as Hm.
  lia.
Qed.

Lemma where_from_S {A : Type} (cond : A -> bool) (l : list A) (i : nat) :
  where_from (S i) cond l = map S (where_from i cond l).
Proof.
  revert i. induction l as [|x l IH]; intros i; cbn [where_from map]; [reflexivity|].
  rewrite IH. destruct (cond x); reflexivity.
Qed.

Lemma np_diff_cons (x y : Z) (tl : list Z) :
  np_diff (x :: y :: tl) = (y - x) :: np_diff (y :: tl).
Proof. reflexivity. Qed.

Lemma bump_cons (x y : Z) (tl : list Z) :
  bump (x :: y :: tl)
  = if y - x <? 0 then Some (x :: map (fun t => t + WRAP) (y :: tl))
    else cons x <$> bump (y :: tl).
Proof. reflexivity. Qed.

Lemma unwrapped_cons (x y : Z) (tl : list Z) :
  unwrapped (x :: y :: tl)
  = x :: map (fun t => t + WRAP * Z.of_nat (turns (y - x))) (unwrapped (y :: tl)).
Proof. reflexivity. Qed.

(** The first position of [np.where(np.diff(ts) < 0)] is the descent
    that [bump] raises. *)
Lemma first_descent (ts : list Z) :
  match np_where (fun d => d <? 0) (np_diff ts) with
  | [] => bump ts = None
  | i :: _ => bump ts = Some (add_from (i + 1) WRAP ts)
  end.
Proof.
  induction ts as [|x [|y tl] IH]; [reflexivity|reflexivity|].
  unfold np_where in *. rewrite np_diff_cons, bump_cons. cbn [where_from].
  destruct (y - x <? 0); [reflexivity|].
  rewrite where_from_S.
  destruct (where_from 0 (fun d => d <? 0) (np_diff (y :: tl))) as [|i rest];
    cbn [map]; rewrite IH; reflexivity.
Qed.

Lemma remove_wraparound_step (fuel : nat) (ts : list Z) :
  remove_wraparound fuel ts
  = match bump ts with
    | None => Some ts
    | Some ts' =>
        match fuel with
        | O => None
        | S fuel => remove_wraparound fuel ts'
        end
    end.
Proof.
  pose proof (first_descent ts) as Hfirst.
  destruct fuel as [|fuel]; cbn [remove_wraparound];
    destruct (np_where (fun d => d <? 0) (np_diff ts)) as [|i rest];
    rewrite Hfirst; reflexivity.
Qed.

Lemma wraps_cons (x y : Z) (tl : list Z) :
  wraps (x :: y :: tl) = (turns (y - x) + wraps (y :: tl))%nat.
Proof. reflexivity. Qed.

Lemma np_diff_shift (c : Z) (ts : list Z) :
  np_diff (map (fun t => t + c) ts) = np_diff ts.
Proof.
  induction ts as [|x [|y tl] IH]; [reflexivity|reflexivity|].
  cbn [map] in *. rewrite !np_diff_cons, IH. f_equal. lia.
Qed.

Lemma wraps_shift (c : Z) (ts : list Z) : wraps (map (fun t => t + c) ts) = wraps ts.
Proof. unfold wraps. rewrite np_diff_shift. reflexivity. Qed.

Lemma unwrapped_shift (c : Z) (ts : list Z) :
  unwrapped (map (fun t => t + c) ts) = map (fun t => t + c) (unwrapped ts).
Proof.
  induction ts as [|x [|y tl] IH]; [reflexivity|reflexivity|].
  change (map (fun t => t + c) (x :: y :: tl))
    with ((x + c) :: (y + c) :: map (fun t => t + c) tl).
  rewrite !unwrapped_cons.
  change ((y + c) :: map (fun t => t + c) tl) with (map (fun t => t + c) (y :: tl)).
  rewrite IH. replace (y + c - (x + c)) with (y - x) by lia.
  cbn [map]. f_equal. rewrite !map_map. apply map_ext. intros t. lia.
Qed.

Lemma bump_head (y : Z) (tl ts' : list Z) :
  bump (y :: tl) = Some ts' -> exists tl' : list Z, ts' = y :: tl'.
Proof.
  destruct tl as [|z tl]; [discriminate|]. rewrite bump_cons.
  destruct (z - y <? 0).
  - intros [= <-]. eauto.
  - destruct (bump (z :: tl)) as [tl'|]; [|discriminate]. intros [= <-]. eauto.
Qed.

Lemma bump_Some (ts ts' : list Z) :
  bump ts = Some ts' ->
  wraps ts = S (wraps ts') /\ unwrapped ts' = unwrapped ts
  /\ length ts' = length ts.
Proof.
  revert ts'. induction ts as [|x [|y tl] IH]; intros ts'; [discriminate|discriminate|].
  rewrite bump_cons. destruct (Z.ltb_spec (y - x) 0) as [Hneg|Hpos].
  - intros [= <-].
    change (map (fun t => t + WRAP) (y :: tl))
      with ((y + WRAP) :: map (fun t => t + WRAP) tl).
    rewrite !wraps_cons, !unwrapped_cons.
    change ((y + WRAP) :: map (fun t => t + WRAP) tl)
      with (map (fun t => t + WRAP) (y :: tl)).
    rewrite wraps_shift, unwrapped_shift.
    replace (y + WRAP - x) with (y - x + WRAP) by lia.
    rewrite (turns_neg (y - x) Hneg).
    split; [lia|]. split.
    + f_equal. rewrite map_map. apply map_ext. intros t. lia.
    + cbn [length]. rewrite length_map. reflexivity.
  - destruct (bump (y :: tl)) as [tl'|] eqn:Htl; [|discriminate].
    intros [= <-].
    destruct (bump_head y tl tl' Htl) as (tl'' & ->).
    destruct (IH (y :: tl'') eq_refl) as (Hw & Hu & Hl).
    rewrite !wraps_cons, !unwrapped_cons, Hw, Hu.
    split; [lia|]. split; [reflexivity|]. cbn [length] in *. lia.
Qed.

Lemma bump_None (ts : list Z) :
  bump ts = None ->
  wraps ts = 0%nat /\ unwrapped ts = ts /\ Sorted Z.le ts.
Proof.
  induction ts as [|x [|y tl] IH]; [auto|auto|].
  rewrite bump_cons. destruct (Z.ltb_spec (y - x) 0) as [Hneg|Hpos]; [discriminate|].
  destruct (bump (y :: tl)) as [tl'|] eqn:Htl; [discriminate|]. intros _.
  destruct (IH eq_refl) as (Hw & Hu & Hs).
  rewrite wraps_cons, unwrapped_cons, Hw, Hu, (turns_nonneg (y - x) Hpos).
  split; [reflexivity|]. split.
  - f_equal. rewrite <- (map_id (y :: tl)) at 2. apply map_ext. intros t. lia.
  - constructor; [exact Hs|]. constructor. lia.
Qed.

(** The loop ends, after as many additions as [wraps] counts and no
    fewer, with the closed form. *)
Lemma remove_wraparound_unwrapped (fuel : nat) (ts : list Z) :
  remove_wraparound fuel ts
  = if decide (wraps ts <= fuel)%nat then Some (unwrapped ts) else None.
Proof.
  revert ts. induction fuel as [|fuel IH]; intros ts;
    rewrite remove_wraparound_step;
    destruct (bump ts) as [ts'|] eqn:Hb.
  - destruct (bump_Some ts ts' Hb) as (Hw & _ & _).
    rewrite decide_False by lia. reflexivity.
  - destruct (bump_None ts Hb) as (Hw & Hu & _).
    rewrite decide_True by lia. rewrite Hu. reflexivity.
  - destruct (bump_Some ts ts' Hb) as (Hw & Hu & _).
    rewrite IH, Hu, Hw.
    destruct (decide (wraps ts' <= fuel)%nat);
      [rewrite decide_True by lia|rewrite decide_False by lia]; reflexivity.
  - destruct (bump_None ts Hb) as (Hw & Hu & _).
    rewrite decide_True by lia. rewrite Hu. reflexivity.
Qed.

Lemma unwrapped_length (ts : list Z) : length (unwrapped ts) = length ts.
Proof.
  induction ts as [|x [|y tl] IH]; [reflexivity|reflexivity|].
  rewrite unwrapped_cons. cbn [length] in *. rewrite length_map, IH. reflexivity.
Qed.

Lemma unwrapped_head (x : Z) (tl : list Z) :
  exists tl' : list Z, unwrapped (x :: tl) = x :: tl'.
Proof. destruct tl as [|y tl]; [exists []; reflexivity|rewrite unwrapped_cons; eauto]. Qed.

Lemma Sorted_shift (c : Z) (l : list Z) :
  Sorted Z.le l -> Sorted Z.le (map (fun t => t + c) l).
Proof.
  induction 1 as [|x l Hs IH Hhd]; cbn [map]; constructor; [exact IH|].
  destruct Hhd; cbn [map]; constructor. lia.
Qed.

Lemma unwrapped_sorted (ts : list Z) : Sorted Z.le (unwrapped ts).
Proof.
  induction ts as [|x [|y tl] IH]; [constructor|repeat constructor|].
  rewrite unwrapped_cons.
  destruct (unwrapped_head y tl) as (tl' & Hu). rewrite Hu in *.
  constructor; [apply Sorted_shift; exact IH|].
  cbn [map]. constructor.
  pose proof (turns_range (y - x)) as [Hr _]. lia.
Qed.

(** Every stamp is raised by a whole number of periods. *)
Lemma unwrapped_congruent (ts : list Z) :
  Forall2 (fun t u => exists k : Z, 0 <= k /\ u = t + WRAP * k) ts (unwrapped ts).
Proof.
  induction ts as [|x [|y tl] IH].
  - constructor.
  - repeat constructor. exists 0. lia.
  - rewrite unwrapped_cons. constructor; [exists 0; lia|].
    apply Forall2_fmap_r. eapply Forall2_impl; [exact IH|].
    intros t u (k & Hk & ->). cbn beta.
    exists (k + Z.of_nat (turns (y - x))). lia.
Qed.

Lemma turns_mod (d : Z) :
  d + WRAP * Z.of_nat (turns d) = if d <? 0 then d mod WRAP else d.
Proof.
  destruct (Z.ltb_spec d 0) as [Hneg|Hpos].
  - destruct (turns_range d) as [Hlo Hhi]. specialize (Hhi Hneg).
    apply Z.mod_unique with (q := - Z.of_nat (turns d)); [left; lia|lia].
  - rewrite turns_nonneg by lia. lia.
Qed.

Lemma np_diff_unwrapped (ts : list Z) :
  np_diff (unwrapped ts)
  = map (fun d => if d <? 0 then d mod WRAP else d) (np_diff ts).
Proof.
  induction ts as [|x [|y tl] IH]; [reflexivity|reflexivity|].
  rewrite unwrapped_cons, np_diff_cons. cbn [map]. rewrite <- IH, <- turns_mod.
  destruct (unwrapped_head y tl) as (tl' & Hu). rewrite Hu.
  cbn [map]. rewrite np_diff_cons.
  change ((y + WRAP * Z.of_nat (turns (y - x)))
          :: map (fun t => t + WRAP * Z.of_nat (turns (y - x))) tl')
    with (map (fun t => t + WRAP * Z.of_nat (turns (y - x))) (y :: tl')).
  rewrite np_diff_shift. f_equal. lia.
Qed.

Lemma unwrapped_within (ts : list Z) :
  Forall2 (fun t u => exists k : Z,
             0 <= k <= Z.of_nat (wraps ts) /\ u = t + WRAP * k)
          ts (unwrapped ts).
Proof.
  induction ts as [|x [|y tl] IH].
  - constructor.
  - repeat constructor. exists 0. cbn. lia.
  - rewrite unwrapped_cons, wraps_cons. constructor; [exists 0; lia|].
    apply Forall2_fmap_r. eapply Forall2_impl; [exact IH|].
    intros t u (k & Hk & ->). cbn beta.
    exists (k + Z.of_nat (turns (y - x))). lia.
Qed.

Lemma within_exact (n : nat) (ts out : list Z) :
  Forall (fun t => 0 <= t /\ t + WRAP * Z.of_nat n <= 2 ^ 53) ts ->
  Forall2 (fun t u => exists k : Z, 0 <= k <= Z.of_nat n /\ u = t + WRAP * k) ts out ->
  Forall (fun u => 0 <= u <= 2 ^ 53) out.
Proof.
  intros Hin Hrel.
  induction Hrel as [|t u l l' (k & Hk & ->) _ IH]; [constructor|].
  apply Forall_cons in Hin as [[Hlo Hhi] Hin].
  constructor; [|exact (IH Hin)].
  rewrite WRAP_value in *. nia.
Qed.

Lemma unwrapped_exact (ts : list Z) :
  exact_stamps ts -> Forall (fun u => 0 <= u <= 2 ^ 53) (unwrapped ts).
Proof.
  intros Hts.
  exact (within_exact (wraps ts) ts (unwrapped ts) Hts (unwrapped_within ts)).
Qed.

(** X1. On stamps that doubles hold exactly, the loop of [ts2sec] that
    removes the wraparound ends after exactly [wraps ts] additions of
    2^32. The array it leaves is non-decreasing, has the length and the
    first stamp of the input, differs from the input by a whole,
    nonnegative number of periods 2^32 at every position, and is still
    held exactly. *)
Theorem wraparound_loop_ends_sorted (ts : list Z) :
  exact_stamps ts ->
  (forall fuel : nat, (fuel < wraps ts)%nat -> remove_wraparound fuel ts = None)
  /\ exists out : list Z,
       (forall fuel : nat, (wraps ts <= fuel)%nat ->
          remove_wraparound fuel ts = Some out)
       /\ Sorted Z.le out
       /\ length out = length ts
       /\ head out = head ts
       /\ Forall2 (fun t u => exists k : Z, 0 <= k /\ u = t + WRAP * k) ts out
       /\ Forall (fun u => 0 <= u <= 2 ^ 53) out.
Proof.
  intros Hexact. split.
  - intros fuel Hfuel. rewrite remove_wraparound_unwrapped.
    rewrite decide_False by lia. reflexivity.
  - exists (unwrapped ts). split; [|split; [|split; [|split; [|split]]]].
    + intros fuel Hfuel. rewrite remove_wraparound_unwrapped.
      rewrite decide_True by lia. reflexivity.
    + apply unwrapped_sorted.
    + apply unwrapped_length.
    + destruct ts as [|x tl]; [reflexivity|].
      destruct (unwrapped_head x tl) as (tl' & ->). reflexivity.
    + apply unwrapped_congruent.
    + exact (unwrapped_exact ts Hexact).
Qed.

(** Two wraps of the counter in five stamps. *)
Lemma wraparound_loop_ends_sorted_witness :
  remove_wraparound 1 [4294967290; 5; 4294967295; 3; 7] = None
  /\ remove_wraparound 2 [4294967290; 5; 4294967295; 3; 7]
     = Some [4294967290; 4294967301; 8589934591; 8589934595; 8589934599].
Proof.
  destruct (wraparound_loop_ends_sorted [4294967290; 5; 4294967295; 3; 7])
    as (Hshort & out & Hout & _).
  - repeat constructor; vm_compute; discriminate.
  - split.
    + apply Hshort. vm_compute. lia.
    + reflexivity.
Defined.

(** X2. On stamps that doubles hold exactly, in the array the loop
    leaves every step between neighbours that was nonnegative is kept,
    and every negative step d is replaced by d mod 2^32: the least
    nonnegative step that differs from d by whole periods. The steps
    left are below 2^53. *)
Theorem wraparound_loop_steps (ts : list Z) :
  exact_stamps ts ->
  exists out : list Z,
    remove_wraparound (wraps ts) ts = Some out
    /\ np_diff out = map (fun d => if d <? 0 then d mod WRAP else d) (np_diff ts)
    /\ Forall (fun d => 0 <= d <= 2 ^ 53) (np_diff out).
Proof.
  intros Hexact. exists (unwrapped ts). split; [|split].
  - rewrite remove_wraparound_unwrapped. rewrite decide_True by lia. reflexivity.
  - apply np_diff_unwrapped.
  - pose proof (unwrapped_exact ts Hexact) as Hin.
    pose proof (unwrapped_sorted ts) as Hsorted.
    induction Hsorted as [|u l Hl IH Hhd]; [constructor|].
    apply Forall_cons in Hin as [Hu Hin]. specialize (IH Hin).
    destruct l as [|v l]; [constructor|].
    rewrite np_diff_cons. constructor; [|exact IH].
    apply Forall_cons in Hin as [Hv _]. inversion Hhd; subst. lia.
Qed.

(** One wrap of the counter between two stamps. *)
Lemma wraparound_loop_steps_witness :
  exists out : list Z,
    remove_wraparound 1 [4294967290; 5] = Some out
    /\ np_diff out = [11].
Proof.
  destruct (wraparound_loop_steps [4294967290; 5]) as (out & Hout & Hsteps & _).
  - repeat constructor; vm_compute; discriminate.
  - exists out. split; [exact Hout|exact Hsteps].
Defined.

Lemma turns_wrapped (x y : Z) :
  0 <= y - x < WRAP ->
  Z.of_nat (turns (y mod WRAP - x mod WRAP)) = y / WRAP - x / WRAP.
Proof.
  intros Hstep.
  pose proof (turns_range (y mod WRAP - x mod WRAP)) as [Hlo Hhi].
  pose proof (turns_nonneg (y mod WRAP - x mod WRAP)) as Hzero.
  rewrite WRAP_value in *.
  pose proof (Z.div_mod x 4294967296 ltac:(lia)) as Hx.
  pose proof (Z.div_mod y 4294967296 ltac:(lia)) as Hy.
  pose proof (Z.mod_pos_bound x 4294967296 ltac:(lia)) as Hrx.
  pose proof (Z.mod_pos_bound y 4294967296 ltac:(lia)) as Hry.
  destruct (Z.lt_ge_cases (y mod 4294967296 - x mod 4294967296) 0) as [Hneg|Hpos].
  - specialize (Hhi Hneg). lia.
  - rewrite Hzero by lia. lia.
Qed.

Lemma unwrapped_wrapped (u : list Z) :
  Forall (fun d => 0 <= d < WRAP) (np_diff u) ->
  unwrapped (map (fun x => x mod WRAP) u)
  = map (fun x => x - WRAP * (hd 0 u / WRAP)) u.
Proof.
  induction u as [|x [|y tl] IH]; intros Hsteps.
  - reflexivity.
  - cbn. f_equal. rewrite WRAP_value. apply Z.mod_eq. lia.
  - rewrite np_diff_cons in Hsteps. apply Forall_cons in Hsteps as [Hxy Htl].
    specialize (IH Htl).
    change (map (fun x => x mod WRAP) (x :: y :: tl))
      with (x mod WRAP :: y mod WRAP :: map (fun x => x mod WRAP) tl).
    rewrite unwrapped_cons.
    change (y mod WRAP :: map (fun x => x mod WRAP) tl)
      with (map (fun x => x mod WRAP) (y :: tl)).
    rewrite IH, map_map. cbn [hd].
    change (map (fun x0 => x0 - WRAP * (x / WRAP)) (x :: y :: tl))
      with ((x - WRAP * (x / WRAP))
            :: map (fun x0 => x0 - WRAP * (x / WRAP)) (y :: tl)).
    f_equal.
    + rewrite WRAP_value. apply Z.mod_eq. lia.
    + apply map_ext. intros z. rewrite (turns_wrapped x y Hxy). lia.
Qed.

(** X3. Wrapping and unwrapping is a round trip: when true stamps never
    decrease and grow by less than 2^32 from one to the next, and their
    values modulo 2^32 are stamps that doubles hold exactly, the loop
    recovers them from these values, up to the whole periods the first
    stamp had already counted; stamps that start below 2^32 are
    recovered exactly. *)
Theorem wraparound_round_trip (u : list Z) :
  Forall (fun d => 0 <= d < WRAP) (np_diff u) ->
  exact_stamps (map (fun x => x mod WRAP) u) ->
  let w := map (fun x => x mod WRAP) u in
  remove_wraparound (wraps w) w
  = Some (map (fun x => x - WRAP * (hd 0 u / WRAP)) u)
  /\ (0 <= hd 0 u < WRAP -> remove_wraparound (wraps w) w = Some u).
Proof.
  intros Hsteps _ w.
  assert (remove_wraparound (wraps w) w
          = Some (map (fun x => x - WRAP * (hd 0 u / WRAP)) u)) as Hloop.
  { rewrite remove_wraparound_unwrapped. rewrite decide_True by lia.
    unfold w. rewrite (unwrapped_wrapped u Hsteps). reflexivity. }
  split; [exact Hloop|].
  intros Hhd. rewrite Hloop. f_equal.
  rewrite Z.div_small by exact Hhd.
  rewrite <- (map_id u) at 2. apply map_ext. intros z. lia.
Qed.

(** Stamps that pass 2^32 twice. *)
Lemma wraparound_round_trip_witness :
  remove_wraparound 2 [4294967000; 704; 2147484352; 4294967000; 1000]
  = Some [4294967000; 4294968000; 6442451648; 8589934296; 8589935592].
Proof.
  apply (wraparound_round_trip
           [4294967000; 4294968000; 6442451648; 8589934296; 8589935592]).
  - repeat constructor; vm_compute; intuition discriminate.
  - repeat constructor; vm_compute; discriminate.
  - vm_compute. intuition discriminate.
Defined.

(** ** [ts2sec] as a whole *)

Section Ts2secFacts.
Variable iu_spline : list R -> list R -> R -> R.
Variables (packet_length : Z) (samplingrate : R).
Hypothesis Hrate : (0 < samplingrate)%R.

Lemma np_diffR_seconds (l : list Z) :
  np_diffR (map (fun t => (IZR t / samplingrate)%R) l)
  = map (fun d => (IZR d / samplingrate)%R) (np_diff l).
Proof.
  induction l as [|x [|y tl] IH]; [reflexivity|reflexivity|].
  change (np_diffR (map (fun t => (IZR t / samplingrate)%R) (x :: y :: tl)))
    with ((IZR y / samplingrate - IZR x / samplingrate)%R
          :: np_diffR (map (fun t => (IZR t / samplingrate)%R) (y :: tl))).
  rewrite IH, np_diff_cons. cbn [map]. f_equal.
  rewrite minus_IZR. unfold Rdiv. ring.
Qed.

Lemma seconds_nonpositive (d : Z) :
  bool_decide (IZR d / samplingrate <= 0)%R = (d <=? 0).
Proof.
  destruct (Z.leb_spec d 0) as [Hle|Hgt].
  - apply bool_decide_eq_true_2. apply IZR_le in Hle.
    pose proof (Rinv_0_lt_compat samplingrate Hrate) as Hinv.
    unfold Rdiv. nra.
  - apply bool_decide_eq_false_2. apply IZR_lt in Hgt.
    pose proof (Rinv_0_lt_compat samplingrate Hrate) as Hinv.
    unfold Rdiv. nra.
Qed.

Lemma seconds_positive (d : Z) :
  bool_decide (IZR d / samplingrate > 0)%R = (0 <? d).
Proof.
  destruct (Z.ltb_spec 0 d) as [Hgt|Hle].
  - apply bool_decide_eq_true_2. apply IZR_lt in Hgt.
    pose proof (Rinv_0_lt_compat samplingrate Hrate) as Hinv.
    unfold Rdiv. nra.
  - apply bool_decide_eq_false_2. apply IZR_le in Hle.
    pose proof (Rinv_0_lt_compat samplingrate Hrate) as Hinv.
    unfold Rdiv. nra.
Qed.

(** [ts2sec] in terms of the closed form of the loop. *)
Lemma ts2sec_unwrapped (ts : list Z) :
  ts2sec iu_spline ts packet_length samplingrate
  = let bad_idx := map (fun t => t =? BAD_TS) ts in
    if 10 <? count_true bad_idx then TsRaises (BadCameraTs "Bad camera ts...") else
    let out := unwrapped ts in
    let s := map (fun t => (IZR t / samplingrate)%R) out in
    if existsb (fun d => d <=? 0) (np_diff out) then
      match np_where (fun d => 0 <? d) (np_diff out) with
      | [] => TsRaises DiffsIndexError
      | first :: rest =>
          if packet_length =? Z.of_nat first + 1 then
            let not_zero := 0%nat :: map S (first :: rest) in
            let f := iu_spline (map INR not_zero)
                               (map (fun i => nth i s 0%R) not_zero) in
            Seconds (map (fun i => f (INR i)) (seq 0 (length s))) bad_idx
          else TsRaises PacketAssertionError
      end
    else Seconds s bad_idx.
Proof.
  unfold ts2sec. cbv zeta.
  destruct (10 <? count_true (map (fun t => t =? BAD_TS) ts)); [reflexivity|].
  rewrite remove_wraparound_unwrapped. rewrite decide_True by lia.
  rewrite np_diffR_seconds.
  assert (forall l : list Z,
            existsb (fun d => bool_decide (d <= 0)%R)
                    (map (fun d => (IZR d / samplingrate)%R) l)
            = existsb (fun d => d <=? 0) l) as Hex.
  { induction l as [|d l IH]; [reflexivity|].
    cbn [map existsb]. rewrite IH, seconds_nonpositive. reflexivity. }
  assert (forall (l : list Z) (i : nat),
            where_from i (fun d => bool_decide (d > 0)%R)
                       (map (fun d => (IZR d / samplingrate)%R) l)
            = where_from i (fun d => 0 <? d) l) as Hwh.
  { induction l as [|d l IH]; intros i; [reflexivity|].
    cbn [map where_from]. rewrite IH, seconds_positive. reflexivity. }
  rewrite Hex. unfold np_where. rewrite Hwh.
  destruct (existsb (fun d => d <=? 0) (np_diff (unwrapped ts))); [|reflexivity].
  destruct (where_from 0 (fun d => 0 <? d) (np_diff (unwrapped ts))); reflexivity.
Qed.
End Ts2secFacts.

Lemma np_diff_app (a : list Z) (x : Z) (l : list Z) :
  np_diff (a ++ x :: l) = np_diff (a ++ [x]) ++ np_diff (x :: l).
Proof.
  induction a as [|z [|w a] IH]; [reflexivity|reflexivity|].
  change ((z :: w :: a) ++ x :: l) with (z :: w :: (a ++ x :: l)).
  change ((z :: w :: a) ++ [x]) with (z :: w :: (a ++ [x])).
  rewrite !np_diff_cons.
  change (w :: (a ++ x :: l)) with ((w :: a) ++ x :: l).
  rewrite IH. reflexivity.
Qed.

Lemma unwrapped_nondecreasing (l : list Z) :
  Forall (fun d => 0 <= d) (np_diff l) -> unwrapped l = l.
Proof.
  induction l as [|x [|y tl] IH]; [reflexivity|reflexivity|].
  rewrite np_diff_cons. intros Hsteps. apply Forall_cons in Hsteps as [Hxy Htl].
  rewrite unwrapped_cons, (IH Htl), (turns_nonneg (y - x) Hxy).
  f_equal. rewrite <- (map_id (y :: tl)) at 2. apply map_ext. intros t. lia.
Qed.

Lemma unwrapped_prefix (a : list Z) (m : Z) (l : list Z) :
  Forall (fun d => 0 <= d) (np_diff (a ++ [m])) ->
  unwrapped (a ++ m :: l) = a ++ unwrapped (m :: l).
Proof.
  induction a as [|x a IH]; [reflexivity|].
  intros Hsteps.
  assert (exists z rest, a ++ [m] = z :: rest /\ a ++ m :: l = z :: (rest ++ l)
                         ) as (z & rest & Heq1 & Heq2).
  { destruct a as [|z a]; [exists m, []; auto|].
    exists z, (a ++ [m]). split; [reflexivity|].
    cbn [app]. rewrite <- app_assoc. reflexivity. }
  change ((x :: a) ++ [m]) with (x :: (a ++ [m])) in Hsteps.
  rewrite Heq1, np_diff_cons in Hsteps. apply Forall_cons in Hsteps as [Hxz Hrest].
  rewrite <- Heq1 in Hrest.
  change ((x :: a) ++ m :: l) with (x :: (a ++ m :: l)).
  rewrite Heq2, unwrapped_cons, <- Heq2, (IH Hrest), (turns_nonneg (z - x) Hxz).
  cbn [app]. f_equal. rewrite <- (map_id (a ++ unwrapped (m :: l))) at 2.
  apply map_ext. intros t. lia.
Qed.

Lemma increasing_above (x : Z) (l : list Z) :
  Forall (fun d => 0 < d) (np_diff (x :: l)) -> Forall (fun t => x < t) l.
Proof.
  revert x. induction l as [|y l IH]; intros x Hsteps; [constructor|].
  rewrite np_diff_cons in Hsteps. apply Forall_cons in Hsteps as [Hxy Hl].
  constructor; [lia|].
  eapply Forall_impl; [exact (IH y Hl)|]. cbn beta. intros t Ht. lia.
Qed.

Lemma count_true_app (l1 l2 : list bool) :
  count_true (l1 ++ l2) = count_true l1 + count_true l2.
Proof.
  induction l1 as [|b l1 IH]; [reflexivity|].
  change (count_true ((b :: l1) ++ l2)) with (b2z b + count_true (l1 ++ l2)).
  change (count_true (b :: l1)) with (b2z b + count_true l1).
  rewrite IH. lia.
Qed.

Lemma count_true_increasing (l : list Z) :
  Forall (fun d => 0 < d) (np_diff l) ->
  0 <= count_true (map (fun t => t =? BAD_TS) l) <= 1.
Proof.
  induction l as [|x l IH]; intros Hsteps; [cbn; lia|].
  assert (Forall (fun d => 0 < d) (np_diff l)) as Hl.
  { destruct l as [|y l]; [constructor|].
    rewrite np_diff_cons in Hsteps. apply Forall_cons in Hsteps as [_ Hl]. exact Hl. }
  specialize (IH Hl).
  change (count_true (map (fun t => t =? BAD_TS) (x :: l)))
    with (b2z (x =? BAD_TS) + count_true (map (fun t => t =? BAD_TS) l)).
  destruct (Z.eqb_spec x BAD_TS) as [->|Hne]; cbn [b2z]; [|lia].
  assert (count_true (map (fun t => t =? BAD_TS) l) = 0) as ->; [|lia].
  pose proof (increasing_above BAD_TS l Hsteps) as Habove.
  clear -Habove. induction Habove as [|t l Ht _ IH]; [reflexivity|].
  change (count_true (map (fun t => t =? BAD_TS) (t :: l)))
    with (b2z (t =? BAD_TS) + count_true (map (fun t => t =? BAD_TS) l)).
  rewrite IH. destruct (Z.eqb_spec t BAD_TS); [lia|reflexivity].
Qed.

Section Ts2secResults.
Variable iu_spline : list R -> list R -> R -> R.
Variables (packet_length : Z) (samplingrate : R).

(** Without equal neighbours after the loop, the seconds are the
    stamps the loop left, divided by the sampling rate. *)
Lemma ts2sec_clean (ts : list Z) :
  (0 < samplingrate)%R ->
  count_true (map (fun t => t =? BAD_TS) ts) <= 10 ->
  Forall (fun d => 0 < d) (np_diff (unwrapped ts)) ->
  ts2sec iu_spline ts packet_length samplingrate
  = Seconds (map (fun t => (IZR t / samplingrate)%R) (unwrapped ts))
            (map (fun t => t =? BAD_TS) ts).
Proof.
  intros Hrate Hcount Hsteps.
  rewrite (ts2sec_unwrapped iu_spline packet_length samplingrate Hrate). cbv zeta.
  destruct (Z.ltb_spec 10 (count_true (map (fun t => t =? BAD_TS) ts))); [lia|].
  assert (existsb (fun d => d <=? 0) (np_diff (unwrapped ts)) = false) as ->;
    [|reflexivity].
  induction Hsteps as [|d l Hd _ IH]; [reflexivity|].
  cbn [existsb]. rewrite IH. destruct (Z.leb_spec d 0); [lia|reflexivity].
Qed.
End Ts2secResults.



(** X5. Stamps that grow from each one to the next are only divided:
    for stamps from 0 to below 2^51 and a sampling rate between 1 and
    10^12, where doubles keep the quotients of different stamps apart,
    the seconds are the stamps over the rate, whatever the packet
    length, and the spline is not used. *)
Theorem ts2sec_increasing (iu_spline : list R -> list R -> R -> R)
    (ts : list Z) (packet_length : Z) (samplingrate : R) :
  (1 <= samplingrate <= 1000000000000)%R ->
  Forall (fun t => 0 <= t < 2 ^ 51) ts ->
  Forall (fun d => 0 < d) (np_diff ts) ->
  ts2sec iu_spline ts packet_length samplingrate
  = Seconds (map (fun t => (IZR t / samplingrate)%R) ts)
            (map (fun t => t =? BAD_TS) ts).
Proof.
  intros Hbounds _ Hsteps.
  assert (0 < samplingrate)%R as Hrate by lra.
  assert (unwrapped ts = ts) as Hsame.
  { apply unwrapped_nondecreasing. eapply Forall_impl; [exact Hsteps|].
    cbn beta. intros d Hd. lia. }
  rewrite (ts2sec_clean iu_spline packet_length samplingrate ts Hrate).
  - rewrite Hsame. reflexivity.
  - pose proof (count_true_increasing ts Hsteps). lia.
  - rewrite Hsame. exact Hsteps.
Qed.

(** Three stamps, a tenth of a microsecond each count. *)
Lemma ts2sec_increasing_witness :
  ts2sec (fun _ _ _ => 0%R) [10; 25; 4294967296] 0 10000000
  = Seconds [(10 / 10000000)%R; (25 / 10000000)%R; (4294967296 / 10000000)%R]
            [false; false; false].
Proof.
  apply (ts2sec_increasing (fun _ _ _ => 0%R) [10; 25; 4294967296] 0 10000000).
  - lra.
  - repeat constructor; vm_compute; discriminate.
  - repeat constructor.
Defined.

Lemma turns_one (d : Z) : - WRAP <= d < 0 -> turns d = 1%nat.
Proof.
  intros Hd. rewrite (turns_neg d) by lia. rewrite turns_nonneg by lia. reflexivity.
Qed.

(** X6. A bad stamp is flagged and never replaced: the statements that
    would interpolate it stand behind the [raise]. So when stamps that
    grow up to one bad stamp 2^31 - 1 go on, growing, from a value
    below it, the bad stamp is taken for a wraparound: it stays in the
    result and every later stamp is moved by 2^32 counts. This for
    stamps from 0 to below 2^51 - 2^32 and a sampling rate between 1
    and 10^12, where doubles keep the quotients of different stamps
    apart. *)
Theorem ts2sec_keeps_bad_stamp (iu_spline : list R -> list R -> R -> R)
    (a : list Z) (y : Z) (b : list Z) (packet_length : Z) (samplingrate : R) :
  (1 <= samplingrate <= 1000000000000)%R ->
  Forall (fun t => 0 <= t < 2 ^ 51 - WRAP) (a ++ BAD_TS :: y :: b) ->
  Forall (fun d => 0 < d) (np_diff (a ++ [BAD_TS])) ->
  0 <= y < BAD_TS ->
  Forall (fun d => 0 < d) (np_diff (y :: b)) ->
  ts2sec iu_spline (a ++ BAD_TS :: y :: b) packet_length samplingrate
  = Seconds (map (fun t => (IZR t / samplingrate)%R)
                 (a ++ BAD_TS :: map (fun t => t + WRAP) (y :: b)))
            (map (fun t => t =? BAD_TS) (a ++ BAD_TS :: y :: b)).
Proof.
  intros Hbounds _ Ha Hy Hb.
  assert (0 < samplingrate)%R as Hrate by lra.
  assert (unwrapped (a ++ BAD_TS :: y :: b)
          = a ++ BAD_TS :: map (fun t => t + WRAP) (y :: b)) as Hout.
  { rewrite unwrapped_prefix
      by (eapply Forall_impl; [exact Ha|]; cbn beta; intros d Hd; lia).
    rewrite unwrapped_cons.
    rewrite (unwrapped_nondecreasing (y :: b))
      by (eapply Forall_impl; [exact Hb|]; cbn beta; intros d Hd; lia).
    rewrite (turns_one (y - BAD_TS)) by (rewrite WRAP_value; unfold BAD_TS in *; lia).
    reflexivity. }
  rewrite (ts2sec_clean iu_spline packet_length samplingrate _ Hrate).
  - rewrite Hout. reflexivity.
  - replace (a ++ BAD_TS :: y :: b) with ((a ++ [BAD_TS]) ++ y :: b)
      by (rewrite <- app_assoc; reflexivity).
    rewrite map_app, count_true_app.
    pose proof (count_true_increasing (a ++ [BAD_TS]) Ha).
    pose proof (count_true_increasing (y :: b) Hb). lia.
  - rewrite Hout, np_diff_app. apply Forall_app. split; [exact Ha|].
    change (map (fun t => t + WRAP) (y :: b))
      with ((y + WRAP) :: map (fun t => t + WRAP) b).
    rewrite np_diff_cons.
    change ((y + WRAP) :: map (fun t => t + WRAP) b)
      with (map (fun t => t + WRAP) (y :: b)).
    rewrite np_diff_shift. constructor; [|exact Hb].
    rewrite WRAP_value. unfold BAD_TS in *. lia.
Qed.

(** One bad stamp between 100 and 200. *)
Lemma ts2sec_keeps_bad_stamp_witness :
  ts2sec (fun _ _ _ => 0%R) [100; 2147483647; 200; 300] 0 10000000
  = Seconds [(100 / 10000000)%R; (2147483647 / 10000000)%R;
             (4294967496 / 10000000)%R; (4294967596 / 10000000)%R]
            [false; true; false; false].
Proof.
  apply (ts2sec_keeps_bad_stamp (fun _ _ _ => 0%R) [100] 200 [300] 0 10000000).
  - lra.
  - repeat constructor; vm_compute; discriminate.
  - repeat constructor.
  - vm_compute. intuition discriminate.
  - repeat constructor.
Defined.



(** ** The region of the grabber and the crop of the tracker *)

Lemma slice_bound_in_range (n i : Z) : 0 <= i <= n -> slice_bound n i = i.
Proof. intros Hi. unfold slice_bound. destruct (Z.ltb_spec i 0); lia. Qed.

Lemma py_slice_in_range {A : Type} (lo hi : Z) (l : list A) :
  0 <= lo <= hi -> hi <= Z.of_nat (length l) ->
  py_slice lo hi l = take (Z.to_nat (hi - lo)) (drop (Z.to_nat lo) l).
Proof.
  intros Hlo Hhi. unfold py_slice.
  rewrite !slice_bound_in_range by lia. reflexivity.
Qed.

Lemma py_slice_length {A : Type} (lo hi : Z) (l : list A) :
  0 <= lo <= hi -> hi <= Z.of_nat (length l) ->
  length (py_slice lo hi l) = Z.to_nat (hi - lo).
Proof.
  intros Hlo Hhi. rewrite py_slice_in_range by assumption.
  rewrite length_take, length_drop. lia.
Qed.

Lemma py_slice_lookup {A : Type} (lo hi : Z) (l : list A) (i : nat) :
  0 <= lo <= hi -> hi <= Z.of_nat (length l) ->
  (i < Z.to_nat (hi - lo))%nat ->
  py_slice lo hi l !! i = l !! (Z.to_nat lo + i)%nat.
Proof.
  intros Hlo Hhi Hi. rewrite py_slice_in_range by assumption.
  rewrite lookup_take_lt by exact Hi. apply lookup_drop.
Qed.

Lemma roi_of_bounds (p q : Z * Z) :
  roi_of p q
  = ((Z.min (snd p) (snd q) + 1, Z.min (snd p) (snd q) + 1 + Z.abs (snd q - snd p)),
     (Z.min (fst p) (fst q) + 1, Z.min (fst p) (fst q) + 1 + Z.abs (fst q - fst p))).
Proof.
  unfold roi_of. cbn.
  apply pair_equal_spec; split; apply pair_equal_spec; split; lia.
Qed.

Lemma crop_roi_of_inside (img : Image) (rows cols : Z) (p q : Z * Z) :
  rectangular img rows cols ->
  0 <= fst p < cols -> 0 <= snd p < rows ->
  0 <= fst q < cols -> 0 <= snd q < rows ->
  let x0 := Z.min (fst p) (fst q) in
  let y0 := Z.min (snd p) (snd q) in
  let w := Z.abs (fst q - fst p) in
  let h := Z.abs (snd q - snd p) in
  roi_of p q = roi_of q p
  /\ length (crop (roi_of p q) img) = Z.to_nat h
  /\ Forall (fun row => length row = Z.to_nat w) (crop (roi_of p q) img)
  /\ forall i j : nat,
       (i < Z.to_nat h)%nat -> (j < Z.to_nat w)%nat ->
       sample (crop (roi_of p q) img) i j
       = sample img (Z.to_nat (y0 + 1) + i) (Z.to_nat (x0 + 1) + j).
Proof.
  intros [Hrows Hcols] Hpx Hpy Hqx Hqy x0 y0 w h.
  split.
  { rewrite !roi_of_bounds.
    apply pair_equal_spec; split; apply pair_equal_spec; split; lia. }
  rewrite roi_of_bounds. fold x0 y0 w h. unfold crop.
  assert (0 <= y0 + 1 <= y0 + 1 + h) as Hr by lia.
  assert (y0 + 1 + h <= Z.of_nat (length img)) as Hr' by lia.
  assert (0 <= x0 + 1 <= x0 + 1 + w) as Hc by lia.
  assert (x0 + 1 + w <= cols) as Hc' by lia.
  assert (Forall (fun row => Z.of_nat (length row) = cols)
                 (py_slice (y0 + 1) (y0 + 1 + h) img)) as Hsub.
  { rewrite py_slice_in_range by assumption.
    apply Forall_take, Forall_drop. exact Hcols. }
  split; [|split].
  - rewrite length_map, py_slice_length by assumption. f_equal. lia.
  - apply Forall_fmap. eapply Forall_impl; [exact Hsub|].
    intros row Hrow. unfold compose. cbn beta in Hrow.
    rewrite py_slice_length by lia. f_equal. lia.
  - intros i j Hi Hj. unfold sample.
    change (map (py_slice (x0 + 1) (x0 + 1 + w)) (py_slice (y0 + 1) (y0 + 1 + h) img))
      with (py_slice (x0 + 1) (x0 + 1 + w) <$> py_slice (y0 + 1) (y0 + 1 + h) img).
    rewrite list_lookup_fmap.
    rewrite py_slice_lookup by (try assumption; lia).
    match goal with
    | |- _ = match ?t with _ => _ end => destruct t as [row|] eqn:Hrow
    end; [|reflexivity].
    cbn [fmap option_fmap option_map].
    assert (Z.of_nat (length row) = cols) as Hlen.
    { rewrite Forall_forall in Hcols. apply Hcols.
      apply list_elem_of_lookup. eauto. }
    apply py_slice_lookup; lia.
Qed.

(** X8. A region grabbed by dragging the mouse between two pixels of an
    image does not depend on the direction of the drag, and the crop
    that [track] takes with it has as many rows and columns as the two
    pixels are apart: it starts one row below and one column right of
    their upper left corner, so the row and the column of that corner
    are left out and those of the lower right corner are the last ones
    in. *)
Theorem grabbed_region_crop (img : Image) (rows cols : Z) (p q : Z * Z) :
  rectangular img rows cols ->
  0 <= fst p < cols -> 0 <= snd p < rows ->
  0 <= fst q < cols -> 0 <= snd q < rows ->
  let x0 := Z.min (fst p) (fst q) in
  let y0 := Z.min (snd p) (snd q) in
  let w := Z.abs (fst q - fst p) in
  let h := Z.abs (snd q - snd p) in
  roi_of p q = roi_of q p
  /\ length (crop (roi_of p q) img) = Z.to_nat h
  /\ Forall (fun row => length row = Z.to_nat w) (crop (roi_of p q) img)
  /\ forall i j : nat,
       (i < Z.to_nat h)%nat -> (j < Z.to_nat w)%nat ->
       sample (crop (roi_of p q) img) i j
       = sample img (Z.to_nat (y0 + 1) + i) (Z.to_nat (x0 + 1) + j).
Proof. exact (crop_roi_of_inside img rows cols p q). Qed.

(** A drag from (3, 1) to (1, 2) in an image of three rows of four. *)
Lemma grabbed_region_crop_witness :
  roi_of (3, 1) (1, 2) = roi_of (1, 2) (3, 1)
  /\ crop (roi_of (3, 1) (1, 2)) [[0; 1; 2; 3]; [10; 11; 12; 13]; [20; 21; 22; 23]]
     = [[22; 23]].
Proof.
  destruct (grabbed_region_crop
              [[0; 1; 2; 3]; [10; 11; 12; 13]; [20; 21; 22; 23]] 3 4 (3, 1) (1, 2))
    as (Hsym & _); [split; [reflexivity|repeat constructor]|cbn; lia..|].
  split; [exact Hsym|reflexivity].
Defined.

(** ** The callback of the grabber *)

Lemma py_slice_empty {A : Type} (c : Z) (l : list A) : py_slice c c l = [].
Proof. unfold py_slice. rewrite Z.sub_diag. reflexivity. Qed.

Lemma concat_empty_rows {A : Type} (rows : list (list A)) :
  Forall (fun row => row = []) rows -> concat rows = [].
Proof. induction 1 as [|row rows -> _ IH]; [reflexivity|exact IH]. Qed.

Lemma crop_degenerate (img : Image) (start end_ : Z * Z) :
  fst end_ = fst start \/ snd end_ = snd start ->
  concat (crop (roi_of start end_) img) = [].
Proof.
  intros Hsame. rewrite roi_of_bounds. unfold crop.
  destruct Hsame as [Hx|Hy].
  - rewrite Hx, Z.sub_diag, Z.add_0_r. cbn [Z.abs].
    apply concat_empty_rows. apply Forall_fmap, Forall_forall.
    intros row _. unfold compose. apply py_slice_empty.
  - rewrite Hy, Z.sub_diag. cbn [Z.abs]. rewrite (Z.add_0_r (_ + 1)).
    rewrite py_slice_empty. reflexivity.
Qed.

(** X9. The mouse-up of the grabber stores a region only for a true
    drag. Without a recorded start, or when the mouse is released in the
    column or in the row where it was pressed (a plain click), the call
    raises [ValueError] after it has recorded the end, and the region
    stays what it was. For a drag between two pixels of the image that
    differ in row and column it stores the region of the two positions
    and asks to exit exactly when the low byte of the key then pressed
    is 'q'. *)
Theorem grabber_release (img : Image) (g : Grabber) (x y key : Z) :
  let ended := {| g_start := g_start g; g_end := Some (x, y); g_roi := g_roi g;
                  g_exit := g_exit g |} in
  match g_start g with
  | None => grabber_call img g EVENT_LBUTTONUP x y key = (ended, true)
  | Some start =>
      ((x = fst start \/ y = snd start) ->
       grabber_call img g EVENT_LBUTTONUP x y key = (ended, true))
      /\ (forall rows cols : Z,
            rectangular img rows cols ->
            0 <= fst start < cols -> 0 <= snd start < rows ->
            0 <= x < cols -> 0 <= y < rows ->
            x <> fst start -> y <> snd start ->
            grabber_call img g EVENT_LBUTTONUP x y key
            = ({| g_start := Some start; g_end := Some (x, y);
                  g_roi := Some (roi_of start (x, y));
                  g_exit := if decide (key mod 256 = 113) then true else g_exit g |},
               false))
  end.
Proof.
  intros ended. unfold grabber_call.
  destruct (g_start g) as [start|]; [|reflexivity].
  split.
  - intros Hsame. rewrite (crop_degenerate img start (x, y) Hsame). reflexivity.
  - intros rows cols Hrect Hsx Hsy Hx Hy Hdx Hdy.
    destruct (crop_roi_of_inside img rows cols start (x, y) Hrect Hsx Hsy Hx Hy)
      as (_ & Hlen & Hrows & _).
    cbn [fst snd] in Hlen, Hrows.
    destruct (crop (roi_of start (x, y)) img) as [|row rest] eqn:Hcrop;
      [cbn in Hlen; lia|].
    apply Forall_cons in Hrows as [Hrow _].
    destruct row as [|v row]; [cbn in Hrow; lia|].
    cbn [concat app].
    replace (Z.land key 255) with (key mod 256)
      by (symmetry; apply (Z.land_ones key 8); lia).
    destruct (Z.eqb_spec (key mod 256) 113) as [Hq|Hq];
      [rewrite decide_True by exact Hq|rewrite decide_False by exact Hq]; reflexivity.
Qed.

(** A click at (2, 1), and a drag from (3, 1) to (1, 2) ended by 'q'. *)
Lemma grabber_release_witness :
  let img := [[0; 1; 2; 3]; [10; 11; 12; 13]; [20; 21; 22; 23]] in
  let pressed := fst (grabber_call img grabber_init EVENT_LBUTTONDOWN 3 1 0) in
  grabber_call img pressed EVENT_LBUTTONUP 3 1 113
  = ({| g_start := Some (3, 1); g_end := Some (3, 1); g_roi := None;
        g_exit := false |}, true)
  /\ grabber_call img pressed EVENT_LBUTTONUP 1 2 113
     = ({| g_start := Some (3, 1); g_end := Some (1, 2);
           g_roi := Some ((2, 3), (2, 4)); g_exit := true |}, false).
Proof.
  intros img pressed.
  pose proof (grabber_release img pressed 3 1 113) as [Hclick _].
  pose proof (grabber_release img pressed 1 2 113) as [_ Hdrag].
  split.
  - apply Hclick. left. reflexivity.
  - apply (Hdrag 3 4); cbn; try lia; try (intros; discriminate).
    split; [reflexivity|repeat constructor].
Defined.

(** ** What the detector returns *)

Section DetectorFacts.
Context `{Vision}.

Lemma score_inv_full (th : Thresholds) (small_shape : Z * Z)
    (oc : option (R * R)) (or : option R) (cnt : Contour) (s : Scored) :
  score th small_shape oc or cnt = Ok (Some s) ->
  exists (ellipse : Ellipse) (curr_err dr : R),
    ~ (INR (length cnt) < min_contour th)%R
    /\ fitEllipse cnt = Some ellipse
    /\ min2 (ell_axes ellipse) <> 0%R
    /\ goodness_of_fit cnt ellipse = Ok curr_err
    /\ dr_of (max2 (ell_axes ellipse)) or = Ok dr
    /\ s = candidate small_shape oc cnt ellipse curr_err dr.
Proof.
  unfold score. case_bool_decide as Hlen; [discriminate|].
  destruct (fitEllipse cnt) as [[[xy axes] angle]|]; [|discriminate].
  destruct (decide _) as [|Hmin]; [discriminate|].
  destruct (goodness_of_fit cnt (xy, axes, angle)) as [curr|] eqn:Hg; cbn;
    [|discriminate].
  repeat (destruct (decide _); [discriminate|]).
  destruct (dr_of (max2 axes) or) as [dr|] eqn:Hdr; cbn; [|discriminate].
  intros [= <-]. exists (xy, axes, angle), curr, dr. auto 10.
Qed.

Lemma scored_candidates_complete (th : Thresholds) (small_shape : Z * Z)
    (oc : option (R * R)) (or : option R) (contours : list Contour)
    (l : list Scored) (cnt : Contour) (s : Scored) :
  scored_candidates th small_shape oc or contours = Ok l ->
  cnt ∈ contours ->
  score th small_shape oc or cnt = Ok (Some s) ->
  s ∈ l.
Proof.
  revert l. induction contours as [|c contours IH]; intros l Hl Hin Hsc.
  - inversion Hin.
  - cbn [scored_candidates] in Hl.
    destruct (score th small_shape oc or c) as [o|] eqn:Hc; cbn in Hl; [|discriminate].
    destruct (scored_candidates th small_shape oc or contours) as [l'|]; cbn in Hl;
      [|discriminate].
    injection Hl as <-.
    apply elem_of_cons in Hin as [->|Hin].
    + rewrite Hsc in Hc. injection Hc as <-. left.
    + specialize (IH l' eq_refl Hin Hsc). destruct o; [right|]; exact IH.
Qed.

(** The properties of a returned contour, and of a return of nothing. *)
Lemma get_pupil_from_contours_found (params : Params) (contours : list Contour)
    (small_gray : Image) (oc : option (R * R)) (or : option R)
    (found : option (Contour * Ellipse)) :
  get_pupil_from_contours params contours small_gray oc or = Ok found ->
  exists th : Thresholds,
    read_thresholds params = Ok th
    /\ match found with
       | Some (c, e) =>
           c ∈ contours
           /\ exists s : Scored,
                score th (shape small_gray) oc or c = Ok (Some s)
                /\ sc_ellipse s = e
                /\ passes th s
                /\ forall (c' : Contour) (s' : Scored),
                     c' ∈ contours ->
                     score th (shape small_gray) oc or c' = Ok (Some s') ->
                     passes th s' -> (sc_rmse s <= sc_rmse s')%R
       | None =>
           (exists (c : Contour) (s : Scored),
              c ∈ contours /\ score th (shape small_gray) oc or c = Ok (Some s))
           /\ forall (c : Contour) (s : Scored),
                c ∈ contours ->
                score th (shape small_gray) oc or c = Ok (Some s) -> ~ passes th s
       end.
Proof.
  intros Hget.
  destruct (get_pupil_from_contours_inv params _ _ _ _ _ Hget)
    as (th & l & Hth & Hl & Hne & Hsel).
  exists th. split; [exact Hth|].
  destruct found as [[c e]|]; cbn in Hsel.
  - destruct Hsel as (i & s & (Hi & Hpass & Hmin) & -> & ->).
    assert (s ∈ l) as Hin by (apply list_elem_of_lookup; eauto).
    destruct (scored_candidates_inv th _ _ _ _ l s Hl Hin) as (cnt & Hcnt & Hsc).
    pose proof Hsc as Hsc'.
    apply score_inv in Hsc' as (e & curr & dr & _ & _ & _ & Hs).
    assert (sc_contour s = cnt) as -> by (rewrite Hs; reflexivity).
    split; [exact Hcnt|]. exists s.
    split; [exact Hsc|]. split; [reflexivity|]. split; [exact Hpass|].
    intros c' s' Hc' Hsc2 Hpass'.
    pose proof (scored_candidates_complete th _ _ _ _ l c' s' Hl Hc' Hsc2) as Hin'.
    apply list_elem_of_lookup in Hin' as [j Hj].
    exact (proj1 (Hmin j s' Hj Hpass')).
  - split.
    + destruct l as [|s l]; [contradiction|].
      destruct (scored_candidates_inv th _ _ _ _ (s :: l) s Hl ltac:(left))
        as (cnt & Hcnt & Hsc).
      eauto.
    + intros c s Hc Hsc.
      apply Hsel. exact (scored_candidates_complete th _ _ _ _ l c s Hl Hc Hsc).
Qed.
End DetectorFacts.

(** X10. Whenever [get_pupil_from_contours] returns a contour, it is
    one of the contours it was given, not shorter than min_contour_len,
    the ellipse returned with it is its fitted ellipse, whose smaller
    axis is not 0, it passes all seven criteria, and no contour that
    passes them has a lower goodness of fit. Whenever it returns
    nothing, at least one contour was scored and none that was scored
    passes the seven criteria. *)
Theorem detector_returns_best_passing `{Vision} (params : Params)
    (contours : list Contour) (small_gray : Image)
    (oc : option (R * R)) (or : option R) (found : option (Contour * Ellipse)) :
  get_pupil_from_contours params contours small_gray oc or = Ok found ->
  exists th : Thresholds,
    read_thresholds params = Ok th
    /\ match found with
       | Some (c, e) =>
           c ∈ contours
           /\ ~ (INR (length c) < min_contour th)%R
           /\ fitEllipse c = Some e
           /\ min2 (ell_axes e) <> 0%R
           /\ exists s : Scored,
                score th (shape small_gray) oc or c = Ok (Some s)
                /\ matching_conditions th s = 7
                /\ forall (c' : Contour) (s' : Scored),
                     c' ∈ contours ->
                     score th (shape small_gray) oc or c' = Ok (Some s') ->
                     matching_conditions th s' = 7 -> (sc_rmse s <= sc_rmse s')%R
       | None =>
           (exists (c : Contour) (s : Scored),
              c ∈ contours /\ score th (shape small_gray) oc or c = Ok (Some s))
           /\ forall (c : Contour) (s : Scored),
                c ∈ contours ->
                score th (shape small_gray) oc or c = Ok (Some s) ->
                matching_conditions th s <> 7
       end.
Proof.
  intros Hget.
  destruct (get_pupil_from_contours_found params _ _ _ _ _ Hget) as (th & Hth & Hfound).
  exists th. split; [exact Hth|].
  destruct found as [[c e]|]; [|exact Hfound].
  destruct Hfound as (Hc & s & Hsc & He & Hpass & Hmin).
  destruct (score_inv_full th _ _ _ c s Hsc)
    as (e' & curr & dr & Hlen & Hfit & Haxes & _ & _ & Hs).
  assert (e' = e) as -> by (rewrite <- He, Hs; reflexivity).
  split; [exact Hc|]. split; [exact Hlen|]. split; [exact Hfit|].
  split; [exact Haxes|]. exists s. auto.
Qed.

(** The pupil found in a 2 by 2 image. *)
Lemma detector_returns_best_passing_witness :
  pupil_contour ∈ [pupil_contour]
  /\ @fitEllipse pupil_vision pupil_contour = Some pupil_ellipse.
Proof.
  destruct (@detector_returns_best_passing pupil_vision config [pupil_contour]
              textured None None (Some (pupil_contour, pupil_ellipse)))
    as (th & _ & Hc & _ & Hfit & _).
  - apply get_pupil_pupil. left. split; reflexivity.
  - split; [exact Hc|exact Hfit].
Defined.

(** X11. The detector never follows a jump: when a previous center and
    a previous radius are known, a returned ellipse has its center, as
    a fraction of the sub-image, inside the margins and at a distance
    below speed_threshold from the previous center; its larger axis
    differs from the previous radius by less than dr_threshold times
    that radius, which is not 0; its axes have a ratio of at most
    ratio_threshold and a product, as a fraction of the sub-image, of
    at least relative_area_threshold; and its goodness of fit is below
    error_threshold. *)
Theorem detector_never_jumps `{Vision} (params : Params)
    (contours : list Contour) (small_gray : Image)
    (oc : R * R) (or : R) (c : Contour) (e : Ellipse) :
  get_pupil_from_contours params contours small_gray (Some oc) (Some or)
  = Ok (Some (c, e)) ->
  exists (th : Thresholds) (rmse : R),
    read_thresholds params = Ok th
    /\ goodness_of_fit c e = Ok rmse
    /\ let cx := (fst (ell_center e) / IZR (snd (shape small_gray)))%R in
       let cy := (snd (ell_center e) / IZR (fst (shape small_gray)))%R in
       (max2 (ell_axes e) / min2 (ell_axes e) <= ratio_thres th)%R
       /\ (fst (ell_axes e) * snd (ell_axes e)
           / IZR (fst (shape small_gray) * snd (shape small_gray))
           >= area_threshold th)%R
       /\ (rmse < error_threshold th)%R
       /\ (margin th < cx < 1 - margin th)%R
       /\ (margin th < cy < 1 - margin th)%R
       /\ (sqrt ((cx - fst oc) ^ 2 + (cy - snd oc) ^ 2) < speed_thres th)%R
       /\ or <> 0%R
       /\ (Rabs (max2 (ell_axes e) - or) / or < dr_thres th)%R.
Proof.
  intros Hget.
  destruct (get_pupil_from_contours_found params _ _ _ _ _ Hget)
    as (th & Hth & _ & s & Hsc & He & Hpass & _).
  destruct (score_inv_full th _ _ _ c s Hsc)
    as (e' & curr & dr & _ & _ & _ & Hgof & Hdr & Hs).
  assert (e' = e) as -> by (rewrite <- He, Hs; reflexivity).
  exists th, curr. split; [exact Hth|]. split; [exact Hgof|].
  unfold dr_of in Hdr. destruct (decide (or = 0%R)) as [|Hor]; [discriminate|].
  injection Hdr as <-.
  apply passes_iff in Hpass. rewrite Hs in Hpass.
  cbn [sc_ratio sc_area sc_rmse sc_center sc_dx sc_dr candidate dx_of] in Hpass.
  unfold ratio_of, area_of, center_of in Hpass. cbn [fst snd] in Hpass.
  cbv zeta. tauto.
Qed.

(** The pupil found again where it was. *)
Lemma detector_never_jumps_witness :
  exists (th : Thresholds) (rmse : R),
    read_thresholds config = Ok th
    /\ goodness_of_fit pupil_contour pupil_ellipse = Ok rmse
    /\ (rmse < error_threshold th)%R.
Proof.
  destruct (@detector_never_jumps pupil_vision config [pupil_contour] textured
              (normalized_center pupil_ellipse (2, 2))
              (max2 (ell_axes pupil_ellipse)) pupil_contour pupil_ellipse)
    as (th & rmse & Hth & Hgof & _ & _ & Hrmse & _).
  - apply get_pupil_pupil. right. split; reflexivity.
  - exists th, rmse. auto.
Defined.

(** ** The records of a trace *)

Section RecordFacts.
Context `{Vision}.
Variables (params : Params) (lv : Levels) (cap : VideoCapture) (eye_roi : ROI).

Lemma track_iter_record (st st' : Loop) :
  track_iter params lv cap eye_roi st = Next st'
  \/ track_iter params lv cap eye_roi st = Throw aborted st' ->
  exists r : FrameRecord,
    traces st' = traces st ++ [r] /\ record_of cap (fr_count st) r.
Proof.
  unfold track_iter, record_of.
  destruct (isOpened cap (fr_count st)); cbn [negb];
    [|intros [?|?]; discriminate].
  case_bool_decide; [intros [?|?]; discriminate|].
  destruct (read cap (fr_count st)) as [frame|].
  - case_bool_decide.
    + intros [[= <-]|?]; [|discriminate]. cbn. eauto.
    + destruct (mbind _ _) as [[[c e]|]|e] eqn:Hget.
      * destruct (quit_key _); intros [Hit|Hit]; try discriminate;
          injection Hit as <-; cbn;
          (eexists; split; [reflexivity|]);
          destruct e as [[xy axes] angle], eye_roi as [[r0 r1] [c0 c1]];
          cbn; auto.
      * destruct (quit_key _); intros [Hit|Hit]; try discriminate;
          injection Hit as <-; cbn; eauto.
      * intros [?|Hit]; [discriminate|]. injection Hit as -> _.
        destruct (found_crash params lv _ _ _ _ Hget).
  - intros [[= <-]|?]; [|discriminate]. cbn. eauto.
Qed.

Lemma consistent_length (st : Loop) :
  consistent st -> Z.of_nat (length (traces st)) = fr_count st.
Proof.
  intros [Hids Hpos].
  assert (length (frame_ids (traces st)) = length (seqZ 1 (fr_count st))) as Hlen
    by (rewrite Hids; reflexivity).
  unfold frame_ids in Hlen. rewrite length_map, length_seqZ in Hlen. lia.
Qed.

Lemma track_loop_records (fuel : nat) (st : Loop) (e : ending) (st' : Loop) :
  consistent st ->
  (forall (i : nat) (r : FrameRecord),
     traces st !! i = Some r -> record_of cap (Z.of_nat i) r) ->
  track_loop fuel params lv cap eye_roi st = (e, st') ->
  forall (i : nat) (r : FrameRecord),
    traces st' !! i = Some r -> record_of cap (Z.of_nat i) r.
Proof.
  revert st. induction fuel as [|fuel IH]; intros st Hcons Hrec; cbn [track_loop].
  - intros [= <- <-]. exact Hrec.
  - assert (forall st1 : Loop,
              track_iter params lv cap eye_roi st = Next st1
              \/ track_iter params lv cap eye_roi st = Throw aborted st1 ->
              forall (i : nat) (r : FrameRecord),
                traces st1 !! i = Some r -> record_of cap (Z.of_nat i) r) as Hstep.
    { intros st1 Hit i r Hi.
      destruct (track_iter_record st st1 Hit) as (r1 & Htr & Hr1).
      rewrite Htr in Hi. apply lookup_snoc_Some in Hi as [[_ Hi]|[Hi ->]].
      - exact (Hrec i r Hi).
      - rewrite Hi, (consistent_length st Hcons). exact Hr1. }
    destruct (track_iter params lv cap eye_roi st) as [st1|st1|e1 st1] eqn:Hit.
    + apply IH; [|apply Hstep; left; reflexivity].
      pose proof Hit as Hnext.
      apply track_iter_Next in Hnext as (_ & _ & Hcount & r & Htr & Hid).
      exact (consistent_append st st1 r Hcons Hcount Htr Hid).
    + apply track_iter_Stop in Hit as [-> _]. intros [= <- <-]. exact Hrec.
    + intros [= <- <-].
      pose proof Hit as Hthrow.
      apply track_iter_Throw in Hthrow as (_ & _ & [[_ Htr]|(-> & _)]).
      * rewrite Htr. exact Hrec.
      * apply Hstep. right. reflexivity.
Qed.
End RecordFacts.

(** X12. In every trace that [track] returns, the record at position i
    is the one of the read that followed i others: it bears the number
    i + 1; when that read delivered no frame it holds nothing but the
    number; and otherwise it is a failure or a detection record whose
    frame_intensity is the standard deviation of the whole gray frame. *)
Theorem trace_records_match_reads `{Vision} (params : Params) (cap : VideoCapture)
    (eye_roi : ROI) (tr : list FrameRecord) :
  track params cap eye_roi = Returns tr ->
  forall (i : nat) (r : FrameRecord),
    tr !! i = Some r ->
    frame_id r = Z.of_nat i + 1
    /\ match read cap (Z.of_nat i) with
       | None => r = Unread (Z.of_nat i + 1)
       | Some frame =>
           match r with
           | Unread _ => False
           | Failure _ intensity | Detection _ _ _ _ _ intensity =>
               intensity = np_std (cvtColor frame)
           end
       end.
Proof.
  unfold track, track_run.
  destruct (read_levels params) as [lv|e]; [|discriminate].
  destruct (track_loop _ params lv cap eye_roi loop_init) as [e st] eqn:Hloop.
  destruct e; try discriminate. intros [= <-] i r Hi.
  revert i r Hi.
  eapply track_loop_records; [exact consistent_init| |exact Hloop].
  intros j r' Hj. inversion Hj.
Qed.

(** The fourth record of the short video. *)
Lemma trace_records_match_reads_witness :
  frame_id (Unread 4) = 4
  /\ match read short_video 3 with
     | None => Unread 4 = Unread 4
     | Some _ => False
     end.
Proof.
  exact (@trace_records_match_reads blank_vision config short_video whole _
           short_run 3%nat (Unread 4) eq_refl).
Defined.

(** ** Frames without any contrast *)

Section UniformFrames.
#[local] Open Scope R_scope.

Lemma Rsum_uniform (c : R) (xs : list R) :
  Forall (eq c) xs -> Rsum xs = INR (length xs) * c.
Proof.
  induction 1 as [|x xs <- _ IH].
  - cbn. lra.
  - change (Rsum (c :: xs)) with (c + Rsum xs).
    change (length (c :: xs)) with (S (length xs)).
    rewrite IH, S_INR. ring.
Qed.

Lemma np_mean_uniform (c : R) (xs : list R) :
  xs <> [] -> Forall (eq c) xs -> np_mean xs = c.
Proof.
  intros Hne Hall. unfold np_mean. rewrite (Rsum_uniform c xs Hall).
  field. apply not_0_INR. destruct xs; [congruence|discriminate].
Qed.

Lemma np_std_uniform (img : Image) (v : Z) :
  concat img <> [] -> Forall (Forall (eq v)) img -> np_std img = 0.
Proof.
  intros Hne Hall.
  assert (Forall (eq (IZR v)) (samples img)) as Hxs.
  { unfold samples. apply Forall_fmap.
    eapply Forall_impl; [apply Forall_concat; exact Hall|].
    intros x <-. reflexivity. }
  assert (samples img <> []) as Hne'.
  { unfold samples. destruct (concat img); [congruence|discriminate]. }
  unfold np_std. rewrite (np_mean_uniform (IZR v) _ Hne' Hxs).
  unfold np_mean at 1. rewrite Rsum_zero.
  - unfold Rdiv. rewrite Rmult_0_l. apply sqrt_0.
  - eapply Forall_impl; [exact Hxs|]. intros x <-. cbn beta. ring.
Qed.
End UniformFrames.

(** X14. A frame without any contrast never reaches the detector: when
    the gray image of the frame that was read has at least one pixel
    and all its pixels are equal, its deviation is 0, and with a
    contrast threshold above 0 the iteration of [track] appends the
    record of a failure with frame_intensity 0, keeps the center and
    the radius of the last detection, and goes on to the next frame
    without polling the key. *)
Theorem uniform_frame_is_skipped `{Vision} (params : Params) (lv : Levels)
    (cap : VideoCapture) (eye_roi : ROI) (st : Loop) (frame : Frame) (v : Z) :
  isOpened cap (fr_count st) = true ->
  fr_count st < frame_count cap ->
  read cap (fr_count st) = Some frame ->
  concat (cvtColor frame) <> [] ->
  Forall (Forall (eq v)) (cvtColor frame) ->
  (0 < contrast_low lv)%R ->
  np_std (cvtColor frame) = 0%R
  /\ track_iter params lv cap eye_roi st
     = Next {| traces := traces st ++ [Failure (fr_count st + 1) 0];
               fr_count := fr_count st + 1;
               old_center := old_center st; old_r := old_r st |}.
Proof.
  intros Hopen Hcount Hread Hne Hall Hfloor.
  pose proof (np_std_uniform (cvtColor frame) v Hne Hall) as Hstd.
  split; [exact Hstd|].
  unfold track_iter. rewrite Hopen, Hread. cbn [negb].
  rewrite bool_decide_eq_false_2 by lia.
  rewrite Hstd. rewrite bool_decide_eq_true_2 by exact Hfloor. reflexivity.
Qed.

(** The first frame of the short video, all of whose pixels are 1. *)
Lemma uniform_frame_is_skipped_witness :
  np_std flat = 0%R
  /\ @track_iter blank_vision config config_levels short_video whole loop_init
     = Next {| traces := [Failure 1 0]; fr_count := 1;
               old_center := None; old_r := None |}.
Proof.
  refine (@uniform_frame_is_skipped blank_vision config config_levels short_video
            whole loop_init flat 1 eq_refl _ eq_refl _ _ _).
  - cbn. lia.
  - discriminate.
  - repeat constructor.
  - cbn. lra.
Defined.
